(** * TidePlotter: the telemetry ingestion core of [TidePlotter.py]

    A shallow embedding of the parsing, persistence and ingestion code of
    the tide-sensor plotter, and the properties of it that the system
    description states.

    Python text is a list of Unicode code points, a [dict] with string
    keys is a [gmap string _], Python floats are IEEE binary64 numbers
    ([spec_float] at precision 53), exceptions are an error monad, and the
    data file is threaded through a state-and-exception monad. What the
    program takes from the interpreter and the platform is the class
    [PyRuntime].

    The file has the program first ([parse_message],
    [read_data_from_file], [write_data_to_file], the loop of
    [SerialReaderThread.run], the slice of [MainWindow.update_plot]), then
    a runtime to compute with, the vocabulary of the properties, the
    facts about the program, and last the stated properties C1 to C10. *)

From Stdlib Require Import ZArith List Lia Ascii String Decimal DecimalPos DecimalZ.
From Stdlib Require DecimalFacts.
From Stdlib Require Import Floats.SpecFloat.
From stdpp Require Import base option gmap strings list sorting.

Open Scope Z_scope.

(** ** Text *)

(** A Python [str]: the sequence of its code points; [len] is [length]. *)
Abbreviation pystr := (list Z).

(** The code points of an ASCII literal. *)
Definition str (s : string) : pystr :=
  (λ a, Z.of_N (N_of_ascii a)) <$> list_ascii_of_string s.

Definition chr (s : string) : Z := default 0 (head (str s)).

(** ** Exceptions *)

Inductive exn : Set :=
| OverflowError
| ValueError
| IndexError
| StopIteration
| OSError.

#[global] Instance exn_eq_dec : EqDecision exn.
Proof. solve_decision. Defined.

Inductive result (A : Type) : Type :=
| Ok (a : A)
| Raise (e : exn).
Arguments Ok {A} a.
Arguments Raise {A} e.

#[global] Instance result_ret : MRet result := λ A a, Ok a.
#[global] Instance result_bind : MBind result := λ A B k c,
  match c with
  | Ok a => k a
  | Raise e => Raise e
  end.
#[global] Instance result_fmap : FMap result := λ A B g c,
  match c with
  | Ok a => Ok (g a)
  | Raise e => Raise e
  end.

(** [o] if it is there, and the exception [e] otherwise. *)
Definition or_raise {A} (e : exn) (o : option A) : result A :=
  match o with
  | Some a => Ok a
  | None => Raise e
  end.

(** [seq[i]] on a Python sequence. *)
Definition getitem {A} (l : list A) (i : nat) : result A :=
  or_raise IndexError (l !! i).

(** A [for] loop that threads an accumulator and stops at the first
    exception. *)
Fixpoint for_each {A B} (body : B → A → result B) (acc : B) (l : list A)
  : result B :=
  match l with
  | [] => Ok acc
  | x :: l' => acc' ← body acc x; for_each body acc' l'
  end.

(** A list comprehension whose element expression may raise. *)
Fixpoint comprehension {A B} (elt : A → result B) (l : list A)
  : result (list B) :=
  match l with
  | [] => Ok []
  | x :: l' => y ← elt x; ys ← comprehension elt l'; Ok (y :: ys)
  end.

(** ** Numbers *)

(** Python's [float] is IEEE 754 binary64. *)
Abbreviation float64 := spec_float.
Abbreviation prec64 := 53 (only parsing).
Abbreviation emax64 := 1024 (only parsing).

(** The binary64 number nearest to an integer (ties to even), infinite
    when the integer is out of range. *)
Definition f64_of_Z (z : Z) : float64 := binary_normalize prec64 emax64 z 0 false.

Definition f64_div (x y : float64) : float64 := SFdiv prec64 emax64 x y.

(** Integers of this magnitude and above round to [2^1024]: converting
    them to [float] raises [OverflowError]. *)
Definition FLOAT_OVERFLOW : Z := 2 ^ 1024 - 2 ^ 970.

(** The implicit conversion of an [int] operand of a float operation. *)
Definition float_of_int (z : Z) : result float64 :=
  if Z.abs z <? FLOAT_OVERFLOW then Ok (f64_of_Z z) else Raise OverflowError.

(** ** Dates *)

Record datetime : Set := mk_datetime {
  year : Z; month : Z; day : Z;
  hour : Z; minute : Z; second : Z;
  microsecond : Z
}.

#[global] Instance datetime_eq_dec : EqDecision datetime.
Proof. solve_decision. Defined.

Definition is_leap (y : Z) : bool :=
  (y mod 4 =? 0) && (negb (y mod 100 =? 0) || (y mod 400 =? 0)).

Definition days_in_month (y m : Z) : Z :=
  if m =? 2 then (if is_leap y then 29 else 28)
  else if (m =? 4) || (m =? 6) || (m =? 9) || (m =? 11) then 30
  else 31.

(** The datetimes whose year prints with four digits. *)
Definition valid_datetime (d : datetime) : bool :=
  (1000 <=? year d) && (year d <=? 9999) &&
  (1 <=? month d) && (month d <=? 12) &&
  (1 <=? day d) && (day d <=? days_in_month (year d) (month d)) &&
  (0 <=? hour d) && (hour d <=? 23) &&
  (0 <=? minute d) && (minute d <=? 59) &&
  (0 <=? second d) && (second d <=? 59) &&
  (0 <=? microsecond d) && (microsecond d <=? 999999).

Definition digit_char (d : Z) : Z := 48 + d mod 10.

Definition pad2 (n : Z) : pystr := [digit_char (n / 10); digit_char n].
Definition pad4 (n : Z) : pystr :=
  [digit_char (n / 1000); digit_char (n / 100); digit_char (n / 10); digit_char n].

(** [d.strftime('%Y-%m-%d %H:%M:%S')] *)
Definition strftime (d : datetime) : pystr :=
  pad4 (year d) ++ str "-" ++ pad2 (month d) ++ str "-" ++ pad2 (day d) ++
  str " " ++
  pad2 (hour d) ++ str ":" ++ pad2 (minute d) ++ str ":" ++ pad2 (second d).

(** What a timestamp keeps of a datetime: whole seconds. *)
Definition whole_seconds (d : datetime) : datetime :=
  mk_datetime (year d) (month d) (day d) (hour d) (minute d) (second d) 0.

(** ** Integers as text *)

Definition uint_digit_codes : Decimal.uint → pystr :=
  fix go (u : Decimal.uint) : pystr :=
    match u with
    | Nil => []
    | D0 u' => 48 :: go u'
    | D1 u' => 49 :: go u'
    | D2 u' => 50 :: go u'
    | D3 u' => 51 :: go u'
    | D4 u' => 52 :: go u'
    | D5 u' => 53 :: go u'
    | D6 u' => 54 :: go u'
    | D7 u' => 55 :: go u'
    | D8 u' => 56 :: go u'
    | D9 u' => 57 :: go u'
    end.

(** The decimal digits of [str(z)], and [str(z)] itself. *)
Definition int_digits (z : Z) : pystr := uint_digit_codes (N.to_uint (Z.abs_N z)).
Definition int_str (z : Z) : pystr :=
  if z <? 0 then 45 :: int_digits z else int_digits z.

(** ** The interpreter and platform

    What the program takes from the Python runtime and the platform
    rather than defining itself: the Unicode decimal-digit table, the
    limit on the length of integer literals, the text form of floats,
    the parsing of timestamps, and the newline convention of text files.
    The laws are the documented contracts of these facilities. *)

Class PyRuntime := {
  (** The decimal value of a code point of category [Nd], if it is one:
      what [\d] matches and what [int] reads. *)
  uni_decimal : Z → option Z;
  uni_decimal_ascii c :
    0 ≤ c < 128 →
    uni_decimal c = if bool_decide (48 ≤ c ≤ 57) then Some (c - 48) else None;
  uni_decimal_range c d : uni_decimal c = Some d → 0 ≤ d ≤ 9;
  (** [sys.get_int_max_str_digits()]; [None] when the limit is off. *)
  int_max_str_digits : option nat;
  int_max_str_digits_floor L : int_max_str_digits = Some L → (640 ≤ L)%nat;
  (** [repr] of a float, and [float] of a string ([None]: [ValueError]). *)
  float_repr : float64 → pystr;
  float_of_str : pystr → option float64;
  float_of_repr f :
    valid_binary prec64 emax64 f = true → float_of_str (float_repr f) = Some f;
  float_of_int_str z : float_of_str (int_str z) = Some (f64_of_Z z);
  (** [datetime.strptime(_, '%Y-%m-%d %H:%M:%S')] ([None]: [ValueError]). *)
  strptime : pystr → option datetime;
  strptime_strftime d :
    valid_datetime d = true → strptime (strftime d) = Some (whole_seconds d);
  (** Whether text-mode files turn a written newline into CR LF. *)
  crlf_text_mode : bool
}.

(** ** Values *)

Inductive pyval : Type :=
| PInt (z : Z)
| PFloat (x : float64)
| PStr (s : pystr)
| PDatetime (d : datetime).

(** A Python tuple. *)
Abbreviation pytuple := (list pyval).

Section Program.
Context `{R : PyRuntime}.

(** ** [int(value)] *)

Definition is_decimal (c : Z) : bool := bool_decide (is_Some (uni_decimal c)).

(** The number a run of decimal digits denotes, most significant first. *)
Fixpoint digits_value (acc : Z) (ds : pystr) : option Z :=
  match ds with
  | [] => Some acc
  | c :: ds' => d ← uni_decimal c; digits_value (10 * acc + d) ds'
  end.

Definition over_digit_limit (n : nat) : bool :=
  match int_max_str_digits with
  | Some L => (L <? n)%nat
  | None => false
  end.

(** [int] of an optional sign and a run of digits, the only texts the
    program converts; any other text is a [ValueError] here. *)
Definition py_int (value : pystr) : result Z :=
  let '(negative, ds) :=
    match value with
    | c :: ds =>
        if c =? chr "-" then (true, ds)
        else if c =? chr "+" then (false, ds)
        else (false, value)
    | [] => (false, value)
    end in
  match ds with
  | [] => Raise ValueError
  | _ :: _ =>
      n ← or_raise ValueError (digits_value 0 ds);
      if over_digit_limit (length ds) then Raise ValueError
      else Ok (if negative then - n else n)
  end.

(** [str(z)] *)
Definition py_str_int (z : Z) : result pystr :=
  if over_digit_limit (length (int_digits z)) then Raise ValueError
  else Ok (int_str z).

(** [z / 1000.0] *)
Definition MILLI : float64 := f64_of_Z 1000.

Definition truediv_milli (z : Z) : result float64 :=
  x ← float_of_int z; Ok (f64_div x MILLI).

(** ** [re.findall(r'([A-Za-z])(-?\d+)', message)] *)

Definition is_ascii_letter (c : Z) : bool :=
  ((65 <=? c) && (c <=? 90)) || ((97 <=? c) && (c <=? 122)).

(** The longest run of decimal digits at the head of [s]: [\d*]. *)
Fixpoint digit_run (s : pystr) : pystr :=
  match s with
  | c :: s' => if is_decimal c then c :: digit_run s' else []
  | [] => []
  end.

(** [(-?\d+)] at the head of [s]: the sign is taken when digits follow
    it, and given back when they do not. *)
Definition signed_digits (s : pystr) : option pystr :=
  let unsigned :=
    match digit_run s with
    | [] => None
    | ds => Some ds
    end in
  match s with
  | c :: s' =>
      if c =? chr "-" then
        match digit_run s' with
        | [] => unsigned
        | ds => Some (c :: ds)
        end
      else unsigned
  | [] => unsigned
  end.

(** The two groups of a match of the pattern at the head of [s]. *)
Definition match_at (s : pystr) : option (Z * pystr) :=
  match s with
  | c :: s' =>
      if is_ascii_letter c then v ← signed_digits s'; Some (c, v) else None
  | [] => None
  end.

(** The scan: at each position not inside the previous match, try the
    pattern; after a match at [pos], resume after its value. *)
Fixpoint scan (pos skip : nat) (s : pystr) : list (nat * (Z * pystr)) :=
  match s with
  | [] => []
  | _ :: s' =>
      match skip with
      | S skip' => scan (S pos) skip' s'
      | O =>
          match match_at s with
          | Some (k, v) => (pos, (k, v)) :: scan (S pos) (length v) s'
          | None => scan (S pos) 0 s'
          end
      end
  end.

(** The matches with their start offsets, and the group tuples alone. *)
Definition finditer (message : pystr) : list (nat * (Z * pystr)) :=
  scan 0 0 message.

Definition findall (message : pystr) : list (Z * pystr) :=
  snd <$> finditer message.

(** ** [parse_message] *)

Definition field_map : gmap Z string :=
  <[chr "V" := "battery_voltage"%string]> (
  <[chr "s" := "solar_voltage"%string]> (
  <[chr "S" := "sensor_id"%string]> (
  <[chr "C" := "msg_count"%string]> (
  <[chr "U" := "ultrasonic_range"%string]> (
  <[chr "r" := "rssi"%string]> (
  <[chr "n" := "signal_to_noise_ratio"%string]> ∅)))))).

(** The value a recognised token stores. *)
Definition field_value (key : Z) (value : pystr) : result pyval :=
  if bool_decide (key = chr "V") || bool_decide (key = chr "s")
  then n ← py_int value; x ← truediv_milli n; Ok (PFloat x)
  else n ← py_int value; Ok (PInt n).

(** The body of the loop over the matches. *)
Definition store_match (data : gmap string pyval) (m : Z * pystr)
  : result (gmap string pyval) :=
  let '(key, value) := m in
  match field_map !! key with
  | Some name => x ← field_value key value; Ok (<[name := x]> data)
  | None => Ok data
  end.

Definition parse_message (message : pystr) : result (gmap string pyval) :=
  let data := ∅ in
  let matches := findall message in
  for_each store_match data matches.

End Program.

(** ** The file system

    Files hold the records the [csv] module frames: a file is the list of
    its rows, a row the list of its cells. The last row of a file may
    lack the newline that ends a row; what is written next continues
    that row. Opening and writing can fail, and a write that fails for
    want of room may leave the beginning of its row in the file. *)

Abbreviation csvrow := (list pystr).

Record filesystem := mk_fs {
  files : gmap string (list csvrow);
  read_denied : bool;
  write_denied : bool;
  (** how many more rows the device takes *)
  free_rows : nat;
  (** the files whose last row has no newline after it *)
  unterminated : gset string;
  (** the cells of a row that reach the file when the device has no room
      for the row; none of them when this is empty *)
  cut : csvrow → csvrow
}.

(** Code that reads and changes the file system and may raise. *)
Definition io (A : Type) : Type := filesystem → result A * filesystem.

#[global] Instance io_ret : MRet io := λ A a fs, (Ok a, fs).
#[global] Instance io_bind : MBind io := λ A B k c fs,
  match c fs with
  | (Ok a, fs') => k a fs'
  | (Raise e, fs') => (Raise e, fs')
  end.

Definition lift {A} (c : result A) : io A := λ fs, (c, fs).

(** [try: body / except Exception as e: handler] *)
Definition try_except {A} (body : io A) (handler : exn → io A) : io A :=
  λ fs,
    match body fs with
    | (Ok a, fs') => (Ok a, fs')
    | (Raise e, fs') => handler e fs'
    end.

Fixpoint io_for_each {A} (body : A → io unit) (l : list A) : io unit :=
  match l with
  | [] => mret tt
  | x :: l' => body x;; io_for_each body l'
  end.

Definition os_path_exists (path : string) : io bool :=
  λ fs, (Ok (bool_decide (is_Some (files fs !! path))), fs).

Definition os_path_isfile (path : string) : io bool := os_path_exists path.

Definition os_remove (path : string) : io unit :=
  λ fs,
    if write_denied fs then (Raise OSError, fs)
    else match files fs !! path with
         | Some _ =>
             (Ok tt, mk_fs (delete path (files fs)) (read_denied fs)
                           (write_denied fs) (free_rows fs)
                           (unterminated fs ∖ {[path]}) (cut fs))
         | None => (Raise OSError, fs)
         end.

(** [csv.reader(open(path, 'r'))]: the rows of the file. *)
Definition open_reader (path : string) : io (list csvrow) :=
  λ fs,
    if read_denied fs then (Raise OSError, fs)
    else (or_raise OSError (files fs !! path), fs).

(** [open(path, 'a')]: the file is created when absent. *)
Definition open_append (path : string) : io unit :=
  λ fs,
    if write_denied fs then (Raise OSError, fs)
    else (Ok tt, mk_fs (<[path := default [] (files fs !! path)]> (files fs))
                       (read_denied fs) (write_denied fs) (free_rows fs)
                       (unterminated fs) (cut fs)).

(** The last row of the file, when no newline follows it. *)
Definition open_row (path : string) (fs : filesystem) : option csvrow :=
  if bool_decide (path ∈ unterminated fs)
  then rows ← files fs !! path; last rows
  else None.

(** Cells written behind a row without newline continue that row: the
    first of them is glued onto its last cell. *)
Definition join_rows (last_row cells : csvrow) : csvrow :=
  match cells with
  | [] => last_row
  | c :: cells' =>
      removelast last_row ++ (default [] (last last_row) ++ c) :: cells'
  end.

(** The rows of the file once [rows] are written at its end. *)
Definition rows_after (path : string) (fs : filesystem) (rows : list csvrow)
  : list csvrow :=
  let current := default [] (files fs !! path) in
  match open_row path fs, rows with
  | Some t, r :: rows' => removelast current ++ join_rows t r :: rows'
  | _, _ => current ++ rows
  end.

(** [next(reader)] *)
Definition next {A} (reader : list A) : result (A * list A) :=
  match reader with
  | x :: rest => Ok (x, rest)
  | [] => Raise StopIteration
  end.

Section Storage.
Context `{R : PyRuntime}.

(** [str(d)] of a datetime. *)
Definition datetime_str (d : datetime) : pystr :=
  if microsecond d =? 0 then strftime d
  else strftime d ++ str "." ++
       pad2 (microsecond d / 10000) ++ pad2 (microsecond d / 100) ++
       pad2 (microsecond d).

(** The text the writer puts in a cell. *)
Definition csv_field (v : pyval) : result pystr :=
  match v with
  | PStr s => Ok s
  | PInt z => py_str_int z
  | PFloat x => Ok (float_repr x)
  | PDatetime d => Ok (datetime_str d)
  end.

(** What a later reader sees of one written row: where text mode turns
    newlines into CR LF, the row terminator of the writer comes back as
    an extra empty row. *)
Definition rows_written (cells : csvrow) : list csvrow :=
  if crlf_text_mode then [cells; []] else [cells].

(** The row is written at the end of the file with its newline, if the
    device has room for it; if not, the write fails and leaves in the
    file what the device took of the row, without a newline. *)
Definition append_row (path : string) (cells : csvrow) : io unit :=
  λ fs,
    match free_rows fs with
    | O =>
        (Raise OSError,
         match cut fs cells with
         | [] => fs
         | c :: part =>
             mk_fs (<[path := rows_after path fs [c :: part]]> (files fs))
                   (read_denied fs) (write_denied fs) O
                   ({[path]} ∪ unterminated fs) (cut fs)
         end)
    | S n =>
        (Ok tt, mk_fs (<[path := rows_after path fs (rows_written cells)]> (files fs))
                      (read_denied fs) (write_denied fs) n
                      (unterminated fs ∖ {[path]}) (cut fs))
    end.

(** [writer.writerow(row)] on the file opened for appending. *)
Definition writerow (path : string) (row : pytuple) : io unit :=
  cells ← lift (comprehension csv_field row);
  append_row path cells.

Definition HEADER : pytuple :=
  [PStr (str "Timestamp"); PStr (str "Battery Voltage (V)");
   PStr (str "Solar Voltage (V)"); PStr (str "Ultrasonic Range");
   PStr (str "RSSI")].

Definition py_strptime (s : pystr) : result datetime :=
  or_raise ValueError (strptime s).

Definition py_float (s : pystr) : result float64 :=
  or_raise ValueError (float_of_str s).

(** The element of the comprehension of [read_data_from_file]. *)
Definition decode_row (row : csvrow) : result pytuple :=
  c0 ← getitem row 0; t ← py_strptime c0;
  c1 ← getitem row 1; x1 ← py_float c1;
  c2 ← getitem row 2; x2 ← py_float c2;
  c3 ← getitem row 3; x3 ← py_float c3;
  c4 ← getitem row 4; x4 ← py_float c4;
  Ok [PDatetime t; PFloat x1; PFloat x2; PFloat x3; PFloat x4].

Definition read_data_from_file (file_path : string) : io (list pytuple) :=
  try_except
    (present ← os_path_exists file_path;
     if present : bool then
       reader ← open_reader file_path;
       '(_, rows) ← lift (next reader);
       lift (comprehension decode_row rows)
     else mret [])
    (λ e, mret []).

Definition write_data_to_file (file_path : string) (data : list pytuple)
  : io unit :=
  try_except
    (file_exists ← os_path_isfile file_path;
     open_append file_path;;
     (if file_exists : bool then mret tt else writerow file_path HEADER);;
     io_for_each (writerow file_path) data)
    (λ e, mret tt).

End Storage.

(** ** The reader thread and the window *)

Definition data_file : string := "tide_sensor_data.csv".

Inductive signal : Type :=
| message_received (text : pystr)
| data_updated (data : list pytuple).

Module SerialReaderThread.
Section Run.
Context `{R : PyRuntime}.

(** The condition of the [continue]: the tests are tried in order and
    stop at the first that holds. *)
Definition skip_frame (decoded_line : pystr) : result bool :=
  if (length decoded_line <? 10)%nat then Ok true
  else
    c ← getitem decoded_line 0;
    if negb (c =? chr "S") then Ok true
    else Ok (40 <? length decoded_line)%nat.

(** [parsed_data], for the frames that reach the call of
    [parse_message]. *)
Definition parsed_fields (decoded_line : pystr)
  : result (option (gmap string pyval)) :=
  skip ← skip_frame decoded_line;
  if skip : bool then Ok None
  else parsed_data ← parse_message decoded_line; Ok (Some parsed_data).

(** One turn of the loop on a line that was read: [t_recv] and
    [t_accept] are the two readings of the clock. The result is the list
    [data] and the signals emitted. *)
Definition iteration (t_recv t_accept : datetime) (decoded_line : pystr)
    (data : list pytuple) : io (list pytuple * list signal) :=
  let received := message_received (strftime t_recv ++ str " :: " ++ decoded_line) in
  fields ← lift (parsed_fields decoded_line);
  match fields with
  | None => mret (data, [received])
  | Some parsed_data =>
      let battery := parsed_data !! "battery_voltage"%string in
      let solar := parsed_data !! "solar_voltage"%string in
      let ultrasonic := parsed_data !! "ultrasonic_range"%string in
      let rssi := parsed_data !! "rssi"%string in
      match battery, solar, ultrasonic, rssi with
      | Some b, Some s, Some u, Some r =>
          let timestamp := t_accept in
          let data := data ++ [[PDatetime timestamp; b; s; u; r]] in
          write_data_to_file data_file [[PStr (strftime timestamp); b; s; u; r]];;
          mret (data, [received; data_updated data])
      | _, _, _, _ => mret (data, [received])
      end
  end.

(** The loop over the lines read until the thread is stopped. The serial
    port is outside the model: the loop is given the decoded and stripped
    lines, each with the two clock readings of its turn. *)
Fixpoint loop (lines : list (datetime * datetime * pystr)) (data : list pytuple)
  : io (list pytuple * list signal) :=
  match lines with
  | [] => mret (data, [])
  | (t_recv, t_accept, decoded_line) :: lines' =>
      '(data', emitted) ← iteration t_recv t_accept decoded_line data;
      '(data'', emitted') ← loop lines' data';
      mret (data'', emitted ++ emitted')
  end.

Definition run (lines : list (datetime * datetime * pystr))
  : io (list pytuple * list signal) :=
  data ← read_data_from_file data_file;
  loop lines data.

End Run.

(** The thread object: the attributes [__init__] sets, and what Qt knows
    of the thread, whether it was started and whether its [run] has
    ended. *)
Record thread := mk_thread {
  serial_port : pystr;
  baudrate : Z;
  running : bool;
  started : bool;
  finished : bool
}.

Definition __init__ (serial_port : pystr) : thread :=
  mk_thread serial_port 115200 true false false.

(** [QThread.start]: [run] begins in a thread of its own. *)
Definition start (t : thread) : thread :=
  mk_thread (serial_port t) (baudrate t) (running t) true (finished t).

(** [QThread.wait] returns once [run] has ended. *)
Definition wait (t : thread) : thread :=
  mk_thread (serial_port t) (baudrate t) (running t) (started t) true.

(** [QThread.isRunning] *)
Definition isRunning (t : thread) : bool := started t && negb (finished t).

Definition stop (t : thread) : thread :=
  let t := mk_thread (serial_port t) (baudrate t) false (started t) (finished t) in
  wait t.

End SerialReaderThread.

Module MainWindow.

(** [seq[-n:]] *)
Definition slice_last {A} (n : nat) (l : list A) : list A :=
  match n with
  | O => l
  | S _ => drop (length l - n) l
  end.

(** The bound of the slice [self.data[-20000:]]. *)
Definition PLOT_POINTS : nat := Z.to_nat 20000.

(** The rows [update_plot] draws from [self.data], if it draws. *)
Definition update_plot (data : list pytuple) : option (list pytuple) :=
  match data with
  | [] => None
  | _ :: _ => Some (slice_last PLOT_POINTS data)
  end.

Definition delete_data : io unit :=
  present ← os_path_exists data_file;
  if present : bool then os_remove data_file else mret tt.

(** The controls of the window: the thread it refers to, the items and
    the current index of the port selection, and whether the two buttons
    are enabled. The thread objects the window referred to before are
    kept in [dropped], for what they may still do. *)
Record window := mk_window {
  serial_reader_thread : option SerialReaderThread.thread;
  dropped : list SerialReaderThread.thread;
  port_items : list pystr;
  port_index : nat;
  start_button : bool;
  stop_button : bool
}.

(** [self.port_combo.currentText()] *)
Definition currentText (w : window) : pystr :=
  default [] (port_items w !! port_index w).

Definition start_reading (w : window) : window :=
  let serial_port := currentText w in
  let t := SerialReaderThread.__init__ serial_port in
  let t := SerialReaderThread.start t in
  mk_window (Some t)
            (match serial_reader_thread w with
             | Some old => old :: dropped w
             | None => dropped w
             end)
            (port_items w) (port_index w) false true.

Definition stop_reading (w : window) : window :=
  mk_window (SerialReaderThread.stop <$> serial_reader_thread w)
            (dropped w) (port_items w) (port_index w) true false.

(** The controls after [__init__], [ports] being what
    [get_serial_ports] returned. *)
Definition __init__ (ports : list pystr) : window :=
  start_reading (mk_window None [] ports 0 false true).

(** What happens to a window that is shown: a click on a button, the
    choice of a port, and the end of [run] from within (an exception of
    the serial port). *)
Inductive event : Type :=
| clicked_start
| clicked_stop
| activated (index : nat)
| run_ended.

(** The window after the event; a disabled button gives no click. *)
Definition handle (w : window) (e : event) : option window :=
  match e with
  | clicked_start => if start_button w then Some (start_reading w) else None
  | clicked_stop => if stop_button w then Some (stop_reading w) else None
  | activated index =>
      if (index <? length (port_items w))%nat
      then Some (mk_window (serial_reader_thread w) (dropped w) (port_items w)
                           index (start_button w) (stop_button w))
      else None
  | run_ended =>
      Some (mk_window (SerialReaderThread.wait <$> serial_reader_thread w)
                      (dropped w) (port_items w) (port_index w)
                      (start_button w) (stop_button w))
  end.

Fixpoint play (w : window) (events : list event) : option window :=
  match events with
  | [] => Some w
  | e :: events' => w' ← handle w e; play w' events'
  end.

End MainWindow.

(** ** A runtime to run the program on

    An instance of [PyRuntime]: the ASCII, Arabic-Indic and fullwidth
    digits; the default limit of 4300 digits; floats printed losslessly as
    a decimal mantissa, the letter [p] and a binary exponent; timestamps
    read in their zero-padded form; files without newline translation. *)

Module ModelRuntime.

Definition decimal (c : Z) : option Z :=
  if (48 <=? c) && (c <=? 57) then Some (c - 48)
  else if (1632 <=? c) && (c <=? 1641) then Some (c - 1632)
  else if (65296 <=? c) && (c <=? 65305) then Some (c - 65296)
  else None.

(** The ASCII digits at the head of a text, and what follows them. *)
Fixpoint read_uint (s : pystr) : Decimal.uint * pystr :=
  match s with
  | [] => (Nil, [])
  | c :: s' =>
      let '(u, rest) := read_uint s' in
      if c =? 48 then (D0 u, rest) else
      if c =? 49 then (D1 u, rest) else
      if c =? 50 then (D2 u, rest) else
      if c =? 51 then (D3 u, rest) else
      if c =? 52 then (D4 u, rest) else
      if c =? 53 then (D5 u, rest) else
      if c =? 54 then (D6 u, rest) else
      if c =? 55 then (D7 u, rest) else
      if c =? 56 then (D8 u, rest) else
      if c =? 57 then (D9 u, rest) else (Nil, c :: s')
  end.

Definition read_nat (s : pystr) : option (N * pystr) :=
  match read_uint s with
  | (Nil, _) => None
  | (u, rest) => Some (N.of_uint u, rest)
  end.

Definition read_int (s : pystr) : option (Z * pystr) :=
  match s with
  | [] => None
  | c :: s' =>
      if c =? 45 then '(n, rest) ← read_nat s'; Some (- Z.of_N n, rest)
      else '(n, rest) ← read_nat s; Some (Z.of_N n, rest)
  end.

Definition sign_text (s : bool) : pystr := if s then [45] else [].

Definition repr (x : float64) : pystr :=
  match x with
  | S754_zero s => sign_text s ++ str "0.0"
  | S754_infinity s => sign_text s ++ str "inf"
  | S754_nan => str "nan"
  | S754_finite s m e =>
      sign_text s ++ uint_digit_codes (Pos.to_uint m) ++ str "p" ++ int_str e
  end.

Definition unsigned_float (negative : bool) (s : pystr) : option float64 :=
  match read_nat s with
  | Some (n, []) => Some (f64_of_Z (if negative then - Z.of_N n else Z.of_N n))
  | Some (Npos m, c :: rest) =>
      if c =? 112 then
        match read_int rest with
        | Some (e, []) => Some (S754_finite negative m e)
        | _ => None
        end
      else if bool_decide (s = str "0.0") then Some (S754_zero negative)
      else None
  | Some (N0, _ :: _) =>
      if bool_decide (s = str "0.0") then Some (S754_zero negative) else None
  | None =>
      if bool_decide (s = str "inf") then Some (S754_infinity negative)
      else if bool_decide (s = str "nan") && negb negative then Some S754_nan
      else None
  end.

Definition float (s : pystr) : option float64 :=
  match s with
  | [] => None
  | c :: s' => if c =? 45 then unsigned_float true s' else unsigned_float false s
  end.

Definition digit_of (c : Z) : option Z :=
  if (48 <=? c) && (c <=? 57) then Some (c - 48) else None.

Definition read2 (a b : Z) : option Z :=
  x ← digit_of a; y ← digit_of b; Some (10 * x + y).

Definition parse_time (s : pystr) : option datetime :=
  match s with
  | [y1; y2; y3; y4; h1; mo1; mo2; h2; d1; d2; sp; hh1; hh2; c1; mi1; mi2; c2; s1; s2] =>
      if (h1 =? 45) && (h2 =? 45) && (sp =? 32) && (c1 =? 58) && (c2 =? 58) then
        yh ← read2 y1 y2; yl ← read2 y3 y4;
        mo ← read2 mo1 mo2; d ← read2 d1 d2;
        hh ← read2 hh1 hh2; mi ← read2 mi1 mi2; ss ← read2 s1 s2;
        let t := mk_datetime (100 * yh + yl) mo d hh mi ss 0 in
        if valid_datetime t then Some t else None
      else None
  | _ => None
  end.

End ModelRuntime.

(** ** The model runtime keeps the laws *)

Module ModelRuntimeLaws.
Import ModelRuntime.

Definition no_digit_ahead (s : pystr) : Prop :=
  match s with
  | [] => True
  | c :: _ => ¬ (48 ≤ c ≤ 57)
  end.

Lemma read_uint_no_digit s : no_digit_ahead s → read_uint s = (Nil, s).
Proof.
  destruct s as [|c s]; [reflexivity|]. simpl. intros Hc.
  destruct (read_uint s) as [u rest].
  repeat match goal with
         | |- context [?a =? ?b] =>
             destruct (Z.eqb_spec a b); [exfalso; lia|]
         end.
  reflexivity.
Qed.

Lemma read_uint_codes u rest :
  no_digit_ahead rest → read_uint (uint_digit_codes u ++ rest) = (u, rest).
Proof.
  intros Hrest.
  induction u as [|u IH|u IH|u IH|u IH|u IH|u IH|u IH|u IH|u IH|u IH];
    [apply read_uint_no_digit, Hrest|..];
    cbn [uint_digit_codes app read_uint]; rewrite IH; reflexivity.
Qed.

Lemma read_nat_digits n rest :
  no_digit_ahead rest →
  read_nat (uint_digit_codes (N.to_uint n) ++ rest) = Some (n, rest).
Proof.
  intros Hrest. unfold read_nat. rewrite read_uint_codes by assumption.
  rewrite DecimalN.Unsigned.of_to.
  destruct n as [|p]; [reflexivity|].
  pose proof (DecimalPos.Unsigned.to_uint_nonnil p) as Hnil.
  cbn [N.to_uint] in *. destruct (Pos.to_uint p); congruence.
Qed.

Lemma digit_codes_head u :
  match uint_digit_codes u with
  | [] => u = Nil
  | c :: _ => 48 ≤ c ≤ 57
  end.
Proof. destruct u; cbn; (reflexivity || lia). Qed.

Lemma int_digits_head z : ∃ c s, int_digits z = c :: s ∧ 48 ≤ c ≤ 57.
Proof.
  unfold int_digits. pose proof (digit_codes_head (N.to_uint (Z.abs_N z))) as H.
  destruct (uint_digit_codes _) as [|c s] eqn:E; [|eauto].
  exfalso. destruct (Z.abs_N z) as [|p]; [discriminate H|].
  exact (DecimalPos.Unsigned.to_uint_nonnil p H).
Qed.

Lemma read_int_str z rest :
  no_digit_ahead rest → read_int (int_str z ++ rest) = Some (z, rest).
Proof.
  intros Hrest. unfold int_str.
  destruct (Z.ltb_spec z 0) as [Hneg|Hpos].
  - cbn [app read_int]. change (45 =? 45) with true. cbn match.
    unfold int_digits. rewrite read_nat_digits by assumption.
    cbn. f_equal. f_equal. lia.
  - destruct (int_digits_head z) as (c & s & E & Hc).
    unfold read_int. rewrite E. cbn [app].
    destruct (Z.eqb_spec c 45); [lia|].
    change (c :: s ++ rest) with ((c :: s) ++ rest). rewrite <- E.
    unfold int_digits. rewrite read_nat_digits by assumption.
    cbn. f_equal. f_equal. lia.
Qed.

Lemma decimal_ascii c :
  0 ≤ c < 128 →
  decimal c = if bool_decide (48 ≤ c ≤ 57) then Some (c - 48) else None.
Proof.
  intros Hc. unfold decimal. case_bool_decide.
  - replace ((48 <=? c) && (c <=? 57)) with true by lia. reflexivity.
  - replace ((48 <=? c) && (c <=? 57)) with false by lia.
    replace ((1632 <=? c) && (c <=? 1641)) with false by lia.
    replace ((65296 <=? c) && (c <=? 65305)) with false by lia. reflexivity.
Qed.

Lemma decimal_range c d : decimal c = Some d → 0 ≤ d ≤ 9.
Proof.
  unfold decimal.
  repeat match goal with
         | |- context [?a && ?b] => destruct (andb_spec a b) || destruct (a && b) eqn:?
         end; intros; simplify_eq; lia.
Qed.

Lemma float_int_str z : float (int_str z) = Some (f64_of_Z z).
Proof.
  unfold float, int_str.
  destruct (Z.ltb_spec z 0) as [Hneg|Hpos].
  - change (45 =? 45) with true. cbn match. unfold unsigned_float, int_digits.
    rewrite <- (app_nil_r (uint_digit_codes _)).
    rewrite read_nat_digits by exact I.
    replace (- Z.of_N (Z.abs_N z)) with z by lia.
    destruct (Z.abs_N z); reflexivity.
  - destruct (int_digits_head z) as (c & s & E & Hc). rewrite E.
    destruct (Z.eqb_spec c 45); [lia|]. rewrite <- E.
    unfold unsigned_float, int_digits.
    rewrite <- (app_nil_r (uint_digit_codes _)).
    rewrite read_nat_digits by exact I.
    replace (Z.of_N (Z.abs_N z)) with z by lia.
    destruct (Z.abs_N z); reflexivity.
Qed.

Lemma unsigned_float_finite s m e :
  unsigned_float s (uint_digit_codes (Pos.to_uint m) ++ str "p" ++ int_str e)
  = Some (S754_finite s m e).
Proof.
  unfold unsigned_float.
  change (Pos.to_uint m) with (N.to_uint (Npos m)).
  rewrite read_nat_digits by (cbn; lia).
  cbn [str fmap list_fmap list_ascii_of_string app].
  change (Z.of_N (N_of_ascii "p") =? 112) with true. cbn match.
  rewrite <- (app_nil_r (int_str e)), read_int_str by exact I. reflexivity.
Qed.

Lemma float_reads_repr x : float (repr x) = Some x.
Proof.
  destruct x as [[]|[]| |s m e]; try reflexivity.
  unfold repr. destruct s; cbn [sign_text app].
  - unfold float. change (45 =? 45) with true. cbn match.
    apply unsigned_float_finite.
  - pose proof (digit_codes_head (Pos.to_uint m)) as H.
    unfold float.
    destruct (uint_digit_codes (Pos.to_uint m)) as [|c t] eqn:E.
    + exfalso. exact (DecimalPos.Unsigned.to_uint_nonnil m H).
    + cbn [app]. destruct (Z.eqb_spec c 45); [lia|].
      change (c :: t ++ ?r) with ((c :: t) ++ r). rewrite <- E.
      apply unsigned_float_finite.
Qed.

Lemma read2_pad2 n : 0 ≤ n ≤ 99 →
  read2 (digit_char (n / 10)) (digit_char n) = Some n.
Proof.
  intros Hn. unfold read2, digit_of, digit_char.
  pose proof (Z.mod_pos_bound (n / 10) 10 ltac:(lia)).
  pose proof (Z.mod_pos_bound n 10 ltac:(lia)).
  replace ((48 <=? 48 + (n / 10) mod 10) && (48 + (n / 10) mod 10 <=? 57))
    with true by lia.
  replace ((48 <=? 48 + n mod 10) && (48 + n mod 10 <=? 57)) with true by lia.
  cbn. f_equal.
  rewrite (Z.mod_small (n / 10) 10)
    by (split; [apply Z.div_pos; lia|apply Z.div_lt_upper_bound; lia]).
  pose proof (Z.div_mod n 10 ltac:(lia)). lia.
Qed.

Lemma read2_pad4_high n : 0 ≤ n ≤ 9999 →
  read2 (digit_char (n / 1000)) (digit_char (n / 100)) = Some (n / 100).
Proof.
  intros Hn. replace (n / 1000) with (n / 100 / 10)
    by (rewrite Z.div_div by lia; reflexivity).
  apply read2_pad2. split; [apply Z.div_pos; lia|].
  apply Z.lt_succ_r, Z.div_lt_upper_bound; lia.
Qed.

Lemma read2_pad4_low n : 0 ≤ n ≤ 9999 →
  read2 (digit_char (n / 10)) (digit_char n) = Some (n mod 100).
Proof.
  intros Hn. unfold read2, digit_of, digit_char.
  pose proof (Z.mod_pos_bound (n / 10) 10 ltac:(lia)).
  pose proof (Z.mod_pos_bound n 10 ltac:(lia)).
  replace ((48 <=? 48 + (n / 10) mod 10) && (48 + (n / 10) mod 10 <=? 57))
    with true by lia.
  replace ((48 <=? 48 + n mod 10) && (48 + n mod 10 <=? 57)) with true by lia.
  cbn. f_equal.
  pose proof (Z.div_mod n 10 ltac:(lia)).
  pose proof (Z.div_mod (n / 10) 10 ltac:(lia)).
  pose proof (Z.div_mod n 100 ltac:(lia)).
  pose proof (Z.mod_pos_bound n 100 ltac:(lia)).
  assert (n / 10 / 10 = n / 100) by (rewrite Z.div_div by lia; reflexivity).
  lia.
Qed.

Lemma valid_whole_seconds d :
  valid_datetime d = true → valid_datetime (whole_seconds d) = true.
Proof.
  unfold valid_datetime, whole_seconds. cbn [year month day hour minute second microsecond].
  rewrite !andb_true_iff. intuition.
Qed.

Lemma parse_time_strftime d :
  valid_datetime d = true → parse_time (strftime d) = Some (whole_seconds d).
Proof.
  intros Hv. pose proof (valid_whole_seconds d Hv) as Hw.
  unfold valid_datetime in Hv. rewrite !andb_true_iff in Hv.
  destruct d as [y mo dd hh mi ss us]. cbn [year month day hour minute second microsecond] in *.
  assert (dd ≤ 31) by (unfold days_in_month in Hv;
    repeat match goal with H : context [if ?b then _ else _] |- _ => destruct b end; lia).
  unfold strftime, pad4, pad2. cbn [year month day hour minute second microsecond].
  cbn [str fmap list_fmap list_ascii_of_string app parse_time].
  change (Z.of_N (N_of_ascii "-") =? 45) with true.
  change (Z.of_N (N_of_ascii " ") =? 32) with true.
  change (Z.of_N (N_of_ascii ":") =? 58) with true.
  cbn [andb].
  rewrite (read2_pad4_high y), (read2_pad4_low y) by lia.
  rewrite (read2_pad2 mo), (read2_pad2 dd), (read2_pad2 hh), (read2_pad2 mi),
    (read2_pad2 ss) by lia.
  cbn [mbind option_bind].
  replace (100 * (y / 100) + y mod 100) with y
    by (pose proof (Z.div_mod y 100 ltac:(lia)); lia).
  unfold whole_seconds in Hw. cbn [year month day hour minute second microsecond] in Hw.
  rewrite Hw. reflexivity.
Qed.

End ModelRuntimeLaws.

#[export] Instance model_runtime : PyRuntime := {|
  uni_decimal := ModelRuntime.decimal;
  uni_decimal_ascii := ModelRuntimeLaws.decimal_ascii;
  uni_decimal_range := ModelRuntimeLaws.decimal_range;
  int_max_str_digits := Some 4300%nat;
  int_max_str_digits_floor := λ L H, ltac:(injection H as <-; lia);
  float_repr := ModelRuntime.repr;
  float_of_str := ModelRuntime.float;
  float_of_repr := λ x _, ModelRuntimeLaws.float_reads_repr x;
  float_of_int_str := ModelRuntimeLaws.float_int_str;
  strptime := ModelRuntime.parse_time;
  strptime_strftime := ModelRuntimeLaws.parse_time_strftime;
  crlf_text_mode := false
|}.

(** The same runtime on a platform whose text mode writes CR LF. *)
Definition crlf_runtime : PyRuntime := {|
  uni_decimal := ModelRuntime.decimal;
  uni_decimal_ascii := ModelRuntimeLaws.decimal_ascii;
  uni_decimal_range := ModelRuntimeLaws.decimal_range;
  int_max_str_digits := Some 4300%nat;
  int_max_str_digits_floor := λ L H, ltac:(injection H as <-; lia);
  float_repr := ModelRuntime.repr;
  float_of_str := ModelRuntime.float;
  float_of_repr := λ x _, ModelRuntimeLaws.float_reads_repr x;
  float_of_int_str := ModelRuntimeLaws.float_int_str;
  strptime := ModelRuntime.parse_time;
  strptime_strftime := ModelRuntimeLaws.parse_time_strftime;
  crlf_text_mode := true
|}.

(** * The vocabulary of the properties *)

(** A token as long as this still converts. *)
Definition SAFE_DIGITS : nat := 308.

(** The matches that store under [name], and the last of them. *)
Definition matches_for (name : string) (ms : list (Z * pystr)) : list (Z * pystr) :=
  filter (λ m, field_map !! m.1 = Some name) ms.

Definition last_match (name : string) (ms : list (Z * pystr)) : option (Z * pystr) :=
  last (matches_for name ms).

(** The matches whose letter is in [field_map]. *)
Definition recognised (ms : list (Z * pystr)) : list (Z * pystr) :=
  filter (λ m, is_Some (field_map !! m.1)) ms.

(** A measurement as the reader thread holds it, with typed fields. *)
Record measurement := mk_measurement {
  m_time : datetime;
  m_battery : float64;
  m_solar : float64;
  m_range : Z;
  m_rssi : Z
}.

(** The tuple appended to [data]. *)
Definition in_memory (m : measurement) : pytuple :=
  [PDatetime (m_time m); PFloat (m_battery m); PFloat (m_solar m);
   PInt (m_range m); PInt (m_rssi m)].

(** The row handed to [write_data_to_file]. *)
Definition file_row (m : measurement) : pytuple :=
  [PStr (strftime (m_time m)); PFloat (m_battery m); PFloat (m_solar m);
   PInt (m_range m); PInt (m_rssi m)].

(** The tuple [read_data_from_file] makes of that row. *)
Definition reloaded (m : measurement) : pytuple :=
  [PDatetime (whole_seconds (m_time m)); PFloat (m_battery m); PFloat (m_solar m);
   PFloat (f64_of_Z (m_range m)); PFloat (f64_of_Z (m_rssi m))].

(** Measurements with a four-digit year, binary64 voltages and integers
    short enough to print. *)
Definition wf_measurement (m : measurement) : Prop :=
  valid_datetime (m_time m) = true ∧
  valid_binary prec64 emax64 (m_battery m) = true ∧
  valid_binary prec64 emax64 (m_solar m) = true ∧
  (length (int_digits (m_range m)) ≤ 640)%nat ∧
  (length (int_digits (m_rssi m)) ≤ 640)%nat.

(** Measurements whose integers are short enough to print. *)
Definition printable (m : measurement) : Prop :=
  (length (int_digits (m_range m)) ≤ 640)%nat ∧
  (length (int_digits (m_rssi m)) ≤ 640)%nat.

(** The frames the pre-filter turns away. *)
Definition filtered_out (decoded_line : pystr) : Prop :=
  (length decoded_line < 10)%nat ∨ (40 < length decoded_line)%nat ∨
  decoded_line !! 0%nat ≠ Some (chr "S").

#[global] Instance filtered_out_dec line : Decision (filtered_out line).
Proof. unfold filtered_out. apply _. Defined.

(** All four required fields are in the mapping. *)
Definition has_required (d : gmap string pyval) : Prop :=
  is_Some (d !! "battery_voltage"%string) ∧ is_Some (d !! "solar_voltage"%string) ∧
  is_Some (d !! "ultrasonic_range"%string) ∧ is_Some (d !! "rssi"%string).

#[global] Instance has_required_dec d : Decision (has_required d).
Proof. unfold has_required. apply _. Defined.

(** The parsed fields exist and hold all four required fields. *)
Definition complete (fields : option (gmap string pyval)) : Prop :=
  ∃ d, fields = Some d ∧ has_required d.

#[global] Instance complete_dec fields : Decision (complete fields).
Proof.
  destruct fields as [d|].
  - destruct (decide (has_required d)) as [H|H].
    + left. exists d. split; [reflexivity|exact H].
    + right. intros (d' & [= <-] & H'). exact (H H').
  - right. intros (d & [=] & _).
Defined.

(** The signal every line gives. *)
Definition received (t_recv : datetime) (decoded_line : pystr) : signal :=
  message_received (strftime t_recv ++ str " :: " ++ decoded_line).

(** The four required fields of a mapping. *)
Definition required_fields (d : gmap string pyval)
  : option pyval * option pyval * option pyval * option pyval :=
  (d !! "battery_voltage"%string, d !! "solar_voltage"%string,
   d !! "ultrasonic_range"%string, d !! "rssi"%string).

(** The rows of the file that are ended by their newline: all of them,
    or all but the last when no newline follows it. *)
Definition settled (path : string) (fs : filesystem) : list csvrow :=
  match open_row path fs with
  | Some _ => removelast (default [] (files fs !! path))
  | None => default [] (files fs !! path)
  end.

(** The only change from [fs] to [fs'] is that the file at [path] was
    created or grew at its end, and that the device took rows: the other
    files are as before, the file is still there if it was, the rows
    that were ended by their newline are still the first rows of the
    file, and the permissions and the device are as before. *)
Definition only_appends (path : string) (fs fs' : filesystem) : Prop :=
  (∀ p, p ≠ path →
     files fs' !! p = files fs !! p ∧ (p ∈ unterminated fs' ↔ p ∈ unterminated fs)) ∧
  (is_Some (files fs !! path) → is_Some (files fs' !! path)) ∧
  (∃ extra, settled path fs' = settled path fs ++ extra) ∧
  read_denied fs' = read_denied fs ∧ write_denied fs' = write_denied fs ∧
  (free_rows fs' ≤ free_rows fs)%nat ∧ cut fs' = cut fs.

(** The texts of the [message_received] signals, and the lists of the
    [data_updated] signals, in the order of emission. *)
Definition messages (emitted : list signal) : list pystr :=
  omap (λ s, match s with message_received text => Some text | _ => None end) emitted.

Definition snapshots (emitted : list signal) : list (list pytuple) :=
  omap (λ s, match s with data_updated data => Some data | _ => None end) emitted.

(** What holds of the controls of a window at any time: one of the two
    buttons is enabled and the other is not; no thread the window has let
    go of is running; the window refers to a thread, which has been told
    to stop and is not running when the Start button is enabled; every
    thread was made with the default baud rate. *)
Definition controls_ok (w : MainWindow.window) : Prop :=
  MainWindow.start_button w = negb (MainWindow.stop_button w) ∧
  Forall (λ t, SerialReaderThread.isRunning t = false) (MainWindow.dropped w) ∧
  (∃ t, MainWindow.serial_reader_thread w = Some t ∧
        (MainWindow.start_button w = true →
         SerialReaderThread.isRunning t = false ∧
         SerialReaderThread.running t = false)) ∧
  Forall (λ t, SerialReaderThread.baudrate t = 115200)
         (option_list (MainWindow.serial_reader_thread w) ++ MainWindow.dropped w).

Definition ascii_text (s : pystr) : Prop := Forall (λ c, 0 ≤ c < 128) s.

#[global] Instance ascii_text_dec s : Decision (ascii_text s).
Proof. unfold ascii_text. apply _. Defined.

Section Vocabulary.
Context `{R : PyRuntime}.

(** A run of decimal digits. *)
Definition digits (ds : pystr) : Prop := Forall (λ c, is_decimal c = true) ds.

(** No decimal digit comes first in [s]. *)
Definition no_decimal_ahead (s : pystr) : Prop :=
  match s with
  | [] => True
  | c :: _ => is_decimal c = false
  end.

(** The texts [-?\d+] matches. *)
Inductive signed_integer : pystr → Prop :=
| unsigned_integer ds : ds ≠ [] → digits ds → signed_integer ds
| negative_integer ds : ds ≠ [] → digits ds → signed_integer (chr "-" :: ds).

(** A match converts when its letter is unknown or its value converts. *)
Definition converts (m : Z * pystr) : Prop :=
  is_Some (field_map !! m.1) → ∃ x, field_value m.1 m.2 = Ok x.

(** The match at offset [i] is the rightmost of those that store under
    [name]. *)
Definition rightmost (name : string) (message : pystr) (i : nat) (k : Z) (v : pystr)
  : Prop :=
  (i, (k, v)) ∈ finditer message ∧ field_map !! k = Some name ∧
  ∀ j k' v', (j, (k', v')) ∈ finditer message → field_map !! k' = Some name →
             (j ≤ i)%nat.

(** A character that is no letter, no decimal digit and no minus sign,
    as the comma of the frames is. *)
Definition separator (c : Z) : Prop :=
  is_ascii_letter c = false ∧ is_decimal c = false ∧ c ≠ chr "-".

(** The line passes the pre-filter and holds a token for each of the
    letters V, s, U and r. *)
Definition four_tokens (line : pystr) : Prop :=
  (10 ≤ length line ≤ 40)%nat ∧ line !! 0%nat = Some (chr "S") ∧
  Forall (λ k, ∃ v, (k, v) ∈ findall line) [chr "V"; chr "s"; chr "U"; chr "r"].

(** The file is absent, or holds a header and rows that decode to [old]. *)
Definition store_holds (fs : filesystem) (old : list pytuple) : Prop :=
  (files fs !! data_file = None ∧ old = []) ∨
  (∃ header rows, files fs !! data_file = Some (header :: rows) ∧
                  comprehension decode_row rows = Ok old).

(** The rows as the file takes them. *)
Definition cells_of (m : measurement) : csvrow :=
  [strftime (m_time m); float_repr (m_battery m); float_repr (m_solar m);
   int_str (m_range m); int_str (m_rssi m)].

End Vocabulary.

(** ** The inputs of the examples *)

(** The frame of the protocol example, and the binary64 numbers nearest
    to 4.106 ([0x1.06c8b43958106p+2]) and to 6.835
    ([0x1.b570a3d70a3d7p+2]). *)
Definition EXAMPLE_FRAME : pystr := str "S1,V4106,C55,U841,s6835,r-58,n12".
Definition F_4_106 : float64 := S754_finite false 0x106c8b43958106 (-50).
Definition F_6_835 : float64 := S754_finite false 0x1b570a3d70a3d7 (-50).

(** The binary64 numbers 841.0 and -58.0. *)
Definition F_841 : float64 := S754_finite false 7397514231676928 (-43).
Definition F_NEG_58 : float64 := S754_finite true 8162774324609024 (-47).

(** A token that [int] reads and [float] does not hold: [V] and 309
    nines. *)
Definition OVERLONG : pystr := chr "V" :: replicate 309 (chr "9").

Definition T0 : datetime := mk_datetime 2024 5 17 13 4 9 123456.

Definition T1 : datetime := mk_datetime 2024 5 17 13 4 9 0.

(** The measurement of the protocol example. *)
Definition M0 : measurement := mk_measurement T1 F_4_106 F_6_835 841 (-58).

(** A device that takes nothing of a row it has no room for. *)
Definition NO_CUT : csvrow → csvrow := λ _, [].

Definition EMPTY_DISK : filesystem := mk_fs ∅ false false 100 ∅ NO_CUT.
Definition READ_ONLY_DISK : filesystem := mk_fs ∅ false true 100 ∅ NO_CUT.

(** The header as the file holds it. *)
Definition HEADER_CELLS : csvrow :=
  [str "Timestamp"; str "Battery Voltage (V)"; str "Solar Voltage (V)";
   str "Ultrasonic Range"; str "RSSI"].

(** A row cut short after its first cell. *)
Definition TRUNCATED_ROW : csvrow := [str "2024-05-17 13:04:10"].

(** A file with the header, one good row and the truncated row. *)
Definition CORRUPT_DISK : filesystem :=
  mk_fs {[ data_file := [HEADER_CELLS; @cells_of model_runtime M0; TRUNCATED_ROW] ]}
        false false 100 ∅ NO_CUT.

(** A later measurement with a zero range. *)
Definition T2 : datetime := mk_datetime 2024 5 17 13 4 10 0.
Definition M1 : measurement := mk_measurement T2 F_6_835 F_4_106 0 (-58).

(** The data file is there and has no row. *)
Definition EMPTY_FILE_DISK : filesystem :=
  mk_fs {[ data_file := [] ]} false false 100 ∅ NO_CUT.

(** The data file holds the header and one good row, and no newline
    follows that row. *)
Definition OPEN_ENDED_DISK : filesystem :=
  mk_fs {[ data_file := [HEADER_CELLS; @cells_of model_runtime M1] ]}
        false false 100 {[ data_file ]} NO_CUT.

(** The data file holds the header and a row of one empty cell, written
    as two quotes, and no newline follows it. *)
Definition QUOTED_EMPTY_DISK : filesystem :=
  mk_fs {[ data_file := [HEADER_CELLS; [[]]] ]} false false 100 {[ data_file ]} NO_CUT.

(** A full device that keeps the first cell of the row it has no room
    for. *)
Definition CUTTING_DISK : filesystem :=
  mk_fs {[ data_file := [HEADER_CELLS] ]} false false 0 ∅ (take 1).

(** A window that holds as many tuples as a plot shows. *)
Definition FULL_WINDOW : list pytuple := replicate MainWindow.PLOT_POINTS (in_memory M0).

(** * Proof steps *)

(** Unfolds the binds of [io] code applied to a file system. *)
Ltac io_unfold := unfold mbind, io_bind, mret, io_ret, lift; cbn beta iota.

(** Refutes that a literal is in a list of other literals. *)
Ltac not_listed H :=
  repeat (apply elem_of_cons in H as [H|H]; [discriminate H|]);
  apply elem_of_nil in H; exact H.

(** Settles membership in a set built with union, difference and
    singletons. *)
Ltac in_set :=
  rewrite ?elem_of_union, ?elem_of_difference, ?elem_of_singleton;
  intuition congruence.

(** Settles that a literal frame is ASCII text of moderate length. *)
Ltac ascii_frame :=
  solve [ apply (bool_decide_unpack _); vm_compute; exact I
        | cbn [length str fmap list_fmap list_ascii_of_string]; lia ].

(** * Facts about the token scan *)

Section ScanFacts.
Context `{R : PyRuntime}.

Lemma is_decimal_spec c : is_decimal c = true ↔ is_Some (uni_decimal c).
Proof. unfold is_decimal. apply bool_decide_eq_true. Qed.

Lemma is_decimal_ascii c :
  0 ≤ c < 128 → is_decimal c = bool_decide (48 ≤ c ≤ 57).
Proof.
  intros Hc. unfold is_decimal. rewrite (uni_decimal_ascii c Hc).
  case_bool_decide as H1; case_bool_decide as H2; try reflexivity.
  - destruct H1 as [? [=]].
  - exfalso. apply H1. eauto.
Qed.

Lemma letter_not_decimal c : is_ascii_letter c = true → is_decimal c = false.
Proof.
  unfold is_ascii_letter. intros Hc. rewrite is_decimal_ascii by lia.
  apply bool_decide_eq_false. lia.
Qed.

Lemma minus_not_decimal : is_decimal (chr "-") = false.
Proof. rewrite is_decimal_ascii by (cbn; lia). reflexivity. Qed.

Lemma plus_not_decimal : is_decimal (chr "+") = false.
Proof. rewrite is_decimal_ascii by (cbn; lia). reflexivity. Qed.

Lemma digit_run_split s :
  ∃ rest, s = digit_run s ++ rest ∧ digits (digit_run s) ∧ no_decimal_ahead rest.
Proof.
  induction s as [|c s (rest & Es & Hds & Hrest)]; cbn [digit_run].
  - exists []. repeat split. constructor.
  - destruct (is_decimal c) eqn:Hc.
    + exists rest. cbn [app]. rewrite <- Es. repeat split; [|assumption].
      constructor; assumption.
    + exists (c :: s). repeat split; [constructor|exact Hc].
Qed.

Lemma digit_run_app ds rest :
  digits ds → no_decimal_ahead rest → digit_run (ds ++ rest) = ds.
Proof.
  intros Hds Hrest. induction Hds as [|c ds Hc _ IH]; cbn [app digit_run].
  - destruct rest as [|c rest]; [reflexivity|]. cbn in *. rewrite Hrest. reflexivity.
  - rewrite Hc, IH. reflexivity.
Qed.

Lemma digit_run_length s : (length (digit_run s) ≤ length s)%nat.
Proof.
  destruct (digit_run_split s) as (rest & Es & _).
  rewrite Es at 2. rewrite length_app. lia.
Qed.

Lemma signed_digits_split s v :
  signed_digits s = Some v →
  signed_integer v ∧ ∃ rest, s = v ++ rest ∧ no_decimal_ahead rest.
Proof.
  unfold signed_digits.
  assert (Hunsigned :
    match digit_run s with [] => None | ds => Some ds end = Some v →
    signed_integer v ∧ ∃ rest, s = v ++ rest ∧ no_decimal_ahead rest).
  { destruct (digit_run_split s) as (rest & Es & Hds & Hrest).
    destruct (digit_run s) as [|d ds] eqn:E; [discriminate|].
    intros [= <-]. split; [constructor; [discriminate|assumption]|].
    exists rest. split; assumption. }
  destruct s as [|c s]; [exact Hunsigned|].
  destruct (Z.eqb_spec c (chr "-")) as [->|Hc]; [|exact Hunsigned].
  destruct (digit_run_split s) as (rest & Es & Hds & Hrest).
  destruct (digit_run s) as [|d ds] eqn:E; [exact Hunsigned|].
  intros [= <-]. split; [constructor; [discriminate|assumption]|].
  exists rest. split; [|assumption].
  change ((chr "-" :: d :: ds) ++ rest) with (chr "-" :: (d :: ds) ++ rest).
  f_equal. exact Es.
Qed.

Lemma signed_digits_unsigned ds rest :
  ds ≠ [] → digits ds → no_decimal_ahead rest →
  signed_digits (ds ++ rest) = Some ds.
Proof.
  intros Hne Hds Hrest. unfold signed_digits.
  rewrite (digit_run_app ds rest Hds Hrest).
  destruct ds as [|d ds]; [congruence|]. cbn [app].
  destruct (Z.eqb_spec d (chr "-")) as [->|Hd]; [|reflexivity].
  inversion Hds as [|? ? Hd _]. rewrite minus_not_decimal in Hd. discriminate.
Qed.

Lemma signed_digits_negative ds rest :
  ds ≠ [] → digits ds → no_decimal_ahead rest →
  signed_digits (chr "-" :: ds ++ rest) = Some (chr "-" :: ds).
Proof.
  intros Hne Hds Hrest. unfold signed_digits.
  rewrite Z.eqb_refl, (digit_run_app ds rest Hds Hrest).
  destruct ds as [|d ds]; [congruence|reflexivity].
Qed.

Lemma signed_digits_length s v :
  signed_digits s = Some v → (0 < length v ≤ length s)%nat.
Proof.
  intros H. destruct (signed_digits_split s v H) as (Hv & rest & -> & _).
  rewrite length_app.
  destruct Hv as [ds Hne _|ds Hne _]; destruct ds; cbn; (congruence || lia).
Qed.

Lemma match_at_split s k v :
  match_at s = Some (k, v) →
  ∃ s', s = k :: s' ∧ is_ascii_letter k = true ∧ signed_digits s' = Some v.
Proof.
  destruct s as [|c s]; [discriminate|]. cbn [match_at].
  destruct (is_ascii_letter c) eqn:Hc; [|discriminate].
  destruct (signed_digits s) as [v'|] eqn:E; [|discriminate].
  intros [= <- <-]. eauto.
Qed.

Lemma match_at_intro k s v :
  is_ascii_letter k = true → signed_digits s = Some v →
  match_at (k :: s) = Some (k, v).
Proof. intros Hk Hv. cbn [match_at]. rewrite Hk, Hv. reflexivity. Qed.

(** Every match the scan reports is a match of the pattern at its
    offset, and lies outside the text the previous match consumed. *)
Lemma scan_elem pos skip s i k v :
  (i, (k, v)) ∈ scan pos skip s →
  ∃ j, i = (pos + j)%nat ∧ (skip ≤ j)%nat ∧ match_at (drop j s) = Some (k, v).
Proof.
  revert pos skip. induction s as [|c s IH]; intros pos skip; cbn [scan].
  - intros H. inversion H.
  - destruct skip as [|skip].
    + destruct (match_at (c :: s)) as [[k0 v0]|] eqn:E.
      * intros [[= -> -> ->]|H]%elem_of_cons.
        -- exists 0%nat. repeat split; [lia|lia|exact E].
        -- destruct (IH _ _ H) as (j & -> & _ & Hm).
           exists (S j). repeat split; [lia|lia|exact Hm].
      * intros H. destruct (IH _ _ H) as (j & -> & _ & Hm).
        exists (S j). repeat split; [lia|lia|exact Hm].
    + intros H. destruct (IH _ _ H) as (j & -> & Hj & Hm).
      exists (S j). repeat split; [lia|lia|exact Hm].
Qed.

(** Positions inside a match start no other match. *)
Lemma scan_skip pos skip s :
  scan pos skip s = scan (pos + skip) 0 (drop skip s).
Proof.
  revert pos skip. induction s as [|c s IH]; intros pos skip.
  - rewrite drop_nil. reflexivity.
  - destruct skip as [|skip].
    + rewrite Nat.add_0_r. reflexivity.
    + cbn [scan drop]. rewrite IH. f_equal. lia.
Qed.

Lemma scan_shift pos skip s :
  scan pos skip s = prod_map (λ i, (pos + i)%nat) id <$> scan 0 skip s.
Proof.
  revert pos skip. induction s as [|c s IH]; intros pos skip; [reflexivity|].
  cbn [scan]. destruct skip as [|skip].
  - destruct (match_at (c :: s)) as [[k v]|].
    + rewrite fmap_cons. cbn [prod_map fst snd id]. rewrite Nat.add_0_r.
      f_equal. rewrite (IH 1%nat), (IH (S pos)), <- list_fmap_compose.
      apply list_fmap_ext. intros _ [i m] _. cbn. f_equal. lia.
    + rewrite (IH 1%nat), (IH (S pos)), <- list_fmap_compose.
      apply list_fmap_ext. intros _ [i m] _. cbn. f_equal. lia.
  - rewrite (IH 1%nat), (IH (S pos)), <- list_fmap_compose.
    apply list_fmap_ext. intros _ [i m] _. cbn. f_equal. lia.
Qed.

(** The scan after a match resumes behind the value. *)
Lemma findall_match k v s rest :
  match_at (k :: s) = Some (k, v) → s = v ++ rest →
  findall (k :: s) = (k, v) :: findall rest.
Proof.
  intros Hm ->. unfold findall, finditer. cbn [scan]. rewrite Hm.
  rewrite fmap_cons. cbn [snd]. f_equal.
  rewrite scan_skip, drop_app_length, (scan_shift (1 + length v)).
  rewrite <- list_fmap_compose. apply list_fmap_ext. intros _ [i m] _. reflexivity.
Qed.

(** Where the pattern does not match, the scan moves on by one. *)
Lemma findall_no_match c s :
  match_at (c :: s) = None → findall (c :: s) = findall s.
Proof.
  intros Hm. unfold findall, finditer. cbn [scan]. rewrite Hm.
  rewrite (scan_shift 1). rewrite <- list_fmap_compose.
  apply list_fmap_ext. intros _ [i m] _. reflexivity.
Qed.

Lemma findall_nil : findall [] = [].
Proof. reflexivity. Qed.

(** The value of a match is shorter than the text. *)
Lemma findall_value_length message k v :
  (k, v) ∈ findall message → (0 < length v < length message)%nat.
Proof.
  unfold findall, finditer. intros ([i [k' v']] & [= <- <-] & H)%list_elem_of_fmap.
  destruct (scan_elem _ _ _ _ _ _ H) as (j & _ & _ & Hm).
  destruct (match_at_split _ _ _ Hm) as (s' & Es & _ & Hv).
  pose proof (signed_digits_length _ _ Hv) as Hlen.
  assert (length (drop j message) = S (length s')) as Hd by (rewrite Es; reflexivity).
  rewrite length_drop in Hd. lia.
Qed.

Lemma findall_signed_integer message k v :
  (k, v) ∈ findall message → is_ascii_letter k = true ∧ signed_integer v.
Proof.
  unfold findall, finditer. intros ([i [k' v']] & [= <- <-] & H)%list_elem_of_fmap.
  destruct (scan_elem _ _ _ _ _ _ H) as (j & _ & _ & Hm).
  destruct (match_at_split _ _ _ Hm) as (s' & Es & Hk & Hv).
  split; [exact Hk|]. apply (signed_digits_split _ _ Hv).
Qed.

End ScanFacts.

(** * Facts about the conversions and the field mapping *)

Section ParseFacts.
Context `{R : PyRuntime}.

Lemma digits_value_bound ds acc :
  digits ds → 0 ≤ acc →
  ∃ n, digits_value acc ds = Some n ∧
       acc * 10 ^ Z.of_nat (length ds) ≤ n < (acc + 1) * 10 ^ Z.of_nat (length ds).
Proof.
  intros Hds. revert acc.
  induction Hds as [|c ds Hc _ IH]; intros acc Hacc; cbn [digits_value length].
  - exists acc. split; [reflexivity|]. cbn. lia.
  - apply is_decimal_spec in Hc as [d Hd]. rewrite Hd. cbn [mbind option_bind].
    pose proof (uni_decimal_range c d Hd) as Hrange.
    destruct (IH (10 * acc + d) ltac:(lia)) as (n & Hn & Hlo & Hhi).
    exists n. split; [exact Hn|].
    rewrite Nat2Z.inj_succ, Z.pow_succ_r by lia.
    assert (0 < 10 ^ Z.of_nat (length ds)) by (apply Z.pow_pos_nonneg; lia).
    nia.
Qed.

Lemma digit_limit_floor n : (n ≤ 640)%nat → over_digit_limit n = false.
Proof.
  intros Hn. unfold over_digit_limit.
  destruct int_max_str_digits as [L|] eqn:E; [|reflexivity].
  pose proof (int_max_str_digits_floor L E). apply Nat.ltb_ge. lia.
Qed.

(** [int] reads every text the pattern matched; only the digit limit can
    stop it. *)
Lemma py_int_signed v :
  signed_integer v →
  (py_int v = Raise ValueError ∧ (640 < length v)%nat) ∨
  (∃ n, py_int v = Ok n ∧ Z.abs n < 10 ^ Z.of_nat (length v)).
Proof.
  intros [ds Hne Hds|ds Hne Hds].
  - destruct (digits_value_bound ds 0 Hds ltac:(lia)) as (n & Hn & Hlo & Hhi).
    destruct ds as [|c ds]; [congruence|].
    assert (Hc : is_decimal c = true) by (inversion Hds; assumption).
    unfold py_int.
    destruct (Z.eqb_spec c (chr "-")) as [->|_];
      [rewrite minus_not_decimal in Hc; discriminate|].
    destruct (Z.eqb_spec c (chr "+")) as [->|_];
      [rewrite plus_not_decimal in Hc; discriminate|].
    rewrite Hn. cbn [or_raise mbind result_bind].
    destruct (over_digit_limit (length (c :: ds))) eqn:Hlim.
    + left. split; [reflexivity|].
      destruct (le_lt_dec (length (c :: ds)) 640) as [Hle|Hgt]; [|exact Hgt].
      rewrite digit_limit_floor in Hlim by exact Hle. discriminate.
    + right. exists n. split; [reflexivity|]. lia.
  - destruct (digits_value_bound ds 0 Hds ltac:(lia)) as (n & Hn & Hlo & Hhi).
    unfold py_int. rewrite Z.eqb_refl.
    destruct ds as [|c ds]; [congruence|].
    rewrite Hn. cbn [or_raise mbind result_bind].
    destruct (over_digit_limit (length (c :: ds))) eqn:Hlim.
    + left. split; [reflexivity|].
      destruct (le_lt_dec (length (c :: ds)) 640) as [Hle|Hgt]; [|cbn in *; lia].
      rewrite digit_limit_floor in Hlim by exact Hle. discriminate.
    + right. exists (- n). split; [reflexivity|].
      change (length (chr "-" :: c :: ds)) with (S (length (c :: ds))).
      rewrite Nat2Z.inj_succ, Z.pow_succ_r by lia.
      assert (0 < 10 ^ Z.of_nat (length (c :: ds))) by (apply Z.pow_pos_nonneg; lia).
      lia.
Qed.

Lemma safe_digits_no_overflow n (len : nat) :
  (len ≤ SAFE_DIGITS)%nat → Z.abs n < 10 ^ Z.of_nat len →
  (Z.abs n <? FLOAT_OVERFLOW) = true.
Proof.
  intros Hlen Hn. apply Z.ltb_lt.
  assert (10 ^ Z.of_nat len ≤ 10 ^ 308)
    by (apply Z.pow_le_mono_r; unfold SAFE_DIGITS in Hlen; lia).
  assert (10 ^ 308 < FLOAT_OVERFLOW) by (apply Z.ltb_lt; vm_compute; reflexivity).
  lia.
Qed.

(** The conversion of a matched token ends in a value, in
    [OverflowError] or in [ValueError]. *)
Lemma field_value_outcome k v :
  signed_integer v →
  (∃ x, field_value k v = Ok x) ∨
  field_value k v = Raise OverflowError ∨ field_value k v = Raise ValueError.
Proof.
  intros Hv. unfold field_value, truediv_milli, float_of_int.
  destruct (py_int_signed v Hv) as [[-> _]|(n & -> & _)].
  - destruct (_ || _); right; right; reflexivity.
  - cbn [mbind result_bind].
    destruct (_ || _); [|left; eauto].
    destruct (Z.abs n <? FLOAT_OVERFLOW); [left; eauto|right; left; reflexivity].
Qed.

(** Short tokens convert. *)
Lemma field_value_safe k v :
  signed_integer v → (length v ≤ SAFE_DIGITS)%nat → ∃ x, field_value k v = Ok x.
Proof.
  intros Hv Hlen. unfold field_value, truediv_milli, float_of_int.
  destruct (py_int_signed v Hv) as [[_ Hbig]|(n & -> & Hn)];
    [unfold SAFE_DIGITS in Hlen; lia|].
  cbn [mbind result_bind].
  rewrite (safe_digits_no_overflow n (length v) Hlen Hn).
  destruct (_ || _); eauto.
Qed.

Lemma field_map_lookup k :
  field_map !! k =
    if k =? chr "V" then Some "battery_voltage"%string
    else if k =? chr "s" then Some "solar_voltage"%string
    else if k =? chr "S" then Some "sensor_id"%string
    else if k =? chr "C" then Some "msg_count"%string
    else if k =? chr "U" then Some "ultrasonic_range"%string
    else if k =? chr "r" then Some "rssi"%string
    else if k =? chr "n" then Some "signal_to_noise_ratio"%string
    else None.
Proof.
  unfold field_map.
  repeat match goal with
         | |- context [?a =? ?b] =>
             destruct (Z.eqb_spec a b) as [->|?];
             [reflexivity|rewrite lookup_insert_ne by congruence]
         end.
  apply lookup_empty.
Qed.

Lemma field_map_inj k k' name :
  field_map !! k = Some name → field_map !! k' = Some name → k = k'.
Proof.
  rewrite !field_map_lookup.
  repeat match goal with
         | |- context [?a =? ?b] => destruct (Z.eqb_spec a b) as [->|?]
         end; intros; simplify_eq; reflexivity.
Qed.

Lemma last_match_cons name m ms :
  last_match name (m :: ms) =
    match last_match name ms with
    | Some m' => Some m'
    | None => if decide (field_map !! m.1 = Some name) then Some m else None
    end.
Proof.
  unfold last_match, matches_for. rewrite filter_cons.
  destruct (decide (field_map !! m.1 = Some name)) as [H|H].
  - destruct (filter _ ms) as [|m' l] eqn:E; [reflexivity|].
    rewrite last_cons. destruct (last (m' :: l)) eqn:E'; [reflexivity|].
    apply last_None in E'. discriminate.
  - destruct (last _); reflexivity.
Qed.

Lemma store_match_lookup d m d' name :
  store_match d m = Ok d' →
  if decide (field_map !! m.1 = Some name)
  then ∃ x, field_value m.1 m.2 = Ok x ∧ d' !! name = Some x
  else d' !! name = d !! name.
Proof.
  destruct m as [k v]. unfold store_match. cbn [fst snd].
  destruct (field_map !! k) as [name'|] eqn:Ek.
  - destruct (field_value k v) as [x|e] eqn:Ev; [|discriminate].
    intros [= <-]. case_decide as Hn.
    + injection Hn as ->. exists x. split; [reflexivity|apply lookup_insert_eq].
    + apply lookup_insert_ne. congruence.
  - intros [= <-]. case_decide; [discriminate|reflexivity].
Qed.

(** What the loop over the matches leaves under each name: the value of
    the last match for it. *)
Lemma for_each_store_lookup ms d d' name :
  for_each store_match d ms = Ok d' →
  match last_match name ms with
  | Some m => ∃ x, field_value m.1 m.2 = Ok x ∧ d' !! name = Some x
  | None => d' !! name = d !! name
  end.
Proof.
  revert d. induction ms as [|m ms IH]; intros d; cbn [for_each].
  - intros [= <-]. reflexivity.
  - destruct (store_match d m) as [d1|e] eqn:E1; [|discriminate].
    cbn [mbind result_bind]. intros H. specialize (IH _ H).
    rewrite last_match_cons. destruct (last_match name ms) as [m'|]; [exact IH|].
    pose proof (store_match_lookup _ _ _ name E1) as H1.
    case_decide; [|congruence].
    destruct H1 as (x & Hx & Hd1). exists x. split; [exact Hx|congruence].
Qed.

Lemma for_each_store_converts ms d d' :
  for_each store_match d ms = Ok d' → Forall converts ms.
Proof.
  revert d. induction ms as [|m ms IH]; intros d; cbn [for_each]; [constructor|].
  destruct (store_match d m) as [d1|e] eqn:E1; [|discriminate].
  cbn [mbind result_bind]. intros H. constructor; [|exact (IH _ H)].
  destruct m as [k v]. unfold converts, store_match in *. cbn [fst snd].
  intros [name Hname]. rewrite Hname in E1.
  destruct (field_value k v) as [x|e]; [eauto|discriminate].
Qed.

Lemma for_each_store_total ms d :
  Forall converts ms → ∃ d', for_each store_match d ms = Ok d'.
Proof.
  intros Hms. revert d. induction Hms as [|[k v] ms Hm _ IH]; intros d; cbn [for_each].
  - eauto.
  - unfold store_match, converts in *. cbn [fst snd] in Hm.
    destruct (field_map !! k) as [name|]; [|apply IH].
    destruct (Hm ltac:(eauto)) as [x ->]. apply IH.
Qed.

(** The loop ends in a mapping, in [OverflowError] or in [ValueError]. *)
Lemma for_each_store_outcome ms d :
  Forall (λ m, signed_integer m.2) ms →
  (∃ d', for_each store_match d ms = Ok d') ∨
  for_each store_match d ms = Raise OverflowError ∨
  for_each store_match d ms = Raise ValueError.
Proof.
  intros Hms. revert d. induction Hms as [|[k v] ms Hm _ IH]; intros d; cbn [for_each].
  - left. eauto.
  - unfold store_match. cbn [snd] in Hm.
    destruct (field_map !! k) as [name|]; [|apply IH].
    destruct (field_value_outcome k v Hm) as [[x ->]|[-> | ->]];
      [apply IH|right; left; reflexivity|right; right; reflexivity].
Qed.

Lemma findall_signed message : Forall (λ m, signed_integer m.2) (findall message).
Proof.
  apply Forall_forall. intros [k v] H. apply (findall_signed_integer _ _ _ H).
Qed.

(** Every match of a text of at most 309 characters converts. *)
Lemma findall_converts message :
  (length message ≤ S SAFE_DIGITS)%nat → Forall converts (findall message).
Proof.
  intros Hlen. apply Forall_forall. intros [k v] H _. cbn [fst snd].
  pose proof (findall_value_length _ _ _ H).
  apply field_value_safe; [apply (findall_signed_integer _ _ _ H)|lia].
Qed.

Lemma parse_message_safe message :
  (length message ≤ S SAFE_DIGITS)%nat → ∃ d, parse_message message = Ok d.
Proof. intros Hlen. apply for_each_store_total, findall_converts, Hlen. Qed.

Lemma parse_message_lookup message d name :
  parse_message message = Ok d →
  match last_match name (findall message) with
  | Some m => ∃ x, field_value m.1 m.2 = Ok x ∧ d !! name = Some x
  | None => d !! name = None
  end.
Proof.
  intros H. pose proof (for_each_store_lookup _ _ _ name H) as Hl.
  destruct (last_match name (findall message)); [exact Hl|].
  rewrite Hl. apply lookup_empty.
Qed.

End ParseFacts.

(** * Decimal text and [int] *)

Section NumberText.
Context `{R : PyRuntime}.

Lemma uni_decimal_digit c : 48 ≤ c ≤ 57 → uni_decimal c = Some (c - 48).
Proof.
  intros Hc. rewrite uni_decimal_ascii by lia.
  rewrite bool_decide_eq_true_2 by lia. reflexivity.
Qed.

(** Settles one digit of the two lemmas below. *)
Ltac digit_step IH :=
  cbn [uint_digit_codes digits_value Pos.of_uint_acc Pos.of_uint];
  rewrite uni_decimal_digit by lia; cbn [mbind option_bind];
  rewrite <- IH; f_equal; lia.

Lemma digits_value_acc u (acc : positive) :
  digits_value (Z.pos acc) (uint_digit_codes u)
  = Some (Z.pos (Pos.of_uint_acc u acc)).
Proof.
  revert acc.
  induction u as [|u IH|u IH|u IH|u IH|u IH|u IH|u IH|u IH|u IH|u IH]; intros acc;
    [reflexivity|digit_step IH..].
Qed.

Lemma digits_value_uint u :
  digits_value 0 (uint_digit_codes u) = Some (Z.of_N (Pos.of_uint u)).
Proof.
  induction u as [|u IH|u IH|u IH|u IH|u IH|u IH|u IH|u IH|u IH|u IH];
    [reflexivity|digit_step IH|..];
    cbn [uint_digit_codes digits_value Pos.of_uint];
    rewrite uni_decimal_digit by lia; cbn [mbind option_bind];
    cbn [Z.of_N]; rewrite <- digits_value_acc; f_equal.
Qed.

Lemma digits_value_int_digits z :
  digits_value 0 (int_digits z) = Some (Z.abs z).
Proof.
  unfold int_digits. rewrite digits_value_uint.
  change (Pos.of_uint (N.to_uint ?n)) with (N.of_uint (N.to_uint n)).
  rewrite DecimalN.Unsigned.of_to. f_equal. lia.
Qed.

(** [int] reads the decimal text of an integer as that integer. *)
Lemma py_int_int_str z :
  (length (int_digits z) ≤ 640)%nat → py_int (int_str z) = Ok z.
Proof.
  intros Hlen. unfold py_int, int_str.
  destruct (ModelRuntimeLaws.int_digits_head z) as (c & s & E & Hc).
  destruct (Z.ltb_spec z 0) as [Hneg|Hpos].
  - rewrite Z.eqb_refl, E, <- E, digits_value_int_digits.
    cbn [or_raise mbind result_bind]. rewrite digit_limit_floor by exact Hlen.
    f_equal. lia.
  - rewrite E. destruct (Z.eqb_spec c (chr "-")); [cbn in *; lia|].
    destruct (Z.eqb_spec c (chr "+")); [cbn in *; lia|].
    rewrite <- E, digits_value_int_digits.
    cbn [or_raise mbind result_bind]. rewrite digit_limit_floor by exact Hlen.
    f_equal. lia.
Qed.

End NumberText.

(** * The length of a printed integer *)

Section PrintedLength.
Context `{R : PyRuntime}.

Lemma of_uint_acc_lower d acc :
  Z.pos acc * 10 ^ Z.of_nat (nb_digits d) ≤ Z.pos (Pos.of_uint_acc d acc).
Proof.
  revert acc. induction d; intros acc; cbn [Pos.of_uint_acc nb_digits];
    [rewrite Z.pow_0_r; lia|..];
    rewrite Nat2Z.inj_succ, Z.pow_succ_r by lia;
    (etransitivity; [|apply IHd]); nia.
Qed.

(** The decimal numeral of a positive number has no leading zero. *)
Lemma to_uint_head p l : Pos.to_uint p ≠ D0 l.
Proof.
  intros E.
  assert (Hnorm : unorm (Pos.to_uint p) = Pos.to_uint p).
  { rewrite <- (DecimalPos.Unsigned.to_of (Pos.to_uint p)) at 1.
    rewrite DecimalPos.Unsigned.of_to. reflexivity. }
  rewrite E in Hnorm. change (unorm (D0 l)) with (unorm l) in Hnorm.
  destruct (Decimal.uint_eq_dec l Nil) as [->|Hl].
  - exact (DecimalPos.Unsigned.to_uint_nonzero p E).
  - pose proof (DecimalFacts.nb_digits_unorm l Hl) as H. rewrite Hnorm in H. cbn in H. lia.
Qed.

Lemma to_uint_lower p :
  10 ^ (Z.of_nat (nb_digits (Pos.to_uint p)) - 1) ≤ Z.pos p.
Proof.
  pose proof (DecimalPos.Unsigned.of_to p) as Hof.
  pose proof (to_uint_head p) as Hhead.
  pose proof (DecimalPos.Unsigned.to_uint_nonnil p) as Hnil.
  destruct (Pos.to_uint p) as [|l|l|l|l|l|l|l|l|l|l];
    [congruence|exfalso; exact (Hhead l eq_refl)|..];
    cbn [Pos.of_uint nb_digits] in *; injection Hof as <-;
    rewrite Nat2Z.inj_succ;
    replace (Z.succ (Z.of_nat (nb_digits l)) - 1) with (Z.of_nat (nb_digits l)) by lia;
    (etransitivity; [|apply of_uint_acc_lower]); nia.
Qed.

Lemma uint_digit_codes_length u : length (uint_digit_codes u) = nb_digits u.
Proof. induction u; cbn [uint_digit_codes nb_digits length]; congruence. Qed.

Lemma int_digits_length z (k : nat) :
  (0 < k)%nat → Z.abs z < 10 ^ Z.of_nat k → (length (int_digits z) ≤ k)%nat.
Proof.
  intros Hk Hz. unfold int_digits. rewrite uint_digit_codes_length.
  destruct (Z.abs_N z) as [|p] eqn:E; [cbn; lia|].
  cbn [N.to_uint]. pose proof (to_uint_lower p) as Hlow.
  assert (Hp : Z.pos p = Z.abs z) by lia.
  rewrite Hp in Hlow.
  destruct (le_lt_dec (nb_digits (Pos.to_uint p)) k) as [Hle|Hgt]; [exact Hle|].
  exfalso.
  assert (10 ^ Z.of_nat k ≤ 10 ^ (Z.of_nat (nb_digits (Pos.to_uint p)) - 1))
    by (apply Z.pow_le_mono_r; lia).
  lia.
Qed.

(** The integer read from a token prints in no more digits than the
    token has characters. *)
Lemma py_int_printable v n :
  signed_integer v → py_int v = Ok n → (length (int_digits n) ≤ length v)%nat.
Proof.
  intros Hv Hn.
  destruct (py_int_signed v Hv) as [[Hraise _]|(n' & Hn' & Hbound)]; [congruence|].
  assert (n' = n) as -> by congruence.
  apply int_digits_length; [|exact Hbound].
  destruct Hv as [ds Hne _|ds _ _]; [destruct ds; [congruence|cbn; lia]|cbn; lia].
Qed.

End PrintedLength.

(** * ASCII text parses alike under every runtime *)

Section Transfer.
Variables R1 R2 : PyRuntime.

Lemma is_decimal_transfer c :
  0 ≤ c < 128 → @is_decimal R1 c = @is_decimal R2 c.
Proof. intros Hc. rewrite !is_decimal_ascii by exact Hc. reflexivity. Qed.

Lemma digit_run_transfer s :
  ascii_text s → @digit_run R1 s = @digit_run R2 s.
Proof.
  induction 1 as [|c s Hc _ IH]; [reflexivity|]. cbn [digit_run].
  rewrite (is_decimal_transfer c Hc), IH. reflexivity.
Qed.

Lemma signed_digits_transfer s :
  ascii_text s → @signed_digits R1 s = @signed_digits R2 s.
Proof.
  intros Hs. unfold signed_digits. rewrite (digit_run_transfer s Hs).
  destruct Hs as [|c s Hc Hs]; [reflexivity|].
  rewrite (digit_run_transfer s Hs). reflexivity.
Qed.

Lemma match_at_transfer s :
  ascii_text s → @match_at R1 s = @match_at R2 s.
Proof.
  destruct 1 as [|c s Hc Hs]; [reflexivity|]. cbn [match_at].
  rewrite (signed_digits_transfer s Hs). reflexivity.
Qed.

Lemma scan_transfer pos skip s :
  ascii_text s → @scan R1 pos skip s = @scan R2 pos skip s.
Proof.
  intros Hs. revert pos skip. induction Hs as [|c s Hc Hs IH]; intros pos skip;
    [reflexivity|].
  cbn [scan]. destruct skip as [|skip]; [|apply IH].
  rewrite (match_at_transfer (c :: s)) by (constructor; assumption).
  destruct (@match_at R2 (c :: s)) as [[k v]|]; rewrite IH; reflexivity.
Qed.

Lemma findall_transfer s :
  ascii_text s → @findall R1 s = @findall R2 s.
Proof. intros Hs. unfold findall, finditer. rewrite (scan_transfer _ _ s Hs). reflexivity. Qed.

Lemma digits_value_transfer acc ds :
  ascii_text ds → @digits_value R1 acc ds = @digits_value R2 acc ds.
Proof.
  intros Hds. revert acc. induction Hds as [|c ds Hc _ IH]; intros acc; [reflexivity|].
  cbn [digits_value]. rewrite !(uni_decimal_ascii c Hc).
  destruct (bool_decide _); [apply IH|reflexivity].
Qed.

Lemma py_int_transfer v :
  ascii_text v → (length v ≤ 640)%nat → @py_int R1 v = @py_int R2 v.
Proof.
  intros Hv Hlen. unfold py_int.
  assert (Hds : ∀ ds, ascii_text ds → (length ds ≤ 640)%nat →
    match ds with
    | [] => Raise ValueError
    | _ :: _ =>
        n ← or_raise ValueError (@digits_value R1 0 ds);
        if @over_digit_limit R1 (length ds) then Raise ValueError else Ok n
    end =
    match ds with
    | [] => Raise ValueError
    | _ :: _ =>
        n ← or_raise ValueError (@digits_value R2 0 ds);
        if @over_digit_limit R2 (length ds) then Raise ValueError else Ok n
    end).
  { intros ds Hds Hl. destruct ds as [|c ds]; [reflexivity|].
    rewrite (digits_value_transfer 0 _ Hds), !digit_limit_floor by exact Hl.
    reflexivity. }
  destruct Hv as [|c v Hc Hv]; [reflexivity|]. cbn [length] in Hlen.
  destruct (c =? chr "-").
  - destruct v as [|c' v]; [reflexivity|].
    rewrite (digits_value_transfer 0 _ Hv), !digit_limit_floor by lia. reflexivity.
  - destruct (c =? chr "+").
    + exact (Hds v Hv ltac:(lia)).
    + exact (Hds (c :: v) ltac:(constructor; assumption) Hlen).
Qed.

Lemma field_value_transfer k v :
  ascii_text v → (length v ≤ 640)%nat → @field_value R1 k v = @field_value R2 k v.
Proof.
  intros Hv Hlen. unfold field_value. rewrite (py_int_transfer v Hv Hlen). reflexivity.
Qed.

Lemma for_each_ext {A B} (f g : B → A → result B) l acc :
  Forall (λ x, ∀ b, f b x = g b x) l → for_each f acc l = for_each g acc l.
Proof.
  intros Hl. revert acc. induction Hl as [|x l Hx _ IH]; intros acc; [reflexivity|].
  cbn [for_each]. rewrite Hx. destruct (g acc x); [apply IH|reflexivity].
Qed.

Lemma findall_ascii s k v :
  ascii_text s → (k, v) ∈ @findall R2 s → ascii_text v.
Proof.
  intros Hs ([i [k' v']] & [= <- <-] & H)%list_elem_of_fmap.
  destruct (scan_elem _ _ _ _ _ _ H) as (j & _ & _ & Hm).
  destruct (match_at_split _ _ _ Hm) as (s' & Es & _ & Hv).
  destruct (signed_digits_split _ _ Hv) as (_ & rest & -> & _).
  assert (Hd : ascii_text (drop j s)) by (apply Forall_drop, Hs).
  rewrite Es in Hd. inversion Hd as [|? ? _ Hd']. apply Forall_app in Hd'. tauto.
Qed.

Lemma parse_message_transfer s :
  ascii_text s → (length s ≤ 640)%nat → @parse_message R1 s = @parse_message R2 s.
Proof.
  intros Hs Hlen. unfold parse_message. rewrite (findall_transfer s Hs).
  apply for_each_ext, Forall_forall. intros [k v] Hm d. unfold store_match.
  rewrite (field_value_transfer k v); [reflexivity|exact (findall_ascii _ _ _ Hs Hm)|].
  pose proof (findall_value_length _ _ _ Hm). lia.
Qed.

End Transfer.

(** * The examples under the model runtime *)

(** [F_4_106] and [F_6_835] are binary64 numbers within half a unit in
    the last place of 4106/1000 and 6835/1000. *)
Lemma example_floats_nearest :
  valid_binary prec64 emax64 F_4_106 = true ∧
  valid_binary prec64 emax64 F_6_835 = true ∧
  Z.abs (1000 * 0x106c8b43958106 - 4106 * 2 ^ 50) ≤ 500 ∧
  Z.abs (1000 * 0x1b570a3d70a3d7 - 6835 * 2 ^ 50) ≤ 500.
Proof. repeat split; vm_compute; congruence. Qed.

Lemma example_frame_fields :
  required_fields <$> @parse_message model_runtime EXAMPLE_FRAME
  = Ok (Some (PFloat F_4_106), Some (PFloat F_6_835),
        Some (PInt 841), Some (PInt (-58))).
Proof. vm_compute. reflexivity. Qed.

Lemma letter_run_fields :
  (λ d : gmap string pyval, (d !! "ultrasonic_range"%string, d !! "sensor_id"%string))
    <$> @parse_message model_runtime (str "SU841")
  = Ok (Some (PInt 841), None).
Proof. vm_compute. reflexivity. Qed.

Lemma short_frame_fields :
  required_fields <$> @parse_message model_runtime (str "S1,V4106")
  = Ok (Some (PFloat F_4_106), None, None, None).
Proof. vm_compute. reflexivity. Qed.

(** * Order and repetition of tokens *)

Section OrderFacts.
Context `{R : PyRuntime}.

Lemma filter_none {A} (P : A → Prop) `{∀ x, Decision (P x)} (l : list A) :
  Forall (λ x, ¬ P x) l → filter P l = [].
Proof.
  induction 1 as [|x l Hx _ IH]; [reflexivity|].
  rewrite filter_cons_False by exact Hx. exact IH.
Qed.

(** The scan reports the matches from left to right. *)
Lemma scan_sorted pos skip s :
  StronglySorted (λ a b, (a.1 < b.1)%nat) (scan pos skip s).
Proof.
  revert pos skip. induction s as [|c s IH]; intros pos skip; cbn [scan]; [constructor|].
  destruct skip as [|skip]; [|apply IH].
  destruct (match_at (c :: s)) as [[k v]|]; [|apply IH].
  constructor; [apply IH|]. apply Forall_forall. intros [i [k' v']] H.
  destruct (scan_elem _ _ _ _ _ _ H) as (j & -> & _). cbn. lia.
Qed.

Lemma last_match_rightmost name message i k v :
  rightmost name message i k v → last_match name (findall message) = Some (k, v).
Proof.
  intros (Hin & Hk & Hmax).
  pose proof (scan_sorted 0 0 message) as Hsorted. fold (finditer message) in Hsorted.
  apply list_elem_of_split in Hin as (l1 & l2 & Hsplit).
  assert (Hlater : matches_for name (snd <$> l2) = []).
  { rewrite Hsplit in Hsorted. apply StronglySorted_app_1_r in Hsorted.
    apply StronglySorted_cons in Hsorted as [Hall _].
    unfold matches_for. apply filter_none. rewrite Forall_fmap.
    apply Forall_forall. intros [j [k' v']] Hl2 Hname. cbn in Hname.
    rewrite Forall_forall in Hall. specialize (Hall _ Hl2). cbn in Hall.
    assert ((j ≤ i)%nat); [|lia].
    apply (Hmax j k' v'); [|exact Hname].
    rewrite Hsplit. apply elem_of_app. right. right. exact Hl2. }
  unfold last_match, findall. rewrite Hsplit, fmap_app, fmap_cons.
  unfold matches_for in *. rewrite filter_app, filter_cons_True by exact Hk.
  rewrite Hlater. cbn [snd]. apply last_snoc.
Qed.

(** Matches with distinct recognised letters: at most one stores under
    each name. *)
Lemma matches_for_unique name ms :
  NoDup (fst <$> recognised ms) → (length (matches_for name ms) ≤ 1)%nat.
Proof.
  unfold recognised, matches_for.
  induction ms as [|[k v] ms IH]; [cbn; lia|].
  rewrite !filter_cons. cbn [fst].
  destruct (decide (field_map !! k = Some name)) as [Hk|Hk].
  - rewrite decide_True by (rewrite Hk; eauto).
    rewrite fmap_cons. cbn [fst]. intros [Hnotin Hnodup]%NoDup_cons.
    specialize (IH Hnodup).
    destruct (filter _ ms) as [|[k' v'] l] eqn:E; [cbn; lia|].
    exfalso. apply Hnotin.
    assert (Hin : (k', v') ∈ filter (λ m : Z * pystr, field_map !! m.1 = Some name) ms)
      by (rewrite E; left).
    apply list_elem_of_filter in Hin as [Hk' Hin]. cbn in Hk'.
    rewrite (field_map_inj k k' name Hk Hk').
    apply list_elem_of_fmap. exists (k', v'). split; [reflexivity|].
    apply list_elem_of_filter. split; [cbn; rewrite Hk'; eauto|exact Hin].
  - destruct (decide (is_Some (field_map !! k))); [|exact IH].
    rewrite fmap_cons. intros [_ Hnodup]%NoDup_cons. exact (IH Hnodup).
Qed.

Lemma last_match_permutation name ms1 ms2 :
  ms1 ≡ₚ ms2 → NoDup (fst <$> recognised ms1) →
  last_match name ms1 = last_match name ms2.
Proof.
  intros Hperm Hnodup. unfold last_match.
  pose proof (matches_for_unique name ms1 Hnodup) as Hlen.
  assert (Hp : matches_for name ms1 ≡ₚ matches_for name ms2)
    by (unfold matches_for; rewrite Hperm; reflexivity).
  destruct (matches_for name ms1) as [|m [|m' l]]; [| |cbn in Hlen; lia].
  - apply Permutation_nil_l in Hp as <-. reflexivity.
  - apply Permutation_singleton_l in Hp as <-. reflexivity.
Qed.

(** Permuting matches with distinct recognised letters keeps the
    outcome: the same mapping, or an exception on both sides. *)
Lemma parse_permutation m1 m2 d :
  findall m1 ≡ₚ findall m2 → NoDup (fst <$> recognised (findall m1)) →
  parse_message m1 = Ok d → parse_message m2 = Ok d.
Proof.
  intros Hperm Hnodup H1.
  pose proof (for_each_store_converts _ _ _ H1) as Hconv. rewrite Hperm in Hconv.
  destruct (for_each_store_total _ ∅ Hconv) as [d2 H2].
  unfold parse_message at 1. cbn zeta. rewrite H2. f_equal.
  apply map_eq. intros name.
  pose proof (parse_message_lookup _ _ name H1) as L1.
  pose proof (parse_message_lookup _ _ name H2) as L2.
  rewrite (last_match_permutation name _ _ Hperm Hnodup) in L1.
  destruct (last_match name (findall m2)) as [[k v]|]; [|congruence].
  destruct L1 as (x1 & E1 & D1), L2 as (x2 & E2 & D2). congruence.
Qed.

End OrderFacts.

Section LetterRuns.
Context `{R : PyRuntime}.

Lemma signed_digits_letter c s :
  is_ascii_letter c = true → signed_digits (c :: s) = None.
Proof.
  intros Hc. unfold signed_digits. cbn [digit_run].
  rewrite (letter_not_decimal c Hc).
  destruct (Z.eqb_spec c (chr "-")) as [->|_]; [discriminate Hc|reflexivity].
Qed.

(** In a run of letters before a number only the last letter is a key. *)
Lemma findall_letter_run letters k s v rest :
  Forall (λ c, is_ascii_letter c = true) letters →
  is_ascii_letter k = true → signed_digits s = Some v → s = v ++ rest →
  findall (letters ++ k :: s) = (k, v) :: findall rest.
Proof.
  intros Hletters Hk Hv Hs. induction Hletters as [|c letters Hc Hl IH]; cbn [app].
  - apply findall_match; [apply match_at_intro; assumption|exact Hs].
  - rewrite findall_no_match; [exact IH|]. cbn [match_at]. rewrite Hc.
    destruct letters as [|c' letters]; cbn [app].
    + rewrite (signed_digits_letter k s Hk). reflexivity.
    + rewrite signed_digits_letter; [reflexivity|].
      inversion Hl; assumption.
Qed.

Lemma finditer_match message i k v :
  (i, (k, v)) ∈ finditer message → match_at (drop i message) = Some (k, v).
Proof.
  intros H. destruct (scan_elem _ _ _ _ _ _ H) as (j & -> & _ & Hm). exact Hm.
Qed.

End LetterRuns.

(** * Facts about the data file *)

Section StorageFacts.
Context `{R : PyRuntime}.

Lemma comprehension_app {A B} (elt : A → result B) l1 l2 r1 r2 :
  comprehension elt l1 = Ok r1 → comprehension elt l2 = Ok r2 →
  comprehension elt (l1 ++ l2) = Ok (r1 ++ r2).
Proof.
  revert r1. induction l1 as [|x l1 IH]; intros r1; cbn [comprehension app].
  - intros [= <-] H2. exact H2.
  - destruct (elt x) as [y|e]; [|discriminate]. cbn [mbind result_bind].
    destruct (comprehension elt l1) as [ys|e]; [|discriminate].
    cbn [mbind result_bind]. intros [= <-] H2.
    rewrite (IH ys eq_refl H2). reflexivity.
Qed.

Lemma comprehension_raise_app {A B} (elt : A → result B) l1 l2 l3 x e :
  comprehension elt l1 = Ok l3 → elt x = Raise e →
  comprehension elt (l1 ++ x :: l2) = Raise e.
Proof.
  revert l3. induction l1 as [|y l1 IH]; intros l3; cbn [comprehension app].
  - intros _ ->. reflexivity.
  - destruct (elt y) as [z|e']; [|discriminate]. cbn [mbind result_bind].
    destruct (comprehension elt l1) as [zs|e']; [|discriminate].
    intros _ Hx. rewrite (IH zs eq_refl Hx). reflexivity.
Qed.

(** [write_data_to_file] returns normally whatever happens. *)
Lemma write_data_to_file_returns file_path data fs :
  ∃ fs', write_data_to_file file_path data fs = (Ok tt, fs').
Proof.
  unfold write_data_to_file, try_except.
  match goal with |- context [match ?c with _ => _ end] => destruct c as [[[]|e] fs'] end;
    eauto.
Qed.

(** [read_data_from_file] returns a list whatever happens, and leaves
    the files as they are. *)
Lemma read_data_from_file_returns file_path fs :
  ∃ l, read_data_from_file file_path fs = (Ok l, fs).
Proof.
  unfold read_data_from_file, try_except, os_path_exists, open_reader.
  io_unfold. case_bool_decide as Hp; [|eauto].
  destruct (read_denied fs); [eauto|].
  destruct (files fs !! file_path) as [rows|]; cbn [or_raise]; [|eauto].
  destruct rows as [|header rows]; cbn [next]; [eauto|].
  destruct (comprehension decode_row rows); eauto.
Qed.

Lemma read_absent file_path fs :
  files fs !! file_path = None → read_data_from_file file_path fs = (Ok [], fs).
Proof.
  intros H. unfold read_data_from_file, try_except, os_path_exists.
  io_unfold. rewrite H.
  rewrite bool_decide_eq_false_2 by (intros [? [=]]). reflexivity.
Qed.

Lemma read_empty file_path fs :
  files fs !! file_path = Some [] → read_data_from_file file_path fs = (Ok [], fs).
Proof.
  intros H. unfold read_data_from_file, try_except, os_path_exists, open_reader.
  io_unfold. rewrite H.
  rewrite bool_decide_eq_true_2 by eauto. cbn beta iota. rewrite H.
  destruct (read_denied fs); reflexivity.
Qed.

Lemma read_rows file_path fs header rows :
  files fs !! file_path = Some (header :: rows) → read_denied fs = false →
  read_data_from_file file_path fs =
    (Ok (match comprehension decode_row rows with Ok l => l | Raise _ => [] end), fs).
Proof.
  intros H Hr. unfold read_data_from_file, try_except, os_path_exists, open_reader.
  io_unfold. rewrite H.
  rewrite bool_decide_eq_true_2 by eauto. cbn beta iota. rewrite H, Hr.
  cbn [or_raise next].
  destruct (comprehension decode_row rows); reflexivity.
Qed.

(** One undecodable row empties the whole load. *)
Lemma read_corrupt file_path fs header rows1 row rows2 l1 e :
  files fs !! file_path = Some (header :: rows1 ++ row :: rows2) →
  comprehension decode_row rows1 = Ok l1 → decode_row row = Raise e →
  read_data_from_file file_path fs = (Ok [], fs).
Proof.
  intros H H1 Hrow.
  destruct (read_denied fs) eqn:Hr.
  - unfold read_data_from_file, try_except, os_path_exists, open_reader.
    io_unfold. rewrite H.
    rewrite bool_decide_eq_true_2 by eauto. cbn beta iota. rewrite Hr. reflexivity.
  - rewrite (read_rows _ _ _ _ H Hr).
    rewrite (comprehension_raise_app _ _ _ _ _ _ H1 Hrow). reflexivity.
Qed.

Lemma csv_field_file_row m :
  printable m → comprehension csv_field (file_row m) = Ok (cells_of m).
Proof.
  intros (Hu & Hr). unfold file_row. cbn [comprehension csv_field].
  unfold py_str_int. rewrite !digit_limit_floor by assumption. reflexivity.
Qed.

Lemma wf_printable m : wf_measurement m → printable m.
Proof. intros (_ & _ & _ & Hu & Hr). split; assumption. Qed.

Lemma decode_file_row m :
  wf_measurement m → decode_row (cells_of m) = Ok (reloaded m).
Proof.
  intros (Ht & Hb & Hs & _). unfold decode_row, cells_of, getitem, py_strptime, py_float.
  cbn [lookup list_lookup or_raise mbind result_bind].
  rewrite (strptime_strftime _ Ht). cbn [or_raise mbind result_bind].
  rewrite (float_of_repr _ Hb). cbn [or_raise mbind result_bind].
  rewrite (float_of_repr _ Hs). cbn [or_raise mbind result_bind].
  rewrite !float_of_int_str. reflexivity.
Qed.

Lemma decode_cells ms :
  Forall wf_measurement ms →
  comprehension decode_row (cells_of <$> ms) = Ok (reloaded <$> ms).
Proof.
  induction 1 as [|m ms Hm _ IH]; [reflexivity|].
  rewrite !fmap_cons. cbn [comprehension].
  rewrite (decode_file_row m Hm). cbn [mbind result_bind]. rewrite IH. reflexivity.
Qed.

Lemma comprehension_raise_prefix {A B} (elt : A → result B) l1 l2 e :
  comprehension elt l1 = Raise e → comprehension elt (l1 ++ l2) = Raise e.
Proof.
  induction l1 as [|x l1 IH]; cbn [app comprehension]; [discriminate|].
  destruct (elt x) as [y|e']; cbn [mbind result_bind]; [|exact id].
  destruct (comprehension elt l1) as [ys|e'']; cbn [mbind result_bind]; [discriminate|].
  intros H. rewrite (IH H). reflexivity.
Qed.

Lemma comprehension_Forall2 {A B} (elt : A → result B) l r :
  comprehension elt l = Ok r ↔ Forall2 (λ x y, elt x = Ok y) l r.
Proof.
  revert r. induction l as [|x l IH]; intros r; cbn [comprehension].
  - split; [intros [= <-]; constructor|intros H; inversion H; reflexivity].
  - split.
    + destruct (elt x) as [y|e] eqn:Ex; cbn [mbind result_bind]; [|discriminate].
      destruct (comprehension elt l) as [ys|e]; cbn [mbind result_bind]; [|discriminate].
      intros [= <-]. constructor; [exact Ex|]. apply IH. reflexivity.
    + intros H. inversion H as [|x' y l' ys Hx Hl]; subst.
      rewrite Hx. cbn [mbind result_bind].
      apply IH in Hl. rewrite Hl. reflexivity.
Qed.

Lemma decode_row_shape row t :
  decode_row row = Ok t →
  ∃ d x1 x2 x3 x4, t = [PDatetime d; PFloat x1; PFloat x2; PFloat x3; PFloat x4].
Proof.
  unfold decode_row.
  repeat match goal with
         | |- context [mbind _ ?c] =>
             destruct c; cbn [mbind result_bind]; [|discriminate]
         end.
  intros [= <-]. eauto 6.
Qed.

Lemma read_refused file_path fs :
  read_denied fs = true → read_data_from_file file_path fs = (Ok [], fs).
Proof.
  intros Hr. unfold read_data_from_file, try_except, os_path_exists, open_reader.
  io_unfold. destruct (bool_decide (is_Some (files fs !! file_path))); [|reflexivity].
  rewrite Hr. reflexivity.
Qed.

Lemma read_store fs old :
  read_denied fs = false → store_holds fs old →
  read_data_from_file data_file fs = (Ok old, fs).
Proof.
  intros Hr [[Hnone ->]|(header & rows & Hsome & Hold)].
  - apply read_absent, Hnone.
  - rewrite (read_rows _ _ _ _ Hsome Hr), Hold. reflexivity.
Qed.

(** ** A last row without its newline *)

Lemma open_row_absent path fs : files fs !! path = None → open_row path fs = None.
Proof. unfold open_row. intros ->. destruct (bool_decide _); reflexivity. Qed.

Lemma open_row_empty path fs : files fs !! path = Some [] → open_row path fs = None.
Proof. unfold open_row. intros ->. destruct (bool_decide _); reflexivity. Qed.

Lemma open_row_terminated path fs : path ∉ unterminated fs → open_row path fs = None.
Proof. intros H. unfold open_row. rewrite bool_decide_eq_false_2 by exact H. reflexivity. Qed.

Lemma open_row_Some path fs t :
  open_row path fs = Some t →
  path ∈ unterminated fs ∧ ∃ rows, files fs !! path = Some (rows ++ [t]).
Proof.
  unfold open_row. case_bool_decide as Hin; [|discriminate].
  destruct (files fs !! path) as [rows|]; cbn [mbind option_bind]; [|discriminate].
  intros Hlast. apply last_Some in Hlast as [rows' ->]. eauto.
Qed.

Lemma rows_after_closed path fs rows :
  open_row path fs = None →
  rows_after path fs rows = default [] (files fs !! path) ++ rows.
Proof. unfold rows_after. intros ->. reflexivity. Qed.

Lemma settled_closed path fs :
  open_row path fs = None → settled path fs = default [] (files fs !! path).
Proof. unfold settled. intros ->. reflexivity. Qed.

Lemma settled_open path fs t :
  open_row path fs = Some t → default [] (files fs !! path) = settled path fs ++ [t].
Proof.
  intros H. unfold settled. rewrite H.
  destruct (open_row_Some _ _ _ H) as (_ & rows & ->). cbn [default id].
  rewrite removelast_last. reflexivity.
Qed.

(** The rows of a file are its settled rows and at most one more. *)
Lemma settled_rows path fs rows :
  files fs !! path = Some rows → ∃ tail, rows = settled path fs ++ tail.
Proof.
  intros Hf. destruct (open_row path fs) as [t|] eqn:E.
  - exists [t]. rewrite <- (settled_open _ _ _ E), Hf. reflexivity.
  - exists []. rewrite (settled_closed _ _ E), Hf, app_nil_r. reflexivity.
Qed.

Lemma rows_after_settled path fs rows :
  ∃ extra, rows_after path fs rows = settled path fs ++ extra.
Proof.
  unfold rows_after. destruct (open_row path fs) as [t|] eqn:E.
  - pose proof (settled_open _ _ _ E) as Hcur.
    assert (Hinit : removelast (default [] (files fs !! path)) = settled path fs).
    { rewrite Hcur, removelast_last. reflexivity. }
    destruct rows as [|r rows']; [exists [t]; rewrite app_nil_r; exact Hcur|].
    rewrite Hinit. eauto.
  - rewrite (settled_closed _ _ E). destruct rows; eauto.
Qed.

Lemma rows_after_one path fs r :
  ∃ r', rows_after path fs [r] = settled path fs ++ [r'].
Proof.
  unfold rows_after. destruct (open_row path fs) as [t|] eqn:E.
  - rewrite (settled_open _ _ _ E), removelast_last. eauto.
  - rewrite (settled_closed _ _ E). eauto.
Qed.

(** ** Writes only append *)

Lemma only_appends_refl path fs : only_appends path fs fs.
Proof.
  split; [intros p _; split; reflexivity|].
  split; [exact id|]. split; [exists []; symmetry; apply app_nil_r|].
  repeat split; reflexivity.
Qed.

Lemma only_appends_trans path fs1 fs2 fs3 :
  only_appends path fs1 fs2 → only_appends path fs2 fs3 → only_appends path fs1 fs3.
Proof.
  intros (Ho1 & Hp1 & [e1 Hs1] & Hr1 & Hw1 & Hf1 & Hc1)
         (Ho2 & Hp2 & [e2 Hs2] & Hr2 & Hw2 & Hf2 & Hc2).
  split.
  { intros p Hp. destruct (Ho1 p Hp) as [Ha Hb], (Ho2 p Hp) as [Hc Hd].
    split; [congruence|tauto]. }
  split; [auto|]. split; [exists (e1 ++ e2); rewrite Hs2, Hs1, app_assoc; reflexivity|].
  repeat split; try congruence. lia.
Qed.

Lemma append_row_only_appends path cells fs :
  only_appends path fs (append_row path cells fs).2.
Proof.
  unfold append_row. destruct (free_rows fs) as [|n] eqn:En; cbn [snd].
  - destruct (cut fs cells) as [|c part] eqn:Ec; [apply only_appends_refl|].
    destruct (rows_after_one path fs (c :: part)) as [r' Hr'].
    split.
    { intros p Hp. cbn [files unterminated].
      split; [apply lookup_insert_ne; congruence|in_set]. }
    split; [intros _; cbn [files]; rewrite lookup_insert_eq; eauto|].
    split.
    { exists []. rewrite app_nil_r. unfold settled at 1, open_row. cbn [files unterminated].
      rewrite bool_decide_eq_true_2 by in_set.
      rewrite lookup_insert_eq. cbn [mbind option_bind default id].
      rewrite Hr', last_snoc, removelast_last. reflexivity. }
    cbn [read_denied write_denied free_rows cut]. repeat split; lia.
  - destruct (rows_after_settled path fs (rows_written cells)) as [extra Hextra].
    split.
    { intros p Hp. cbn [files unterminated].
      split; [apply lookup_insert_ne; congruence|in_set]. }
    split; [intros _; cbn [files]; rewrite lookup_insert_eq; eauto|].
    split.
    { exists extra. rewrite <- Hextra. rewrite settled_closed.
      - cbn [files]. rewrite lookup_insert_eq. reflexivity.
      - apply open_row_terminated. cbn [unterminated]. in_set. }
    cbn [read_denied write_denied free_rows cut]. repeat split; lia.
Qed.

Lemma writerow_only_appends path row fs :
  only_appends path fs (writerow path row fs).2.
Proof.
  unfold writerow. io_unfold.
  destruct (comprehension csv_field row) as [cells|e]; cbn [snd];
    [apply append_row_only_appends|apply only_appends_refl].
Qed.

Lemma io_for_each_only_appends path rows fs :
  only_appends path fs (io_for_each (writerow path) rows fs).2.
Proof.
  revert fs. induction rows as [|row rows IH]; intros fs; [apply only_appends_refl|].
  cbn [io_for_each]. io_unfold.
  pose proof (writerow_only_appends path row fs) as H1.
  destruct (writerow path row fs) as [[[]|e] fs1]; cbn [snd] in *; [|exact H1].
  exact (only_appends_trans _ _ _ _ H1 (IH fs1)).
Qed.

Lemma open_row_open_append path fs fs' :
  open_append path fs = (Ok tt, fs') → open_row path fs' = open_row path fs.
Proof.
  unfold open_append. destruct (write_denied fs); [discriminate|]. intros [= <-].
  unfold open_row. cbn [files unterminated]. rewrite lookup_insert_eq.
  destruct (bool_decide _); [|reflexivity].
  destruct (files fs !! path); reflexivity.
Qed.

Lemma open_append_only_appends path fs fs' :
  open_append path fs = (Ok tt, fs') → only_appends path fs fs'.
Proof.
  intros Hopen. pose proof (open_row_open_append _ _ _ Hopen) as Hrow.
  unfold open_append in Hopen. destruct (write_denied fs) eqn:Hw; [discriminate|].
  injection Hopen as <-.
  split.
  { intros p Hp. cbn [files unterminated].
    split; [apply lookup_insert_ne; congruence|reflexivity]. }
  split; [intros _; cbn [files]; rewrite lookup_insert_eq; eauto|].
  split.
  { exists []. rewrite app_nil_r. unfold settled. rewrite Hrow.
    cbn [files]. rewrite lookup_insert_eq. cbn [default id].
    destruct (open_row path fs); reflexivity. }
  cbn [read_denied write_denied free_rows cut]. rewrite Hw. repeat split. lia.
Qed.

Lemma write_data_to_file_only_appends path data fs :
  only_appends path fs (write_data_to_file path data fs).2.
Proof.
  unfold write_data_to_file, try_except, os_path_isfile, os_path_exists. io_unfold.
  destruct (open_append path fs) as [[[]|e] fs1] eqn:Eopen.
  - pose proof (open_append_only_appends _ _ _ Eopen) as H1.
    assert (H2 : ∀ (c : io unit), only_appends path fs1 (c fs1).2 →
              only_appends path fs
                (match (match c fs1 with
                        | (Ok _, fs') => io_for_each (writerow path) data fs'
                        | (Raise e, fs') => (Raise e, fs')
                        end) with
                 | (Ok a, fs') => (Ok a, fs')
                 | (Raise _, fs') => (Ok tt, fs')
                 end).2).
    { intros c Hc. apply (only_appends_trans _ _ _ _ H1).
      destruct (c fs1) as [[[]|e] fs2]; cbn [snd] in Hc.
      - pose proof (io_for_each_only_appends path data fs2) as H3.
        destruct (io_for_each (writerow path) data fs2) as [[[]|e] fs3];
          cbn [snd] in *; exact (only_appends_trans _ _ _ _ Hc H3).
      - exact Hc. }
    destruct (bool_decide (is_Some (files fs !! path))).
    + apply (H2 (λ fs, (Ok tt, fs))). apply only_appends_refl.
    + apply (H2 (writerow path HEADER)). apply writerow_only_appends.
  - cbn [snd]. unfold open_append in Eopen.
    destruct (write_denied fs); [|discriminate].
    injection Eopen as _ <-. apply only_appends_refl.
Qed.

(** When the last row has its newline, the rows the file holds stay. *)
Lemma only_appends_keeps path fs fs' current :
  open_row path fs = None → files fs !! path = Some current →
  only_appends path fs fs' →
  ∃ extra, files fs' !! path = Some (current ++ extra).
Proof.
  intros Hclosed Hfile (_ & Hsome & [extra Hs] & _).
  destruct (Hsome ltac:(eauto)) as [rows' Hfile'].
  rewrite (settled_closed _ _ Hclosed), Hfile in Hs. cbn [default id] in Hs.
  destruct (settled_rows _ _ _ Hfile') as [tail ->].
  rewrite Hs, <- app_assoc in Hfile'. eauto.
Qed.

(** ** Writing with room on the device *)

Lemma write_rows ms fs current :
  crlf_text_mode = false → Forall printable ms →
  files fs !! data_file = Some current → open_row data_file fs = None →
  (length ms ≤ free_rows fs)%nat →
  ∃ fs', io_for_each (writerow data_file) (file_row <$> ms) fs = (Ok tt, fs') ∧
         files fs' !! data_file = Some (current ++ (cells_of <$> ms)) ∧
         open_row data_file fs' = None ∧
         read_denied fs' = read_denied fs ∧ write_denied fs' = write_denied fs ∧
         free_rows fs' = (free_rows fs - length ms)%nat.
Proof.
  intros Hcrlf Hms. revert fs current.
  induction Hms as [|m ms Hm _ IH]; intros fs current Hfile Hclosed Hfree.
  - exists fs. rewrite app_nil_r. cbn [fmap list_fmap length].
    repeat split; try assumption. lia.
  - rewrite !fmap_cons. cbn [io_for_each]; io_unfold.
    unfold writerow at 1, lift. io_unfold.
    rewrite (csv_field_file_row m Hm). unfold append_row, rows_written.
    rewrite Hcrlf, (rows_after_closed _ _ _ Hclosed), Hfile. cbn [length] in Hfree.
    destruct (free_rows fs) as [|n] eqn:En; [lia|]. cbn [default id].
    match goal with |- context [io_for_each _ _ ?fs1] => set (fs1' := fs1) end.
    destruct (IH fs1' (current ++ [cells_of m])) as (fs' & Hw & Hf & Hc & Hr & Hwd & Hfr).
    + apply lookup_insert_eq.
    + apply open_row_terminated. unfold fs1'. cbn [unterminated]. in_set.
    + unfold fs1'. cbn [free_rows]. lia.
    + exists fs'. rewrite Hw. split; [reflexivity|].
      split; [rewrite Hf, <- app_assoc; reflexivity|].
      split; [exact Hc|]. split; [exact Hr|]. split; [exact Hwd|].
      rewrite Hfr. unfold fs1'. cbn [free_rows length]. lia.
Qed.

(** What the file holds after [write_data_to_file] when the store takes
    the rows. *)
Lemma write_file ms fs :
  crlf_text_mode = false → write_denied fs = false → Forall printable ms →
  open_row data_file fs = None →
  (length ms + match files fs !! data_file with Some _ => 0 | None => 1 end
   ≤ free_rows fs)%nat →
  ∃ fs',
    write_data_to_file data_file (file_row <$> ms) fs = (Ok tt, fs') ∧
    files fs' !! data_file
      = Some (match files fs !! data_file with
              | Some current => current ++ (cells_of <$> ms)
              | None => HEADER_CELLS :: (cells_of <$> ms)
              end) ∧
    open_row data_file fs' = None ∧
    read_denied fs' = read_denied fs ∧ write_denied fs' = false ∧
    (free_rows fs ≤ free_rows fs' + length ms + 1)%nat.
Proof.
  intros Hcrlf Hw Hms Hclosed Hfree.
  destruct (open_append data_file fs) as [r0 fs0] eqn:Eopen.
  assert (r0 = Ok tt) as ->.
  { unfold open_append in Eopen. rewrite Hw in Eopen. congruence. }
  pose proof (open_row_open_append _ _ _ Eopen) as Hrow0. rewrite Hclosed in Hrow0.
  assert (Hfs0 : files fs0 !! data_file = Some (default [] (files fs !! data_file)) ∧
                 read_denied fs0 = read_denied fs ∧ write_denied fs0 = false ∧
                 free_rows fs0 = free_rows fs).
  { unfold open_append in Eopen. rewrite Hw in Eopen. injection Eopen as <-.
    cbn [files read_denied write_denied free_rows]. rewrite lookup_insert_eq.
    repeat split. }
  destruct Hfs0 as (Hf0 & Hr0 & Hw0 & Hfree0).
  unfold write_data_to_file, try_except, os_path_isfile, os_path_exists.
  io_unfold. rewrite Eopen.
  destruct (files fs !! data_file) as [current|] eqn:Hfile.
  - rewrite bool_decide_eq_true_2 by eauto. cbn [default id] in Hf0.
    destruct (write_rows ms fs0 current Hcrlf Hms Hf0 Hrow0 ltac:(lia))
      as (fs' & Hwr & Hf & Hc & Hr & Hwd & Hfr).
    rewrite Hwr. exists fs'. split; [reflexivity|]. split; [exact Hf|].
    split; [exact Hc|]. split; [congruence|]. split; [congruence|]. lia.
  - rewrite bool_decide_eq_false_2 by (intros [? [=]]). cbn [default id] in Hf0.
    unfold writerow at 1. io_unfold.
    change (comprehension csv_field HEADER) with (Ok (A := csvrow) HEADER_CELLS).
    unfold append_row, rows_written.
    rewrite Hcrlf, (rows_after_closed _ _ _ Hrow0), Hf0. cbn [default id app].
    destruct (free_rows fs0) as [|n] eqn:En; [lia|].
    match goal with |- context [io_for_each _ _ ?fs1] => set (fs1' := fs1) end.
    destruct (write_rows ms fs1' [HEADER_CELLS] Hcrlf Hms (lookup_insert_eq _ _ _))
      as (fs' & Hwr & Hf & Hc & Hr & Hwd & Hfr).
    + apply open_row_terminated. unfold fs1'. cbn [unterminated]. in_set.
    + unfold fs1'. cbn [free_rows]. lia.
    + rewrite Hwr. exists fs'. split; [reflexivity|]. split; [exact Hf|].
      split; [exact Hc|]. unfold fs1' in Hr, Hwd, Hfr.
      cbn [read_denied write_denied free_rows] in Hr, Hwd, Hfr.
      split; [congruence|]. split; [congruence|]. lia.
Qed.

(** A write with room to spare extends what the store holds. *)
Lemma write_extends_store ms fs old :
  crlf_text_mode = false → write_denied fs = false →
  (length ms < free_rows fs)%nat → Forall wf_measurement ms →
  store_holds fs old → open_row data_file fs = None →
  ∃ fs',
    write_data_to_file data_file (file_row <$> ms) fs = (Ok tt, fs') ∧
    store_holds fs' (old ++ (reloaded <$> ms)) ∧ open_row data_file fs' = None ∧
    read_denied fs' = read_denied fs ∧ write_denied fs' = false ∧
    (free_rows fs ≤ free_rows fs' + length ms + 1)%nat.
Proof.
  intros Hcrlf Hw Hfree Hms Hstore Hclosed.
  destruct (write_file ms fs Hcrlf Hw (Forall_impl _ _ _ Hms wf_printable) Hclosed
              ltac:(destruct (files fs !! data_file); lia))
    as (fs' & Hwr & Hf & Hc & Hr & Hwd & Hfr).
  exists fs'. split; [exact Hwr|].
  split; [|split; [exact Hc|split; [exact Hr|split; [exact Hwd|exact Hfr]]]].
  right. destruct Hstore as [[Hnone ->]|(header & rows & Hsome & Hold)].
  - rewrite Hnone in Hf.
    exists HEADER_CELLS, (cells_of <$> ms). split; [exact Hf|]. apply decode_cells, Hms.
  - rewrite Hsome in Hf.
    exists header, (rows ++ (cells_of <$> ms)). split; [exact Hf|].
    apply comprehension_app; [exact Hold|apply decode_cells, Hms].
Qed.

Lemma write_refused file_path data fs :
  write_denied fs = true → write_data_to_file file_path data fs = (Ok tt, fs).
Proof.
  intros Hw. unfold write_data_to_file, try_except, os_path_isfile, os_path_exists,
    open_append. io_unfold. rewrite Hw. reflexivity.
Qed.

(** ** What a later load meets *)

(** A row with its newline that does not decode stays in the way of
    every later load. *)
Lemma read_after_appends fs fs' header rows e :
  settled data_file fs = header :: rows →
  comprehension decode_row rows = Raise e →
  only_appends data_file fs fs' →
  read_data_from_file data_file fs' = (Ok [], fs').
Proof.
  intros Hsettled Hrows (_ & Hsome & [extra Hs] & _).
  assert (Hfile : is_Some (files fs !! data_file)).
  { destruct (files fs !! data_file) eqn:E; [eauto|].
    rewrite (settled_closed _ _ (open_row_absent _ _ E)), E in Hsettled. discriminate. }
  destruct (Hsome Hfile) as [rows' Hfile'].
  destruct (settled_rows _ _ _ Hfile') as [tail ->].
  rewrite Hs, Hsettled in Hfile'.
  destruct (read_denied fs') eqn:Hr; [apply read_refused, Hr|].
  change (((header :: rows) ++ extra) ++ tail)
    with (header :: ((rows ++ extra) ++ tail)) in Hfile'.
  rewrite (read_rows _ _ _ _ Hfile' Hr), <- app_assoc.
  rewrite (comprehension_raise_prefix _ _ _ _ Hrows). reflexivity.
Qed.

(** With CR LF text mode the header is followed by an empty row. *)
Lemma crlf_write_file fs data :
  crlf_text_mode = true → write_denied fs = false →
  files fs !! data_file = None → (0 < free_rows fs)%nat →
  ∃ fs' rows,
    write_data_to_file data_file data fs = (Ok tt, fs') ∧
    settled data_file fs' = HEADER_CELLS :: [] :: rows.
Proof.
  intros Hcrlf Hw Hnone Hfree.
  destruct (open_append data_file fs) as [r0 fs0] eqn:Eopen.
  assert (r0 = Ok tt) as ->.
  { unfold open_append in Eopen. rewrite Hw in Eopen. congruence. }
  pose proof (open_row_open_append _ _ _ Eopen) as Hrow0.
  rewrite (open_row_absent _ _ Hnone) in Hrow0.
  assert (Hfs0 : files fs0 !! data_file = Some [] ∧ free_rows fs0 = free_rows fs).
  { unfold open_append in Eopen. rewrite Hw in Eopen. injection Eopen as <-.
    cbn [files free_rows]. rewrite lookup_insert_eq, Hnone. split; reflexivity. }
  destruct Hfs0 as [Hf0 Hfree0].
  unfold write_data_to_file, try_except, os_path_isfile, os_path_exists.
  io_unfold. rewrite Eopen, Hnone.
  rewrite bool_decide_eq_false_2 by (intros [? [=]]).
  unfold writerow at 1. io_unfold.
  change (comprehension csv_field HEADER) with (Ok (A := csvrow) HEADER_CELLS).
  unfold append_row, rows_written.
  rewrite Hcrlf, (rows_after_closed _ _ _ Hrow0), Hf0. cbn [default id app].
  destruct (free_rows fs0) as [|n]; [lia|].
  match goal with |- context [io_for_each _ _ ?fs1] => set (fs1' := fs1) end.
  assert (Hclosed1 : open_row data_file fs1' = None).
  { apply open_row_terminated. unfold fs1'. cbn [unterminated]. in_set. }
  destruct (io_for_each_only_appends data_file data fs1') as (_ & _ & [extra Hs] & _).
  rewrite (settled_closed _ _ Hclosed1) in Hs.
  unfold fs1' in Hs at 2. cbn [files] in Hs. rewrite lookup_insert_eq in Hs.
  cbn [default id app] in Hs.
  destruct (io_for_each (writerow data_file) data fs1') as [[[]|e] fs2]; cbn [snd] in Hs;
    exists fs2, extra; (split; [reflexivity|exact Hs]).
Qed.

(** Where text mode turns newlines into CR LF, a store the program made
    never loads again: behind the header the reader meets an empty row. *)
Lemma crlf_store_never_reloads fs data :
  crlf_text_mode = true → write_denied fs = false →
  files fs !! data_file = None → (0 < free_rows fs)%nat →
  ∃ fs', (write_data_to_file data_file data;; read_data_from_file data_file) fs
         = (Ok [], fs').
Proof.
  intros Hcrlf Hw Hnone Hfree.
  destruct (crlf_write_file fs data Hcrlf Hw Hnone Hfree) as (fs' & rows & Hwr & Hs).
  exists fs'. io_unfold. rewrite Hwr.
  apply (read_after_appends fs' fs' HEADER_CELLS ([] :: rows) IndexError Hs);
    [reflexivity|apply only_appends_refl].
Qed.

Lemma delete_data_steps fs :
  MainWindow.delete_data fs =
    match files fs !! data_file with
    | None => (Ok tt, fs)
    | Some _ =>
        if write_denied fs then (Raise OSError, fs)
        else (Ok tt, mk_fs (delete data_file (files fs)) (read_denied fs)
                           (write_denied fs) (free_rows fs)
                           (unterminated fs ∖ {[data_file]}) (cut fs))
    end.
Proof.
  unfold MainWindow.delete_data, os_path_exists, os_remove. io_unfold.
  destruct (files fs !! data_file) as [rows|] eqn:E.
  - rewrite bool_decide_eq_true_2 by eauto. rewrite E. reflexivity.
  - rewrite bool_decide_eq_false_2 by (intros [? [=]]). reflexivity.
Qed.

End StorageFacts.

(** * The keys and the kinds of the fields *)

Section MappingShape.
Context `{R : PyRuntime}.

Lemma last_match_is_Some name ms :
  is_Some (last_match name ms) ↔ ∃ k v, (k, v) ∈ ms ∧ field_map !! k = Some name.
Proof.
  unfold last_match, matches_for. split.
  - intros [[k v] H]. apply last_Some_elem_of, list_elem_of_filter in H as [Hk Hin].
    exists k, v. split; assumption.
  - intros (k & v & Hin & Hk).
    destruct (filter _ ms) as [|m l] eqn:E.
    + exfalso. apply (filter_nil_not_elem_of _ _ (k, v) E); assumption.
    + destruct (last (m :: l)) as [m'|] eqn:El; [eauto|].
      apply last_None in El. discriminate.
Qed.

Lemma last_match_key name ms k v :
  last_match name ms = Some (k, v) → (k, v) ∈ ms ∧ field_map !! k = Some name.
Proof.
  unfold last_match, matches_for. intros H.
  apply last_Some_elem_of, list_elem_of_filter in H as [Hk Hin]. split; assumption.
Qed.

Lemma parse_message_present message d name :
  parse_message message = Ok d →
  (is_Some (d !! name) ↔
   ∃ k v, (k, v) ∈ findall message ∧ field_map !! k = Some name).
Proof.
  intros Hd. pose proof (parse_message_lookup _ _ name Hd) as Hl.
  rewrite <- last_match_is_Some.
  destruct (last_match name (findall message)) as [[k v]|].
  - destruct Hl as (x & _ & ->). split; eauto.
  - rewrite Hl. split; intros [? [=]].
Qed.

Lemma field_value_kind k v x name :
  field_map !! k = Some name → field_value k v = Ok x →
  match x with
  | PFloat _ => name = "battery_voltage"%string ∨ name = "solar_voltage"%string
  | PInt _ =>
      name ∈ ["sensor_id"; "msg_count"; "ultrasonic_range"; "rssi";
              "signal_to_noise_ratio"]%string
  | _ => False
  end.
Proof.
  rewrite field_map_lookup. unfold field_value, truediv_milli.
  destruct (py_int v) as [n|]; cbn [mbind result_bind].
  - destruct (Z.eqb_spec k (chr "V")) as [->|HV].
    { intros [= <-]. cbn [bool_decide orb]. rewrite bool_decide_eq_true_2 by reflexivity.
      cbn [orb]. destruct (float_of_int n); cbn; intros [= <-]. left. reflexivity. }
    destruct (Z.eqb_spec k (chr "s")) as [->|Hs].
    { intros [= <-]. rewrite (bool_decide_eq_true_2 (chr "s" = chr "s")) by reflexivity.
      rewrite orb_true_r. destruct (float_of_int n); cbn; intros [= <-].
      right. reflexivity. }
    rewrite !bool_decide_eq_false_2 by assumption. cbn [orb].
    repeat match goal with
           | |- context [?a =? ?b] => destruct (Z.eqb_spec a b) as [->|?]
           end; intros [= <-] [= <-]; set_solver.
  - destruct (_ || _); discriminate.
Qed.

Lemma parse_message_kinds (message : pystr) (d : gmap string pyval)
    (name : string) (x : pyval) :
  parse_message message = Ok d → d !! name = Some x →
  (name ∈ ["battery_voltage"; "solar_voltage"]%string ∧ ∃ f, x = PFloat f) ∨
  (name ∈ ["sensor_id"; "msg_count"; "ultrasonic_range"; "rssi";
           "signal_to_noise_ratio"]%string ∧ ∃ n, x = PInt n).
Proof.
  intros Hd Hx. pose proof (parse_message_lookup _ _ name Hd) as Hl.
  destruct (last_match name (findall message)) as [[k v]|] eqn:El;
    [|rewrite Hl in Hx; discriminate].
  destruct Hl as (x' & Hv & Hx'). rewrite Hx in Hx'. injection Hx' as <-.
  destruct (last_match_key _ _ _ _ El) as [_ Hk].
  pose proof (field_value_kind _ _ _ _ Hk Hv) as Hkind.
  destruct x as [n|f|?|?]; try contradiction.
  - right. split; [exact Hkind|eauto].
  - left. split; [|eauto]. destruct Hkind as [->| ->]; set_solver.
Qed.

End MappingShape.

(** * Facts about the reader thread *)

Section ThreadFacts.
Context `{R : PyRuntime}.
Import SerialReaderThread.

(** The test of the pre-filter never raises: the first character is only
    looked at in lines of ten characters and more. *)
Lemma skip_frame_decide decoded_line :
  skip_frame decoded_line = Ok (bool_decide (filtered_out decoded_line)).
Proof.
  unfold skip_frame, filtered_out, getitem.
  destruct (Nat.ltb_spec (length decoded_line) 10) as [Hshort|Hlong].
  - rewrite bool_decide_eq_true_2 by (left; exact Hshort). reflexivity.
  - destruct decoded_line as [|c line]; [cbn in Hlong; lia|].
    cbn [lookup list_lookup or_raise mbind result_bind].
    destruct (Z.eqb_spec c (chr "S")) as [->|Hc]; cbn [negb].
    + f_equal. destruct (Nat.ltb_spec 40 (length (chr "S" :: line))) as [H40|H40].
      * rewrite bool_decide_eq_true_2 by (right; left; exact H40). reflexivity.
      * rewrite bool_decide_eq_false_2; [reflexivity|].
        intros [?|[?|Hne]]; [lia|lia|]. apply Hne. reflexivity.
    + rewrite bool_decide_eq_true_2; [reflexivity|].
      right; right. intros [= ->]. apply Hc. reflexivity.
Qed.

Lemma parsed_fields_filtered decoded_line :
  filtered_out decoded_line → parsed_fields decoded_line = Ok None.
Proof.
  intros H. unfold parsed_fields. rewrite skip_frame_decide.
  rewrite bool_decide_eq_true_2 by exact H. reflexivity.
Qed.

Lemma parsed_fields_candidate decoded_line :
  ¬ filtered_out decoded_line →
  parsed_fields decoded_line =
    (parsed_data ← parse_message decoded_line; Ok (Some parsed_data)).
Proof.
  intros H. unfold parsed_fields. rewrite skip_frame_decide.
  rewrite bool_decide_eq_false_2 by exact H. reflexivity.
Qed.

(** The frames that pass the pre-filter are short enough to convert. *)
Lemma candidate_parses decoded_line :
  ¬ filtered_out decoded_line → ∃ d, parse_message decoded_line = Ok d.
Proof.
  intros H. apply parse_message_safe. unfold filtered_out, SAFE_DIGITS in *. lia.
Qed.

Lemma parsed_fields_returns decoded_line :
  ∃ fields, parsed_fields decoded_line = Ok fields.
Proof.
  destruct (decide (filtered_out decoded_line)) as [H|H].
  - rewrite (parsed_fields_filtered _ H). eauto.
  - rewrite (parsed_fields_candidate _ H).
    destruct (candidate_parses _ H) as [d ->]. eauto.
Qed.

Lemma iteration_rejects t_recv t_accept decoded_line data fs fields :
  parsed_fields decoded_line = Ok fields →
  ¬ complete fields →
  iteration t_recv t_accept decoded_line data fs
  = (Ok (data, [received t_recv decoded_line]), fs).
Proof.
  intros Hf Hno. unfold iteration. io_unfold. rewrite Hf.
  destruct fields as [d|]; [|reflexivity].
  destruct (d !! "battery_voltage"%string) as [b|] eqn:Eb; [|reflexivity].
  destruct (d !! "solar_voltage"%string) as [s|] eqn:Es; [|reflexivity].
  destruct (d !! "ultrasonic_range"%string) as [u|] eqn:Eu; [|reflexivity].
  destruct (d !! "rssi"%string) as [r|] eqn:Er; [|reflexivity].
  exfalso. apply Hno. exists d. unfold has_required.
  rewrite Eb, Es, Eu, Er. eauto 10.
Qed.

Lemma iteration_accepts t_recv t_accept decoded_line data fs d b s u r :
  parsed_fields decoded_line = Ok (Some d) →
  d !! "battery_voltage"%string = Some b → d !! "solar_voltage"%string = Some s →
  d !! "ultrasonic_range"%string = Some u → d !! "rssi"%string = Some r →
  let data' := data ++ [[PDatetime t_accept; b; s; u; r]] in
  iteration t_recv t_accept decoded_line data fs
  = (Ok (data', [received t_recv decoded_line; data_updated data']),
     snd (write_data_to_file data_file [[PStr (strftime t_accept); b; s; u; r]] fs)).
Proof.
  intros Hf Eb Es Eu Er data'. unfold iteration. io_unfold. rewrite Hf, Eb, Es, Eu, Er.
  destruct (write_data_to_file_returns data_file
              [[PStr (strftime t_accept); b; s; u; r]] fs) as [fs' ->].
  reflexivity.
Qed.

(** A turn that leaves the list as it was met fields that were not
    complete. *)
Lemma iteration_rejects_only t_recv t_accept decoded_line data fs fields fs' :
  parsed_fields decoded_line = Ok fields →
  iteration t_recv t_accept decoded_line data fs
  = (Ok (data, [received t_recv decoded_line]), fs') →
  ¬ complete fields.
Proof.
  intros Hf Hit (d & -> & [b Eb] & [s Es] & [u Eu] & [r Er]).
  rewrite (iteration_accepts _ _ _ _ _ _ _ _ _ _ Hf Eb Es Eu Er) in Hit.
  injection Hit as Hd _ _. apply (f_equal length) in Hd.
  rewrite length_app in Hd. cbn in Hd. lia.
Qed.

(** The list only grows, at its end. *)
Lemma iteration_extends t_recv t_accept decoded_line data fs data' emitted fs' :
  iteration t_recv t_accept decoded_line data fs = (Ok (data', emitted), fs') →
  data' = data ∨ ∃ m, data' = data ++ [m].
Proof.
  destruct (parsed_fields_returns decoded_line) as [fields Hf].
  destruct (decide (complete fields)) as [Hyes|Hno].
  - destruct Hyes as (d & -> & [b Eb] & [s Es] & [u Eu] & [r Er]).
    rewrite (iteration_accepts _ _ _ _ _ _ _ _ _ _ Hf Eb Es Eu Er).
    intros [= <- _ _]. eauto.
  - rewrite (iteration_rejects _ _ _ _ _ _ Hf Hno). intros [= <- _ _]. eauto.
Qed.

Lemma iteration_returns t_recv t_accept decoded_line data fs :
  ∃ out fs', iteration t_recv t_accept decoded_line data fs = (Ok out, fs').
Proof.
  destruct (parsed_fields_returns decoded_line) as [fields Hf].
  destruct (decide (complete fields)) as [Hyes|Hno].
  - destruct Hyes as (d & -> & [b Eb] & [s Es] & [u Eu] & [r Er]).
    rewrite (iteration_accepts _ _ _ _ _ _ _ _ _ _ Hf Eb Es Eu Er). eauto.
  - rewrite (iteration_rejects _ _ _ _ _ _ Hf Hno). eauto.
Qed.

Lemma loop_extends lines data fs :
  ∃ added emitted fs',
    loop lines data fs = (Ok (data ++ added, emitted), fs') ∧
    (length added ≤ length lines)%nat.
Proof.
  revert data fs. induction lines as [|[[t_recv t_accept] line] lines IH]; intros data fs.
  - exists [], [], fs. rewrite app_nil_r. split; [reflexivity|cbn; lia].
  - cbn [loop]. io_unfold.
    destruct (iteration_returns t_recv t_accept line data fs) as ([data1 em1] & fs1 & H1).
    rewrite H1.
    destruct (IH data1 fs1) as (added & em2 & fs2 & H2 & Hlen). rewrite H2.
    destruct (iteration_extends _ _ _ _ _ _ _ _ H1) as [->|[m ->]].
    + exists added, (em1 ++ em2), fs2. split; [reflexivity|cbn; lia].
    + exists (m :: added), (em1 ++ em2), fs2. rewrite <- app_assoc.
      split; [reflexivity|cbn; lia].
Qed.

Lemma run_returns lines fs :
  ∃ out fs', run lines fs = (Ok out, fs').
Proof.
  unfold run. io_unfold.
  destruct (read_data_from_file_returns data_file fs) as [data ->].
  destruct (loop_extends lines data fs) as (added & emitted & fs' & -> & _). eauto.
Qed.

Lemma parsed_fields_parse line d :
  parsed_fields line = Ok (Some d) → ¬ filtered_out line ∧ parse_message line = Ok d.
Proof.
  destruct (decide (filtered_out line)) as [Hf|Hf].
  - rewrite (parsed_fields_filtered _ Hf). discriminate.
  - rewrite (parsed_fields_candidate _ Hf).
    destruct (parse_message line) as [d'|e]; cbn [mbind result_bind]; [|discriminate].
    intros [= ->]. split; [exact Hf|reflexivity].
Qed.

Lemma field_value_int k v n : field_value k v = Ok (PInt n) → py_int v = Ok n.
Proof.
  unfold field_value. destruct (_ || _);
    destruct (py_int v) as [n'|e]; cbn [mbind result_bind]; try discriminate.
  - destruct (truediv_milli n'); cbn [mbind result_bind]; discriminate.
  - congruence.
Qed.

(** The integers of a frame that passed the pre-filter are short. *)
Lemma parsed_int_printable line d name n :
  ¬ filtered_out line → parse_message line = Ok d → d !! name = Some (PInt n) →
  (length (int_digits n) ≤ 640)%nat.
Proof.
  intros Hf Hd Hn. pose proof (parse_message_lookup _ _ name Hd) as Hl.
  destruct (last_match name (findall line)) as [[k v]|] eqn:El;
    [|rewrite Hl in Hn; discriminate].
  destruct Hl as (x & Hv & Hx). rewrite Hn in Hx. injection Hx as <-.
  destruct (last_match_key _ _ _ _ El) as [Hin _]. cbn [fst snd] in Hv.
  pose proof (findall_value_length _ _ _ Hin) as Hlen.
  pose proof (py_int_printable v n (proj2 (findall_signed_integer _ _ _ Hin))
                (field_value_int _ _ _ Hv)) as Hp.
  unfold filtered_out in Hf. lia.
Qed.

(** The two outcomes of a turn of the loop. *)
Lemma iteration_outcome t_recv t_accept line data fs :
  iteration t_recv t_accept line data fs
    = (Ok (data, [received t_recv line]), fs) ∨
  ∃ m, m_time m = t_accept ∧ printable m ∧
       iteration t_recv t_accept line data fs
       = (Ok (data ++ [in_memory m],
              [received t_recv line; data_updated (data ++ [in_memory m])]),
          (write_data_to_file data_file [file_row m] fs).2).
Proof.
  destruct (parsed_fields_returns line) as [fields Hfields].
  destruct (decide (complete fields)) as [(d & -> & Hreq)|Hno];
    [|left; exact (iteration_rejects _ _ _ _ _ _ Hfields Hno)].
  right. destruct Hreq as ([b Hb] & [s Hs] & [u Hu] & [r Hr]).
  destruct (parsed_fields_parse _ _ Hfields) as [Hpass Hd].
  assert (Hvolt : ∀ name x, name ∈ ["battery_voltage"; "solar_voltage"]%string →
                            d !! name = Some x → ∃ f, x = PFloat f).
  { intros name x Hname Hx.
    destruct (parse_message_kinds _ _ _ _ Hd Hx) as [[_ H]|[Hin _]]; [exact H|].
    exfalso. apply elem_of_cons in Hname as [->|Hname];
      [|apply list_elem_of_singleton in Hname as ->]; not_listed Hin. }
  assert (Hint : ∀ name x, name ∈ ["ultrasonic_range"; "rssi"]%string →
                           d !! name = Some x → ∃ n, x = PInt n).
  { intros name x Hname Hx.
    destruct (parse_message_kinds _ _ _ _ Hd Hx) as [[Hin _]|[_ H]]; [|exact H].
    exfalso. apply elem_of_cons in Hname as [->|Hname];
      [|apply list_elem_of_singleton in Hname as ->]; not_listed Hin. }
  destruct (Hvolt "battery_voltage"%string _ ltac:(repeat constructor) Hb) as [fb ->].
  destruct (Hvolt "solar_voltage"%string _ ltac:(repeat constructor) Hs) as [fs' ->].
  destruct (Hint "ultrasonic_range"%string _ ltac:(repeat constructor) Hu) as [nu ->].
  destruct (Hint "rssi"%string _ ltac:(repeat constructor) Hr) as [nr ->].
  exists (mk_measurement t_accept fb fs' nu nr). split; [reflexivity|].
  split; [split; cbn [m_range m_rssi];
          [exact (parsed_int_printable _ _ _ _ Hpass Hd Hu)
          |exact (parsed_int_printable _ _ _ _ Hpass Hd Hr)]|].
  exact (iteration_accepts _ _ _ _ _ _ _ _ _ _ Hfields Hb Hs Hu Hr).
Qed.

Lemma iteration_only_appends t_recv t_accept decoded_line data fs :
  only_appends data_file fs (iteration t_recv t_accept decoded_line data fs).2.
Proof.
  destruct (iteration_outcome t_recv t_accept decoded_line data fs)
    as [->|(m & _ & _ & ->)]; cbn [snd];
    [apply only_appends_refl|apply write_data_to_file_only_appends].
Qed.

Lemma loop_only_appends lines data fs :
  only_appends data_file fs (loop lines data fs).2.
Proof.
  revert data fs. induction lines as [|[[t_recv t_accept] line] lines IH];
    intros data fs; [apply only_appends_refl|].
  cbn [loop]. io_unfold.
  pose proof (iteration_only_appends t_recv t_accept line data fs) as H1.
  destruct (iteration t_recv t_accept line data fs) as [[[data1 emitted]|e] fs1];
    cbn [snd] in *; [|exact H1].
  specialize (IH data1 fs1).
  destruct (loop lines data1 fs1) as [[[data2 emitted2]|e] fs2]; cbn [snd] in *;
    exact (only_appends_trans _ _ _ _ H1 IH).
Qed.

End ThreadFacts.

(** * The stated properties *)

Import SerialReaderThread.

(** C1, amended. Whatever the decoded line, one turn of the loop returns
    without raising. It appends a measurement to [data] and emits
    [data_updated] with the grown list if and only if the parsed fields
    (which exist for the lines that reach [parse_message]) hold all four
    of [battery_voltage], [solar_voltage], [ultrasonic_range] and [rssi].
    The row of that measurement then goes to the data file when the
    store takes it: with newlines left alone, writing allowed, the last
    row of the file ended by its newline and room for two rows, the file
    afterwards holds what it held, or the header if it was absent,
    followed by the row. When writing is refused the file system is as
    before, although the measurement is in [data]. For the other lines
    [data] and the files are as before and only [message_received] is
    emitted. The line ["S1,V4106"] is turned away, and its fields lack
    three of the four. The whole loop, on any lines, returns without
    raising. *)
Theorem measurement_iff_required_fields `{R : PyRuntime}
    (t_recv t_accept : datetime) (decoded_line : pystr)
    (data : list pytuple) (fs : filesystem) :
  (∃ fields data' emitted fs',
    parsed_fields decoded_line = Ok fields ∧
    iteration t_recv t_accept decoded_line data fs = (Ok (data', emitted), fs') ∧
    ((∃ m,
        m_time m = t_accept ∧
        data' = data ++ [in_memory m] ∧
        emitted = [received t_recv decoded_line; data_updated data'] ∧
        (crlf_text_mode = false → write_denied fs = false →
         open_row data_file fs = None → (1 < free_rows fs)%nat →
         files fs' !! data_file
         = Some (match files fs !! data_file with
                 | Some current => current ++ [cells_of m]
                 | None => [HEADER_CELLS; cells_of m]
                 end)) ∧
        (write_denied fs = true → fs' = fs))
     ↔ complete fields) ∧
    (¬ complete fields →
       data' = data ∧ emitted = [received t_recv decoded_line] ∧ fs' = fs)) ∧
  iteration t_recv t_accept (str "S1,V4106") data fs
    = (Ok (data, [received t_recv (str "S1,V4106")]), fs) ∧
  (∃ d, parse_message (str "S1,V4106") = Ok d ∧ ¬ has_required d) ∧
  (∀ lines, ∃ out fs', run lines fs = (Ok out, fs')).
Proof.
  split; [|split; [|split; [|intros lines; apply run_returns]]].
  - destruct (parsed_fields_returns decoded_line) as [fields Hf].
    destruct (decide (complete fields)) as [Hyes|Hno].
    + destruct (iteration_outcome t_recv t_accept decoded_line data fs)
        as [Hit|(m & Hm & Hp & Hit)].
      { exfalso. exact (iteration_rejects_only _ _ _ _ _ _ _ Hf Hit Hyes). }
      eexists _, _, _, _. split; [exact Hf|]. split; [exact Hit|].
      split; [|tauto]. split; [intros _; exact Hyes|].
      intros _. exists m. split; [exact Hm|]. split; [reflexivity|].
      split; [reflexivity|]. split.
      * intros Hcrlf Hw Hclosed Hfree.
        destruct (write_file [m] fs Hcrlf Hw (Forall_cons_2 _ _ _ Hp (Forall_nil_2 _))
                    Hclosed ltac:(cbn [length]; destruct (files fs !! data_file); lia))
          as (fs' & Hwr & Hfile & _).
        change (file_row <$> [m]) with [file_row m] in Hwr.
        rewrite Hwr. cbn [snd]. exact Hfile.
      * intros Hw. rewrite (write_refused _ _ _ Hw). reflexivity.
    + eexists _, _, _, _. split; [exact Hf|]. split.
      * exact (iteration_rejects _ _ _ _ _ _ Hf Hno).
      * split; [|intros _; repeat split].
        split; [|tauto]. intros (m & _ & Hd & _). exfalso.
        apply (f_equal length) in Hd. rewrite length_app in Hd. cbn in Hd. lia.
  - apply (iteration_rejects _ _ _ _ _ None).
    + apply parsed_fields_filtered. left. cbn. lia.
    + intros (d & [=] & _).
  - rewrite (parse_message_transfer R model_runtime) by ascii_frame.
    pose proof short_frame_fields as H.
    destruct (parse_message (str "S1,V4106")) as [d|]; [|discriminate H].
    exists d. split; [reflexivity|]. injection H as _ Hs _ _.
    intros (_ & [x Hx] & _). congruence.
Qed.

(** C1 as stated fails: on a store that refuses the write, the frame of
    the protocol example, which holds all four fields, is appended to
    the list and emitted, and nothing is stored: the file is as absent
    as before and a load returns the empty list. *)
Lemma measurement_kept_not_stored :
  @iteration model_runtime T0 T0 EXAMPLE_FRAME [] READ_ONLY_DISK
  = (Ok ([[PDatetime T0; PFloat F_4_106; PFloat F_6_835; PInt 841; PInt (-58)]],
         [received T0 EXAMPLE_FRAME;
          data_updated
            [[PDatetime T0; PFloat F_4_106; PFloat F_6_835; PInt 841; PInt (-58)]]]),
     READ_ONLY_DISK) ∧
  files READ_ONLY_DISK !! data_file = None ∧
  fst (@read_data_from_file model_runtime data_file READ_ONLY_DISK) = Ok [].
Proof. repeat split; vm_compute; reflexivity. Qed.

(** C2. [parse_message] on ["S1,V4106,C55,U841,s6835,r-58,n12"] gives
    [battery_voltage] 4.106, [solar_voltage] 6.835, [ultrasonic_range]
    841 and [rssi] -58. In general, for a frame (of at most 309
    characters, which every frame the pre-filter admits is) whose last
    [V], [s], [U] and [r] tokens carry the values [vb], [vs], [vu] and
    [vr]: the four texts convert to integers, [parse_message] returns a
    mapping, the two voltages are those integers divided by [1000.0] and
    the range and the rssi are the integers themselves. The integer a
    text converts to is the one it denotes: [int] reads the decimal text
    of every integer, signed or not, as that integer. *)
Theorem parse_scales_voltages_keeps_integers `{R : PyRuntime} :
  (∃ d, parse_message EXAMPLE_FRAME = Ok d ∧
        d !! "battery_voltage"%string = Some (PFloat F_4_106) ∧
        d !! "solar_voltage"%string = Some (PFloat F_6_835) ∧
        d !! "ultrasonic_range"%string = Some (PInt 841) ∧
        d !! "rssi"%string = Some (PInt (-58))) ∧
  (∀ frame vb vs vu vr,
     (length frame ≤ 309)%nat →
     last_match "battery_voltage" (findall frame) = Some (chr "V", vb) →
     last_match "solar_voltage" (findall frame) = Some (chr "s", vs) →
     last_match "ultrasonic_range" (findall frame) = Some (chr "U", vu) →
     last_match "rssi" (findall frame) = Some (chr "r", vr) →
     ∃ d nb ns nu nr,
       py_int vb = Ok nb ∧ py_int vs = Ok ns ∧ py_int vu = Ok nu ∧ py_int vr = Ok nr ∧
       parse_message frame = Ok d ∧
       d !! "battery_voltage"%string = Some (PFloat (f64_div (f64_of_Z nb) MILLI)) ∧
       d !! "solar_voltage"%string = Some (PFloat (f64_div (f64_of_Z ns) MILLI)) ∧
       d !! "ultrasonic_range"%string = Some (PInt nu) ∧
       d !! "rssi"%string = Some (PInt nr)) ∧
  (∀ z, (length (int_digits z) ≤ 640)%nat → py_int (int_str z) = Ok z).
Proof.
  split; [|split; [|exact py_int_int_str]].
  - unfold EXAMPLE_FRAME.
    rewrite (parse_message_transfer R model_runtime) by ascii_frame.
    pose proof example_frame_fields as H. unfold EXAMPLE_FRAME in H.
    destruct (parse_message (str "S1,V4106,C55,U841,s6835,r-58,n12")) as [d|];
      [|discriminate H].
    exists d. injection H as Hb Hs Hu Hr. repeat split; assumption.
  - intros frame vb vs vu vr Hlen Hb Hs Hu Hr.
    destruct (parse_message_safe frame Hlen) as [d Hd].
    pose proof (parse_message_lookup _ _ "battery_voltage" Hd) as Lb.
    pose proof (parse_message_lookup _ _ "solar_voltage" Hd) as Ls.
    pose proof (parse_message_lookup _ _ "ultrasonic_range" Hd) as Lu.
    pose proof (parse_message_lookup _ _ "rssi" Hd) as Lr.
    rewrite Hb in Lb. rewrite Hs in Ls. rewrite Hu in Lu. rewrite Hr in Lr.
    cbn [fst snd] in *.
    destruct Lb as (xb & Eb & Db), Ls as (xs & Es & Ds),
             Lu as (xu & Eu & Du), Lr as (xr & Er & Dr).
    unfold field_value, truediv_milli, float_of_int in Eb, Es, Eu, Er.
    change (bool_decide (chr "V" = chr "V") || bool_decide (chr "V" = chr "s"))
      with true in Eb.
    change (bool_decide (chr "s" = chr "V") || bool_decide (chr "s" = chr "s"))
      with true in Es.
    change (bool_decide (chr "U" = chr "V") || bool_decide (chr "U" = chr "s"))
      with false in Eu.
    change (bool_decide (chr "r" = chr "V") || bool_decide (chr "r" = chr "s"))
      with false in Er.
    destruct (py_int vb) as [nb|]; [|discriminate].
    destruct (py_int vs) as [ns|]; [|discriminate].
    destruct (py_int vu) as [nu|]; [|discriminate].
    destruct (py_int vr) as [nr|]; [|discriminate].
    cbn [mbind result_bind] in Eb, Es, Eu, Er.
    destruct (Z.abs nb <? FLOAT_OVERFLOW); [|discriminate].
    destruct (Z.abs ns <? FLOAT_OVERFLOW); [|discriminate].
    cbn [mbind result_bind] in Eb, Es.
    exists d, nb, ns, nu, nr. repeat split; congruence.
Qed.

(** C2, at the frame of the protocol example. *)
Lemma parse_scales_voltages_keeps_integers_witness :
  ∃ d nb ns nu nr,
    @py_int model_runtime (str "4106") = Ok nb ∧
    @py_int model_runtime (str "6835") = Ok ns ∧
    @py_int model_runtime (str "841") = Ok nu ∧
    @py_int model_runtime (str "-58") = Ok nr ∧
    @parse_message model_runtime EXAMPLE_FRAME = Ok d ∧
    d !! "battery_voltage"%string = Some (PFloat (f64_div (f64_of_Z nb) MILLI)) ∧
    d !! "solar_voltage"%string = Some (PFloat (f64_div (f64_of_Z ns) MILLI)) ∧
    d !! "ultrasonic_range"%string = Some (PInt nu) ∧
    d !! "rssi"%string = Some (PInt nr).
Proof.
  apply (proj1 (proj2 (@parse_scales_voltages_keeps_integers model_runtime))
           EXAMPLE_FRAME (str "4106") (str "6835") (str "841") (str "-58"));
    [vm_compute; lia|vm_compute; reflexivity..].
Defined.

(** C3. The line is turned away before [parse_message] is called, the
    turn of the loop ending with [data] and the files untouched,
    exactly when it has fewer than 10 characters, or more than 40, or
    does not begin with [S]; the lines of 10 to 40 characters that begin
    with [S] are the ones handed to [parse_message]. *)
Theorem prefilter_before_scan `{R : PyRuntime} (decoded_line : pystr) :
  (parsed_fields decoded_line = Ok None ↔
     (length decoded_line < 10)%nat ∨ (40 < length decoded_line)%nat ∨
     decoded_line !! 0%nat ≠ Some (chr "S")) ∧
  ((length decoded_line < 10)%nat ∨ (40 < length decoded_line)%nat ∨
   decoded_line !! 0%nat ≠ Some (chr "S") →
     ∀ t_recv t_accept data fs,
       iteration t_recv t_accept decoded_line data fs
       = (Ok (data, [received t_recv decoded_line]), fs)) ∧
  ((10 ≤ length decoded_line ≤ 40)%nat ∧ decoded_line !! 0%nat = Some (chr "S") →
     parsed_fields decoded_line =
       (parsed_data ← parse_message decoded_line; Ok (Some parsed_data))).
Proof.
  fold (filtered_out decoded_line). repeat split.
  - intros Hnone. destruct (decide (filtered_out decoded_line)) as [H|H]; [exact H|].
    rewrite (parsed_fields_candidate _ H) in Hnone.
    destruct (parse_message decoded_line); discriminate.
  - apply parsed_fields_filtered.
  - intros H t_recv t_accept data fs.
    apply (iteration_rejects _ _ _ _ _ None (parsed_fields_filtered _ H)).
    intros (d & [=] & _).
  - intros [Hlen Hs]. apply parsed_fields_candidate.
    unfold filtered_out. intros [?|[?|Hne]]; [lia|lia|exact (Hne Hs)].
Qed.

(** C3, at the frame of the protocol example, which is handed to
    [parse_message], and at a line of 310 characters, which is turned
    away although [parse_message] would raise on it. *)
Lemma prefilter_before_scan_witness :
  @parsed_fields model_runtime EXAMPLE_FRAME
  = (parsed_data ← @parse_message model_runtime EXAMPLE_FRAME; Ok (Some parsed_data)) ∧
  @iteration model_runtime T0 T0 OVERLONG [] EMPTY_DISK
  = (Ok ([], [received T0 OVERLONG]), EMPTY_DISK).
Proof.
  split.
  - apply (proj2 (proj2 (@prefilter_before_scan model_runtime EXAMPLE_FRAME))).
    split; [vm_compute; lia|reflexivity].
  - apply (proj1 (proj2 (@prefilter_before_scan model_runtime OVERLONG))).
    right. left. vm_compute. lia.
Defined.

(** C4, amended. Where text files keep their newlines, on a store that is
    absent or holds a header and decodable rows, whose last row is ended
    by its newline, and that takes the write, [read_data_from_file]
    after [write_data_to_file] of the rows of well-formed measurements
    returns what the store held before, followed by the measurements in
    their order, each with its timestamp cut to whole seconds, its two
    voltages as they were, and its ultrasonic range and rssi as the
    floats nearest to the integers. *)
Theorem reload_after_append `{R : PyRuntime}
    (fs : filesystem) (ms : list measurement) (old : list pytuple) :
  crlf_text_mode = false →
  read_denied fs = false → write_denied fs = false →
  (length ms < free_rows fs)%nat →
  Forall wf_measurement ms →
  store_holds fs old →
  open_row data_file fs = None →
  ∃ fs', (write_data_to_file data_file (file_row <$> ms);;
          read_data_from_file data_file) fs
         = (Ok (old ++ (reloaded <$> ms)), fs').
Proof.
  intros Hcrlf Hread Hwrite Hfree Hms Hstore Hclosed.
  destruct (write_extends_store ms fs old Hcrlf Hwrite Hfree Hms Hstore Hclosed)
    as (fs' & Hw & Hstore' & _ & Hr & _).
  exists fs'. io_unfold. rewrite Hw.
  apply read_store; [congruence|exact Hstore'].
Qed.

(** C4 as stated fails: the range and the rssi come back as floats, not
    as the integers that were appended; and a measurement the loop
    accepted at [T0] comes back with the timestamp [T1], its
    microseconds gone. *)
Lemma reload_changes_types :
  fst ((@write_data_to_file model_runtime data_file [file_row M0];;
        @read_data_from_file model_runtime data_file) EMPTY_DISK)
  = Ok [[PDatetime T1; PFloat F_4_106; PFloat F_6_835; PFloat F_841; PFloat F_NEG_58]] ∧
  [PDatetime T1; PFloat F_4_106; PFloat F_6_835; PFloat F_841; PFloat F_NEG_58]
  ≠ in_memory M0 ∧
  fst (@iteration model_runtime T0 T0 EXAMPLE_FRAME [] EMPTY_DISK)
  = Ok ([[PDatetime T0; PFloat F_4_106; PFloat F_6_835; PInt 841; PInt (-58)]],
        [received T0 EXAMPLE_FRAME;
         data_updated
           [[PDatetime T0; PFloat F_4_106; PFloat F_6_835; PInt 841; PInt (-58)]]]) ∧
  fst ((@iteration model_runtime T0 T0 EXAMPLE_FRAME [];;
        @read_data_from_file model_runtime data_file) EMPTY_DISK)
  = Ok [[PDatetime T1; PFloat F_4_106; PFloat F_6_835; PFloat F_841; PFloat F_NEG_58]].
Proof.
  split; [vm_compute; reflexivity|]. split; [|split; vm_compute; reflexivity].
  unfold in_memory, M0. cbn. intros [=].
Qed.

(** C4, amended, at the measurement of the protocol example appended to
    an absent store. *)
Lemma reload_after_append_witness :
  ∃ fs', (@write_data_to_file model_runtime data_file (file_row <$> [M0]);;
          @read_data_from_file model_runtime data_file) EMPTY_DISK
         = (Ok ([] ++ (reloaded <$> [M0])), fs').
Proof.
  apply (@reload_after_append model_runtime EMPTY_DISK [M0] []).
  - reflexivity.
  - reflexivity.
  - reflexivity.
  - vm_compute. lia.
  - constructor; [|constructor].
    repeat split; try (vm_compute; reflexivity); vm_compute; lia.
  - left. split; reflexivity.
  - reflexivity.
Defined.

(** Without the newline behind the last row the amended C4 fails too:
    the store holds a header and one row that decodes, the write
    continues that row with the new one, and the load returns the empty
    list. *)
Lemma unterminated_store_glues :
  store_holds (R := model_runtime) OPEN_ENDED_DISK [reloaded M1] ∧
  open_row data_file OPEN_ENDED_DISK = Some (@cells_of model_runtime M1) ∧
  files (@write_data_to_file model_runtime data_file [file_row M0] OPEN_ENDED_DISK).2
    !! data_file
  = Some [HEADER_CELLS;
          join_rows (@cells_of model_runtime M1) (@cells_of model_runtime M0)] ∧
  fst ((@write_data_to_file model_runtime data_file [file_row M0];;
        @read_data_from_file model_runtime data_file) OPEN_ENDED_DISK)
  = Ok [].
Proof.
  split; [|repeat split; vm_compute; reflexivity].
  right. exists HEADER_CELLS, [@cells_of model_runtime M1].
  split; vm_compute; reflexivity.
Qed.

(** C5. When [parse_message] returns, each field holds the value of the
    rightmost match that stores under its name, whatever stands left of
    it; and two texts whose matches are the same up to order, no
    recognised letter occurring twice, give the same outcome: the same
    mapping from both, or an exception from both. Texts of at most 309
    characters, as all frames are, do give a mapping. *)
Theorem last_token_wins_order_irrelevant `{R : PyRuntime} :
  (∀ message d name i k v,
     parse_message message = Ok d → rightmost name message i k v →
     ∃ x, field_value k v = Ok x ∧ d !! name = Some x) ∧
  (∀ m1 m2 d,
     findall m1 ≡ₚ findall m2 → NoDup (fst <$> recognised (findall m1)) →
     (parse_message m1 = Ok d ↔ parse_message m2 = Ok d)) ∧
  (∀ message, (length message ≤ 309)%nat → ∃ d, parse_message message = Ok d).
Proof.
  split; [|split; [|exact parse_message_safe]].
  - intros message d name i k v Hd Hright.
    pose proof (parse_message_lookup _ _ name Hd) as Hl.
    rewrite (last_match_rightmost _ _ _ _ _ Hright) in Hl. exact Hl.
  - intros m1 m2 d Hperm Hnodup. split.
    + apply parse_permutation; assumption.
    + apply parse_permutation; [symmetry; exact Hperm|].
      unfold recognised in *. rewrite <- Hperm. exact Hnodup.
Qed.

(** C5, at two orders of the same tokens and at a repeated letter. *)
Lemma last_token_wins_order_irrelevant_witness :
  (∃ x, @field_value model_runtime (chr "V") (str "2") = Ok x ∧
        ∀ d, @parse_message model_runtime (str "V1,V2") = Ok d →
             d !! "battery_voltage"%string = Some x) ∧
  ∀ d, @parse_message model_runtime (str "S1,V4106,U841,s6835,r-58") = Ok d ↔
       @parse_message model_runtime (str "r-58,s6835,U841,V4106,S1") = Ok d.
Proof.
  destruct (@last_token_wins_order_irrelevant model_runtime) as (Hlast & Horder & _).
  split.
  - destruct (parse_message_safe (str "V1,V2") ltac:(vm_compute; lia)) as [d Hd].
    destruct (Hlast (str "V1,V2") d "battery_voltage"%string 3%nat (chr "V") (str "2") Hd)
      as (x & Hx & Hdx).
    + split; [|split].
      * apply (bool_decide_unpack _). vm_compute. exact I.
      * reflexivity.
      * intros j k' v' Hj _.
        assert (Hall : Forall (λ m, (m.1 ≤ 3)%nat) (finditer (str "V1,V2")))
          by (apply (bool_decide_unpack _); vm_compute; exact I).
        rewrite Forall_forall in Hall. exact (Hall _ Hj).
    + exists x. split; [exact Hx|]. intros d' Hd'. congruence.
  - intros d. apply Horder.
    + apply (bool_decide_unpack _). vm_compute. exact I.
    + apply (bool_decide_unpack _). vm_compute. exact I.
Defined.




(** C7, amended. [read_data_from_file] returns a list whatever the store
    holds and leaves the files alone; the list is empty when the file is
    absent, when it is empty, and also when any of its rows fails to
    decode: the rows that do decode are dropped with it, and the caller
    sees what it sees for an absent file. *)
Theorem load_empty_when_absent_or_corrupt `{R : PyRuntime}
    (file_path : string) (fs : filesystem) :
  (∃ l, read_data_from_file file_path fs = (Ok l, fs)) ∧
  (files fs !! file_path = None → read_data_from_file file_path fs = (Ok [], fs)) ∧
  (files fs !! file_path = Some [] → read_data_from_file file_path fs = (Ok [], fs)) ∧
  (∀ header rows1 row rows2 l1 e,
     files fs !! file_path = Some (header :: rows1 ++ row :: rows2) →
     comprehension decode_row rows1 = Ok l1 → decode_row row = Raise e →
     read_data_from_file file_path fs = (Ok [], fs)).
Proof.
  split; [apply read_data_from_file_returns|].
  split; [apply read_absent|]. split; [apply read_empty|].
  intros header rows1 row rows2 l1 e. apply read_corrupt.
Qed.

(** C7 as stated fails: a store with a good row and a truncated row
    loads as the empty list, as an absent store does. *)
Lemma corrupt_load_looks_absent :
  @decode_row model_runtime (@cells_of model_runtime M0) = Ok (reloaded M0) ∧
  @decode_row model_runtime TRUNCATED_ROW = Raise IndexError ∧
  fst (@read_data_from_file model_runtime data_file CORRUPT_DISK) = Ok [] ∧
  fst (@read_data_from_file model_runtime data_file EMPTY_DISK) = Ok [].
Proof. repeat split; vm_compute; reflexivity. Qed.

(** C7, amended, at the corrupt store. *)
Lemma load_empty_when_absent_or_corrupt_witness :
  @read_data_from_file model_runtime data_file CORRUPT_DISK = (Ok [], CORRUPT_DISK).
Proof.
  destruct (@load_empty_when_absent_or_corrupt model_runtime data_file CORRUPT_DISK)
    as (_ & _ & _ & H).
  apply (H HEADER_CELLS [@cells_of model_runtime M0] TRUNCATED_ROW [] [reloaded M0]
           IndexError);
    vm_compute; reflexivity.
Defined.

(** C8, amended. The rows a plot shows are bounded: when [data] holds
    [PLOT_POINTS + k] tuples, [update_plot] takes the last [PLOT_POINTS]
    of them in their order, and all of them when there are fewer. The
    list [data] of the reader thread itself is never cut: the loop
    returns it with every accepted measurement added at its end and
    nothing removed. *)
Theorem plot_shows_last_points `{R : PyRuntime} :
  (∀ (data : list pytuple) (k : nat),
     length data = (MainWindow.PLOT_POINTS + k)%nat →
     MainWindow.update_plot data = Some (drop k data) ∧
     length (drop k data) = MainWindow.PLOT_POINTS) ∧
  (∀ data : list pytuple,
     data ≠ [] → (length data ≤ MainWindow.PLOT_POINTS)%nat →
     MainWindow.update_plot data = Some data) ∧
  (∀ lines data fs,
     ∃ added emitted fs',
       loop lines data fs = (Ok (data ++ added, emitted), fs') ∧
       (length added ≤ length lines)%nat).
Proof.
  assert (Hpos : MainWindow.PLOT_POINTS ≠ 0%nat) by (unfold MainWindow.PLOT_POINTS; lia).
  assert (Hslice : ∀ l : list pytuple,
    MainWindow.slice_last MainWindow.PLOT_POINTS l
    = drop (length l - MainWindow.PLOT_POINTS) l).
  { intros l. unfold MainWindow.slice_last.
    destruct MainWindow.PLOT_POINTS; [congruence|reflexivity]. }
  split; [|split].
  - intros data k Hlen. unfold MainWindow.update_plot.
    destruct data as [|m data]; [cbn in Hlen; lia|].
    rewrite Hslice, Hlen, length_drop, Hlen.
    replace (MainWindow.PLOT_POINTS + k - MainWindow.PLOT_POINTS)%nat with k by lia.
    split; [reflexivity|lia].
  - intros data Hne Hlen. unfold MainWindow.update_plot.
    destruct data as [|m data]; [congruence|].
    rewrite Hslice.
    replace (length (m :: data) - MainWindow.PLOT_POINTS)%nat with 0%nat by lia.
    reflexivity.
  - apply loop_extends.
Qed.

(** C8 as stated fails: on a window that holds [PLOT_POINTS] tuples, an
    accepted frame makes the list one longer, and that list is what
    [data_updated] carries. *)
Lemma window_grows_past_capacity :
  let m := [PDatetime T0; PFloat F_4_106; PFloat F_6_835; PInt 841; PInt (-58)] in
  fst (@SerialReaderThread.iteration model_runtime T0 T0 EXAMPLE_FRAME FULL_WINDOW
         EMPTY_DISK)
  = Ok (FULL_WINDOW ++ [m],
        [received T0 EXAMPLE_FRAME; data_updated (FULL_WINDOW ++ [m])]) ∧
  length (FULL_WINDOW ++ [m]) = S MainWindow.PLOT_POINTS.
Proof.
  intros m. split.
  - pose proof example_frame_fields as H.
    destruct (@parse_message model_runtime EXAMPLE_FRAME) as [d|] eqn:Hd;
      [|discriminate H].
    injection H as Hb Hs Hu Hr.
    assert (Hf : @SerialReaderThread.parsed_fields model_runtime EXAMPLE_FRAME
                 = Ok (Some d)).
    { rewrite parsed_fields_candidate, Hd; [reflexivity|].
      apply (bool_decide_unpack _). vm_compute. exact I. }
    rewrite (iteration_accepts _ _ _ _ _ _ _ _ _ _ Hf Hb Hs Hu Hr). reflexivity.
  - unfold FULL_WINDOW. rewrite length_app, length_replicate. cbn. lia.
Qed.

(** C8, amended, at a window one tuple over the bound. *)
Lemma plot_shows_last_points_witness :
  MainWindow.update_plot (in_memory M0 :: FULL_WINDOW)
  = Some (drop 1 (in_memory M0 :: FULL_WINDOW)).
Proof.
  apply (proj1 (@plot_shows_last_points model_runtime) (in_memory M0 :: FULL_WINDOW) 1%nat).
  unfold FULL_WINDOW. cbn [length]. rewrite length_replicate. lia.
Defined.

(** C9, amended. [parse_message] ends on every text, and on every text of
    at most 309 characters it returns a mapping. On longer texts it
    returns a mapping or raises [OverflowError] (a [V] or [s] value too
    large for a float) or [ValueError] (a value longer than the digit
    limit of the interpreter). *)
Theorem parse_total_on_short_text `{R : PyRuntime} (message : pystr) :
  ((length message ≤ 309)%nat → ∃ d, parse_message message = Ok d) ∧
  ((∃ d, parse_message message = Ok d) ∨
   parse_message message = Raise OverflowError ∨
   parse_message message = Raise ValueError).
Proof.
  split.
  - apply parse_message_safe.
  - apply for_each_store_outcome, findall_signed.
Qed.

(** C9 as stated fails: the conversion to float of a long [V] value
    raises. *)
Lemma parse_raises_on_long_voltage :
  @parse_message model_runtime OVERLONG = Raise OverflowError.
Proof. vm_compute. reflexivity. Qed.

(** C9, amended, at the protocol example. *)
Lemma parse_total_on_short_text_witness :
  (length EXAMPLE_FRAME ≤ 309)%nat ∧
  ∃ d, @parse_message model_runtime EXAMPLE_FRAME = Ok d.
Proof.
  assert (H : (length EXAMPLE_FRAME ≤ 309)%nat) by (vm_compute; lia).
  split; [exact H|].
  exact (proj1 (@parse_total_on_short_text model_runtime EXAMPLE_FRAME) H).
Defined.

(** C10. The scan needs no delimiters and takes as key the one letter
    right before the optional sign and the digits: in ["ab12"] the only
    match is [b] with ["12"]; after any run of letters, the letter next
    to the number is the key and the scan resumes behind the digits;
    every match reported at an offset is a letter at that offset with
    its signed digits right behind it; and a position that is not
    followed by an optional sign and digits starts no match, so that
    ["SU841"] gives the range 841 and no sensor id. *)
Theorem token_key_is_last_letter `{R : PyRuntime} :
  findall (str "ab12") = [(chr "b", str "12")] ∧
  (∀ letters k ds rest,
     Forall (λ c, is_ascii_letter c = true) letters → is_ascii_letter k = true →
     ds ≠ [] → digits ds → no_decimal_ahead rest →
     findall (letters ++ k :: ds ++ rest) = (k, ds) :: findall rest ∧
     findall (letters ++ k :: chr "-" :: ds ++ rest)
       = (k, chr "-" :: ds) :: findall rest) ∧
  (∀ message i k v,
     (i, (k, v)) ∈ finditer message →
     message !! i = Some k ∧ is_ascii_letter k = true ∧ signed_integer v ∧
     take (length v) (drop (S i) message) = v) ∧
  (∀ message i,
     signed_digits (drop (S i) message) = None →
     ∀ k v, (i, (k, v)) ∉ finditer message) ∧
  (∃ d, parse_message (str "SU841") = Ok d ∧
        d !! "ultrasonic_range"%string = Some (PInt 841) ∧
        d !! "sensor_id"%string = None).
Proof.
  split; [|split; [|split; [|split]]];
    [| | | |rewrite (parse_message_transfer R model_runtime) by ascii_frame;
            pose proof letter_run_fields as H;
            destruct (parse_message (str "SU841")) as [d|]; [|discriminate H];
            exists d; injection H as Hu Hs; repeat split; assumption].
  - rewrite (findall_transfer R model_runtime) by ascii_frame. reflexivity.
  - intros letters k ds rest Hletters Hk Hne Hds Hrest. split.
    + apply findall_letter_run; [assumption|assumption| |reflexivity].
      apply signed_digits_unsigned; assumption.
    + apply (findall_letter_run letters k (chr "-" :: ds ++ rest) (chr "-" :: ds));
        [assumption|assumption| |reflexivity].
      apply signed_digits_negative; assumption.
  - intros message i k v H. apply finditer_match in H.
    destruct (match_at_split _ _ _ H) as (s' & Es & Hk & Hv).
    destruct (signed_digits_split _ _ Hv) as (Hsigned & rest & -> & _).
    assert (Hi : message !! i = Some k).
    { rewrite <- (Nat.add_0_r i), <- lookup_drop, Es. reflexivity. }
    repeat split; [exact Hi|exact Hk|exact Hsigned|].
    assert (Hd : drop (S i) message = v ++ rest).
    { replace (S i) with (i + 1)%nat by lia. rewrite <- drop_drop, Es. reflexivity. }
    rewrite Hd. apply take_app_length.
  - intros message i Hnone k v H. apply finditer_match in H.
    destruct (match_at_split _ _ _ H) as (s' & Es & _ & Hv).
    assert (Hd : drop (S i) message = s').
    { replace (S i) with (i + 1)%nat by lia. rewrite <- drop_drop, Es. reflexivity. }
    congruence.
Qed.

(** C10, at a number behind two letters. *)
Lemma token_key_is_last_letter_witness :
  @findall model_runtime (str "a" ++ chr "b" :: str "12" ++ [])
  = (chr "b", str "12") :: @findall model_runtime [].
Proof.
  apply (proj1 (proj2 (@token_key_is_last_letter model_runtime))
           (str "a") (chr "b") (str "12") []).
  - repeat constructor.
  - reflexivity.
  - discriminate.
  - repeat constructor.
  - exact I.
Defined.

(** * Further properties of the token scan *)

Section ScanShape.
Context `{R : PyRuntime}.

Lemma signed_integer_no_letter v c :
  signed_integer v → c ∈ v → is_ascii_letter c = false.
Proof.
  assert (Hd : ∀ ds, digits ds → c ∈ ds → is_ascii_letter c = false).
  { intros ds Hds Hc. unfold digits in Hds. rewrite Forall_forall in Hds.
    specialize (Hds c Hc). destruct (is_ascii_letter c) eqn:E; [|reflexivity].
    rewrite (letter_not_decimal c E) in Hds. discriminate. }
  intros [ds _ Hds|ds _ Hds] Hc; [exact (Hd ds Hds Hc)|].
  apply elem_of_cons in Hc as [->|Hc]; [reflexivity|exact (Hd ds Hds Hc)].
Qed.

(** No match starts inside the value of another. *)
Lemma no_match_inside_value v rest j :
  signed_integer v → (j < length v)%nat → match_at (drop j (v ++ rest)) = None.
Proof.
  intros Hv Hj. destruct (lookup_lt_is_Some_2 v j Hj) as [c Hc].
  assert (Hdrop : ∃ t, drop j (v ++ rest) = c :: t).
  { exists (drop (S j) (v ++ rest)). apply drop_S.
    rewrite lookup_app_l by exact Hj. exact Hc. }
  destruct Hdrop as [t ->]. cbn [match_at].
  rewrite (signed_integer_no_letter v c Hv); [reflexivity|].
  apply list_elem_of_lookup. eauto.
Qed.

(** The scan reports every offset at which the pattern matches. *)
Lemma scan_complete pos skip s j k v :
  match_at (drop j s) = Some (k, v) → (skip ≤ j)%nat →
  ((pos + j)%nat, (k, v)) ∈ scan pos skip s.
Proof.
  revert pos skip j. induction s as [|c s IH]; intros pos skip j Hm Hskip.
  - rewrite drop_nil in Hm. discriminate.
  - cbn [scan]. destruct skip as [|skip].
    + destruct j as [|j].
      * cbn [drop] in Hm. rewrite Hm, Nat.add_0_r. left.
      * cbn [drop] in Hm.
        destruct (match_at (c :: s)) as [[k0 v0]|] eqn:E.
        -- right. replace (pos + S j)%nat with (S pos + j)%nat by lia.
           apply IH; [exact Hm|].
           destruct (match_at_split _ _ _ E) as (s' & [= <- <-] & _ & Hv0).
           destruct (signed_digits_split _ _ Hv0) as (Hsigned & rest & -> & _).
           destruct (le_lt_dec (length v0) j) as [Hle|Hlt]; [exact Hle|].
           rewrite (no_match_inside_value v0 rest j Hsigned Hlt) in Hm. discriminate.
        -- replace (pos + S j)%nat with (S pos + j)%nat by lia.
           apply IH; [exact Hm|lia].
    + destruct j as [|j]; [lia|]. cbn [drop] in Hm.
      replace (pos + S j)%nat with (S pos + j)%nat by lia.
      apply IH; [exact Hm|lia].
Qed.

Lemma scan_apart pos skip s :
  StronglySorted (λ a b, (a.1 + length a.2.2 < b.1)%nat) (scan pos skip s).
Proof.
  revert pos skip. induction s as [|c s IH]; intros pos skip; cbn [scan]; [constructor|].
  destruct skip as [|skip]; [|apply IH].
  destruct (match_at (c :: s)) as [[k v]|]; [|apply IH].
  constructor; [apply IH|]. apply Forall_forall. intros [i [k' v']] H.
  destruct (scan_elem _ _ _ _ _ _ H) as (j & -> & Hj & _). cbn. lia.
Qed.

End ScanShape.

Section Separators.
Context `{R : PyRuntime}.

Lemma digit_run_before_separator s c rest :
  is_decimal c = false → digit_run (s ++ c :: rest) = digit_run s.
Proof.
  intros Hc. induction s as [|x s IH]; cbn [app digit_run].
  - rewrite Hc. reflexivity.
  - rewrite IH. reflexivity.
Qed.

Lemma signed_digits_before_separator s c rest :
  separator c → signed_digits (s ++ c :: rest) = signed_digits s.
Proof.
  intros (_ & Hdec & Hminus). unfold signed_digits.
  rewrite (digit_run_before_separator s c rest Hdec).
  destruct s as [|x s]; cbn [app].
  - destruct (Z.eqb_spec c (chr "-")); [contradiction|reflexivity].
  - rewrite (digit_run_before_separator s c rest Hdec). reflexivity.
Qed.

Lemma match_at_before_separator x s c rest :
  separator c → match_at ((x :: s) ++ c :: rest) = match_at (x :: s).
Proof.
  intros Hc. cbn [app match_at].
  rewrite (signed_digits_before_separator s c rest Hc). reflexivity.
Qed.

Lemma scan_before_separator pos skip s c rest :
  separator c → (skip ≤ length s)%nat →
  scan pos skip (s ++ c :: rest)
  = scan pos skip s ++ scan (pos + length s + 1) 0 rest.
Proof.
  intros Hc. revert pos skip. induction s as [|x s IH]; intros pos skip Hskip.
  - cbn in Hskip. assert (skip = 0%nat) as -> by lia.
    cbn [app scan match_at length]. destruct Hc as (-> & _).
    f_equal. lia.
  - change ((x :: s) ++ c :: rest) with (x :: (s ++ c :: rest)).
    cbn [scan length].
    replace (pos + S (length s) + 1)%nat with (S pos + length s + 1)%nat by lia.
    destruct skip as [|skip].
    + change (x :: (s ++ c :: rest)) with ((x :: s) ++ c :: rest).
      rewrite (match_at_before_separator x s c rest Hc).
      destruct (match_at (x :: s)) as [[k v]|] eqn:E.
      * destruct (match_at_split _ _ _ E) as (s' & [= <- <-] & _ & Hv).
        pose proof (signed_digits_length _ _ Hv) as Hlen.
        rewrite IH by lia. reflexivity.
      * rewrite IH by lia. reflexivity.
    + cbn [length] in Hskip. rewrite IH by lia. reflexivity.
Qed.

Lemma findall_before_separator s c rest :
  separator c → findall (s ++ c :: rest) = findall s ++ findall rest.
Proof.
  intros Hc. unfold findall, finditer.
  rewrite (scan_before_separator 0 0 s c rest Hc) by lia.
  rewrite fmap_app. f_equal.
  rewrite (scan_shift (0 + length s + 1)), <- list_fmap_compose.
  apply list_fmap_ext. intros _ [i m] _. reflexivity.
Qed.

Lemma for_each_app {A B} (f : B → A → result B) l1 l2 acc :
  for_each f acc (l1 ++ l2) = (acc' ← for_each f acc l1; for_each f acc' l2).
Proof.
  revert acc. induction l1 as [|x l1 IH]; intros acc; cbn [app for_each]; [reflexivity|].
  destruct (f acc x) as [acc'|e]; cbn [mbind result_bind]; [apply IH|reflexivity].
Qed.

Lemma store_match_onto (d0 a : gmap string pyval) m :
  store_match (a ∪ d0) m = (a' ← store_match a m; Ok (a' ∪ d0)).
Proof.
  destruct m as [k v]. unfold store_match.
  destruct (field_map !! k) as [name|]; [|reflexivity].
  destruct (field_value k v) as [x|e]; cbn [mbind result_bind]; [|reflexivity].
  rewrite insert_union_l. reflexivity.
Qed.

(** The loop over the matches on a mapping that holds entries already:
    the new entries win. *)
Lemma for_each_store_onto ms (d0 a d : gmap string pyval) :
  for_each store_match a ms = Ok d →
  for_each store_match (a ∪ d0) ms = Ok (d ∪ d0).
Proof.
  revert a. induction ms as [|m ms IH]; intros a; cbn [for_each].
  - intros [= <-]. reflexivity.
  - rewrite store_match_onto.
    destruct (store_match a m) as [a'|e]; cbn [mbind result_bind]; [|discriminate].
    apply IH.
Qed.

End Separators.



(** * Further facts about the fields of a frame *)

Section FieldFacts.
Context `{R : PyRuntime}.

Lemma findall_no_letters s :
  Forall (λ c, is_ascii_letter c = false) s → findall s = [].
Proof.
  induction 1 as [|c s Hc _ IH]; [apply findall_nil|].
  rewrite findall_no_match; [exact IH|]. cbn [match_at]. rewrite Hc. reflexivity.
Qed.

Lemma digit_run_no_digits s :
  Forall (λ c, is_decimal c = false) s → digit_run s = [].
Proof. intros [|c s' Hc _]; cbn [digit_run]; [|rewrite Hc]; reflexivity. Qed.

Lemma findall_no_digits s :
  Forall (λ c, is_decimal c = false) s → findall s = [].
Proof.
  induction 1 as [|c s Hc Hs IH]; [apply findall_nil|].
  rewrite findall_no_match; [exact IH|]. cbn [match_at].
  destruct (is_ascii_letter c); [|reflexivity].
  unfold signed_digits. rewrite (digit_run_no_digits s Hs).
  destruct Hs as [|c' s' Hc' Hs']; [reflexivity|].
  rewrite (digit_run_no_digits s' Hs'). destruct (c' =? chr "-"); reflexivity.
Qed.

Lemma store_match_unrecognised d m :
  field_map !! m.1 = None → store_match d m = Ok d.
Proof. destruct m as [k v]. cbn. intros ->. reflexivity. Qed.

Lemma for_each_store_recognised ms d :
  for_each store_match d ms = for_each store_match d (recognised ms).
Proof.
  revert d. unfold recognised.
  induction ms as [|m ms IH]; intros d; [reflexivity|].
  destruct (decide (is_Some (field_map !! m.1))) as [Hm|Hm].
  - rewrite filter_cons_True by exact Hm. cbn [for_each].
    destruct (store_match d m); cbn [mbind result_bind]; [apply IH|reflexivity].
  - rewrite filter_cons_False by exact Hm. cbn [for_each].
    rewrite store_match_unrecognised; [apply IH|].
    destruct (field_map !! m.1); [exfalso; eauto|reflexivity].
Qed.

Lemma field_map_letter k name :
  field_map !! k = Some name →
  ∀ ms : list (Z * pystr),
    (∃ k' v, (k', v) ∈ ms ∧ field_map !! k' = Some name) ↔ ∃ v, (k, v) ∈ ms.
Proof.
  intros Hk ms. split.
  - intros (k' & v & Hin & Hk'). rewrite (field_map_inj _ _ _ Hk Hk'). eauto.
  - intros [v Hin]. eauto.
Qed.

Lemma has_required_tokens line d :
  parse_message line = Ok d →
  has_required d ↔
  Forall (λ k, ∃ v, (k, v) ∈ findall line) [chr "V"; chr "s"; chr "U"; chr "r"].
Proof.
  intros Hd. unfold has_required.
  rewrite !(parse_message_present _ _ _ Hd).
  rewrite (field_map_letter (chr "V") "battery_voltage" eq_refl).
  rewrite (field_map_letter (chr "s") "solar_voltage" eq_refl).
  rewrite (field_map_letter (chr "U") "ultrasonic_range" eq_refl).
  rewrite (field_map_letter (chr "r") "rssi" eq_refl).
  rewrite !Forall_cons, Forall_nil. tauto.
Qed.

End FieldFacts.

Section MatchFacts.
Context `{R : PyRuntime}.

Lemma finditer_spec (message : pystr) (i : nat) (k : Z) (v : pystr) :
  (i, (k, v)) ∈ finditer message ↔
  message !! i = Some k ∧ is_ascii_letter k = true ∧ signed_integer v ∧
  ∃ rest, drop (S i) message = v ++ rest ∧ no_decimal_ahead rest.
Proof.
  split.
  - intros Hin. apply finditer_match in Hin.
    destruct (match_at_split _ _ _ Hin) as (s' & Hdrop & Hk & Hv).
    destruct (signed_digits_split _ _ Hv) as (Hsigned & rest & -> & Hrest).
    assert (Hi : message !! i = Some k).
    { replace i with (i + 0)%nat by lia. rewrite <- lookup_drop, Hdrop. reflexivity. }
    repeat split; try assumption.
    exists rest. split; [|exact Hrest].
    replace (S i) with (i + 1)%nat by lia. rewrite <- drop_drop, Hdrop. reflexivity.
  - intros (Hi & Hk & Hsigned & rest & Hdrop & Hrest).
    apply (scan_complete 0 0 message i k v); [|lia].
    rewrite (drop_S _ _ _ Hi), Hdrop. apply match_at_intro; [exact Hk|].
    destruct Hsigned as [ds Hne Hds|ds Hne Hds].
    + apply signed_digits_unsigned; assumption.
    + apply (signed_digits_negative ds rest); assumption.
Qed.


End MatchFacts.



Section TurnFacts.
Context `{R : PyRuntime}.

Lemma snapshots_shift (data : list pytuple) row added :
  (data ++ [row]) :: ((λ n, (data ++ [row]) ++ take n added) <$> seq 1 (length added))
  = (λ n, data ++ take n (row :: added)) <$> seq 1 (length (row :: added)).
Proof.
  cbn [length seq fmap list_fmap take]. f_equal.
  rewrite <- (fmap_S_seq 1), <- list_fmap_compose.
  apply list_fmap_ext. intros _ n _. cbn. rewrite <- app_assoc. reflexivity.
Qed.

End TurnFacts.

Section ControlFacts.

Import MainWindow.

Lemma init_controls_ok ports : controls_ok (MainWindow.__init__ ports).
Proof.
  repeat split; cbn; try constructor; try reflexivity; try constructor.
  eexists. split; [reflexivity|]. discriminate.
Qed.

Lemma handle_controls_ok w e w' :
  controls_ok w → handle w e = Some w' → controls_ok w'.
Proof.
  intros (Hb & Hd & (t & Ht & Hstopped) & Hbaud) He.
  destruct e as [| |index|]; cbn [handle] in He.
  - destruct (start_button w) eqn:Es; [|discriminate]. injection He as <-.
    destruct (Hstopped eq_refl) as [Hrun _].
    unfold start_reading. rewrite Ht. repeat split; cbn.
    + constructor; [exact Hrun|exact Hd].
    + eexists. split; [reflexivity|]. discriminate.
    + constructor; [reflexivity|]. rewrite Ht in Hbaud. exact Hbaud.
  - destruct (stop_button w) eqn:Es; [|discriminate]. injection He as <-.
    unfold stop_reading. rewrite Ht. repeat split; cbn.
    + exact Hd.
    + eexists. split; [reflexivity|]. intros _. cbn.
      split; [apply andb_false_r|reflexivity].
    + rewrite Ht in Hbaud. apply Forall_cons in Hbaud as [Hb1 Hb2].
      constructor; [exact Hb1|exact Hb2].
  - destruct (index <? length (port_items w))%nat; [|discriminate]. injection He as <-.
    repeat split; cbn; try assumption. exists t. split; assumption.
  - injection He as <-. rewrite Ht. repeat split; cbn.
    + exact Hb.
    + exact Hd.
    + eexists. split; [reflexivity|]. intros Hs. cbn.
      split; [apply andb_false_r|]. exact (proj2 (Hstopped Hs)).
    + rewrite Ht in Hbaud. apply Forall_cons in Hbaud as [Hb1 Hb2].
      constructor; [exact Hb1|exact Hb2].
Qed.

Lemma play_controls_ok events w w' :
  controls_ok w → play w events = Some w' → controls_ok w'.
Proof.
  revert w. induction events as [|e events IH]; intros w Hw; cbn [play].
  - intros [= <-]. exact Hw.
  - destruct (handle w e) as [w1|] eqn:He; cbn; [|discriminate].
    apply IH. exact (handle_controls_ok _ _ _ Hw He).
Qed.

End ControlFacts.

Section WindowFacts.

Lemma slice_last_slides {A} (n : nat) (l : list A) (x : A) :
  n ≠ 0%nat →
  (∃ older, l = older ++ MainWindow.slice_last n l) ∧
  length (MainWindow.slice_last n l) = (length l `min` n)%nat ∧
  MainWindow.slice_last n (l ++ [x])
  = (if decide (length l < n)%nat
     then MainWindow.slice_last n l else drop 1 (MainWindow.slice_last n l)) ++ [x].
Proof.
  intros Hn.
  assert (Hslice : ∀ l' : list A,
            MainWindow.slice_last n l' = drop (length l' - n) l').
  { intros l'. unfold MainWindow.slice_last. destruct n; [congruence|reflexivity]. }
  rewrite !Hslice.
  split; [exists (take (length l - n) l); symmetry; apply take_drop|].
  split; [rewrite length_drop; lia|].
  rewrite length_app. cbn [length].
  destruct (decide (length l < n)%nat) as [Hlt|Hge].
  - replace (length l + 1 - n)%nat with 0%nat by lia.
    replace (length l - n)%nat with 0%nat by lia. reflexivity.
  - rewrite drop_drop.
    replace (length l + 1 - n)%nat with (length l - n + 1)%nat by lia.
    rewrite drop_app_le by lia. reflexivity.
Qed.

(** [update_plot] with any bound of the slice but zero. *)
Lemma update_plot_slides (n : nat) (data view : list pytuple) (row : pytuple) :
  n ≠ 0%nat →
  match data with
  | [] => None
  | _ :: _ => Some (MainWindow.slice_last n data)
  end = Some view →
  (∃ older, data = older ++ view) ∧
  length view = (length data `min` n)%nat ∧
  match data ++ [row] with
  | [] => None
  | _ :: _ => Some (MainWindow.slice_last n (data ++ [row]))
  end = Some ((if decide (length data < n)%nat then view else drop 1 view) ++ [row]).
Proof.
  intros Hn Hview.
  destruct (slice_last_slides n data row Hn) as (Hsuffix & Hlen & Hnext).
  destruct data as [|m data]; [discriminate|].
  injection Hview as <-.
  split; [exact Hsuffix|]. split; [exact Hlen|].
  cbn [app]. f_equal. exact Hnext.
Qed.

End WindowFacts.

(** * Further properties of the program *)

(** ** The tokens of a text *)

(** X1. The matches of the pattern are exactly these: the text has an
    ASCII letter at the offset, an optional minus sign and one or more
    decimal digits follow it at once, and the digits are taken up to the
    first character that is no decimal digit. No such place is missed,
    and nothing else is reported. *)
Theorem finditer_exact `{R : PyRuntime}
    (message : pystr) (i : nat) (k : Z) (v : pystr) :
  (i, (k, v)) ∈ finditer message ↔
  message !! i = Some k ∧ is_ascii_letter k = true ∧ signed_integer v ∧
  ∃ rest, drop (S i) message = v ++ rest ∧ no_decimal_ahead rest.
Proof. apply finditer_spec. Qed.

(** X2. The matches come in the order of their offsets and do not
    overlap: each ends before the next begins, and all lie within the
    text. *)
Theorem matches_in_order_apart `{R : PyRuntime} (message : pystr) :
  StronglySorted (λ a b, (a.1 + length a.2.2 < b.1)%nat) (finditer message) ∧
  Forall (λ a, (a.1 + length a.2.2 < length message)%nat) (finditer message).
Proof.
  split; [apply scan_apart|].
  apply Forall_forall. intros [i [k v]] Hin. cbn [fst snd].
  apply finditer_spec in Hin as (Hi & _ & _ & rest & Hdrop & _).
  apply (f_equal length) in Hdrop. rewrite length_drop, length_app in Hdrop.
  apply lookup_lt_Some in Hi. lia.
Qed.

(** X3. A text with no ASCII letter, or with no decimal digit, holds no
    token: the mapping is empty and nothing is raised, whatever the
    length of the text. *)
Theorem no_token_no_fields `{R : PyRuntime} (message : pystr) :
  Forall (λ c, is_ascii_letter c = false) message ∨
  Forall (λ c, is_decimal c = false) message →
  findall message = [] ∧ parse_message message = Ok ∅.
Proof.
  intros H.
  assert (Hnone : findall message = []).
  { destruct H; [apply findall_no_letters|apply findall_no_digits]; assumption. }
  split; [exact Hnone|]. unfold parse_message. rewrite Hnone. reflexivity.
Qed.

Lemma no_token_no_fields_witness :
  @findall model_runtime (str "12:30, -7") = [] ∧
  @parse_message model_runtime (str "12:30, -7") = Ok ∅.
Proof.
  apply (@no_token_no_fields model_runtime). left.
  apply (bool_decide_unpack _). vm_compute. exact I.
Defined.

(** X4. A separator (a character that is no letter, no decimal digit and
    no minus sign, such as the comma) cuts the text in two independent
    parts: the tokens are those of the part before it followed by those
    of the part after it, and the mapping is that of the second part laid
    over that of the first. *)
Theorem separator_splits_parse `{R : PyRuntime} (s1 s2 : pystr) (c : Z) :
  separator c →
  findall (s1 ++ c :: s2) = findall s1 ++ findall s2 ∧
  ∀ d1 d2, parse_message s1 = Ok d1 → parse_message s2 = Ok d2 →
           parse_message (s1 ++ c :: s2) = Ok (d2 ∪ d1).
Proof.
  intros Hc. split; [apply findall_before_separator; exact Hc|].
  intros d1 d2 H1 H2. unfold parse_message in *.
  rewrite (findall_before_separator s1 c s2 Hc), for_each_app, H1.
  cbn [mbind result_bind].
  rewrite <- (left_id_L ∅ (∪) d1) at 1.
  apply for_each_store_onto. exact H2.
Qed.

Lemma separator_splits_parse_witness :
  @separator model_runtime (chr ",") ∧
  @findall model_runtime (str "V4106" ++ chr "," :: str "U841")
  = @findall model_runtime (str "V4106") ++ @findall model_runtime (str "U841") ∧
  ∃ d1 d2,
    @parse_message model_runtime (str "V4106") = Ok d1 ∧
    @parse_message model_runtime (str "U841") = Ok d2 ∧
    @parse_message model_runtime (str "V4106" ++ chr "," :: str "U841")
    = Ok (d2 ∪ d1).
Proof.
  assert (Hc : @separator model_runtime (chr ",")).
  { repeat split; [vm_compute; reflexivity..|vm_compute; discriminate]. }
  split; [exact Hc|].
  destruct (@separator_splits_parse model_runtime (str "V4106") (str "U841")
              (chr ",") Hc) as [Hall Hparse].
  split; [exact Hall|].
  destruct (@parse_message_safe model_runtime (str "V4106")) as [d1 H1];
    [vm_compute; lia|].
  destruct (@parse_message_safe model_runtime (str "U841")) as [d2 H2];
    [vm_compute; lia|].
  exists d1, d2. repeat split; [exact H1|exact H2|exact (Hparse d1 d2 H1 H2)].
Defined.

(** X5. A field is in the mapping exactly when the text holds a token
    whose letter maps to it; whatever the values, nothing else decides
    its presence. *)
Theorem field_present_iff_token `{R : PyRuntime}
    (message : pystr) (d : gmap string pyval) (name : string) :
  parse_message message = Ok d →
  (is_Some (d !! name) ↔
   ∃ k v, (k, v) ∈ findall message ∧ field_map !! k = Some name).
Proof. apply parse_message_present. Qed.

Lemma field_present_iff_token_witness :
  ∃ d, @parse_message model_runtime (str "S1,V4106") = Ok d ∧
       (is_Some (d !! "rssi"%string) ↔
        ∃ k v, (k, v) ∈ @findall model_runtime (str "S1,V4106") ∧
               @field_map !! k = Some "rssi"%string).
Proof.
  destruct (@parse_message_safe model_runtime (str "S1,V4106")) as [d Hd];
    [vm_compute; lia|].
  exists d. split; [exact Hd|].
  exact (@field_present_iff_token model_runtime _ d "rssi" Hd).
Defined.

(** X6. The mapping holds no other keys than the seven field names; the
    two voltages are floats and the other five fields are integers. *)
Theorem field_kinds `{R : PyRuntime}
    (message : pystr) (d : gmap string pyval) (name : string) (x : pyval) :
  parse_message message = Ok d → d !! name = Some x →
  (name ∈ ["battery_voltage"; "solar_voltage"]%string ∧ ∃ f, x = PFloat f) ∨
  (name ∈ ["sensor_id"; "msg_count"; "ultrasonic_range"; "rssi";
           "signal_to_noise_ratio"]%string ∧ ∃ n, x = PInt n).
Proof. apply parse_message_kinds. Qed.

Lemma field_kinds_witness :
  ∃ d, @parse_message model_runtime EXAMPLE_FRAME = Ok d ∧
       d !! "rssi"%string = Some (PInt (-58)) ∧
       (("rssi"%string ∈ ["battery_voltage"; "solar_voltage"]%string ∧
         ∃ f, PInt (-58) = PFloat f) ∨
        ("rssi"%string ∈ ["sensor_id"; "msg_count"; "ultrasonic_range"; "rssi";
                          "signal_to_noise_ratio"]%string ∧
         ∃ n, PInt (-58) = PInt n)).
Proof.
  pose proof example_frame_fields as H.
  destruct (@parse_message model_runtime EXAMPLE_FRAME) as [d|] eqn:Hd;
    [|discriminate].
  injection H as _ _ _ Hr.
  exists d. split; [reflexivity|]. split; [exact Hr|].
  exact (@field_kinds model_runtime EXAMPLE_FRAME d "rssi" (PInt (-58)) Hd Hr).
Defined.

(** X7. Tokens whose letter is not one of the seven are never converted:
    two texts with the same recognised tokens parse alike, and a text of
    any length parses when its recognised tokens have at most 308
    characters each. *)
Theorem unrecognised_tokens_ignored `{R : PyRuntime} :
  (∀ m1 m2, recognised (findall m1) = recognised (findall m2) →
            parse_message m1 = parse_message m2) ∧
  (∀ message,
     Forall (λ m, (length m.2 ≤ SAFE_DIGITS)%nat) (recognised (findall message)) →
     ∃ d, parse_message message = Ok d).
Proof.
  split.
  - intros m1 m2 H. unfold parse_message.
    rewrite (for_each_store_recognised (findall m1)),
            (for_each_store_recognised (findall m2)), H. reflexivity.
  - intros message H. unfold parse_message.
    rewrite for_each_store_recognised. apply for_each_store_total.
    apply Forall_forall. intros [k v] Hin _.
    rewrite Forall_forall in H. specialize (H _ Hin).
    apply list_elem_of_filter in Hin as [_ Hin].
    apply field_value_safe; [|exact H].
    exact (proj2 (findall_signed_integer _ _ _ Hin)).
Qed.

Lemma unrecognised_tokens_ignored_witness :
  (400 < length (chr "X" :: replicate 400 (chr "9") ++ str ",V1"))%nat ∧
  ∃ d, @parse_message model_runtime
         (chr "X" :: replicate 400 (chr "9") ++ str ",V1") = Ok d.
Proof.
  split; [vm_compute; lia|].
  apply (proj2 (@unrecognised_tokens_ignored model_runtime)).
  apply (bool_decide_unpack _). vm_compute. exact I.
Defined.

(** X8. What makes the reader thread accept a line, in terms of its
    text: the line has 10 to 40 characters, begins with S and holds a
    token for each of V, s, U and r. The values do not matter, a zero is
    accepted as any other number. For every other line the list and the
    files are as before. *)
Theorem accepted_iff_four_tokens `{R : PyRuntime}
    (t_recv t_accept : datetime) (line : pystr)
    (data : list pytuple) (fs : filesystem) :
  ((∃ row, (iteration t_recv t_accept line data fs).1
           = Ok (data ++ [row],
                 [received t_recv line; data_updated (data ++ [row])]))
   ↔ four_tokens line) ∧
  (¬ four_tokens line →
   iteration t_recv t_accept line data fs = (Ok (data, [received t_recv line]), fs)).
Proof.
  assert (Hrej : ∀ row : pytuple,
            Ok (data, [received t_recv line])
            ≠ Ok (data ++ [row], [received t_recv line; data_updated (data ++ [row])])).
  { intros row [= _ Hlen]. }
  destruct (decide (filtered_out line)) as [Hf|Hf].
  - assert (Hno : ¬ four_tokens line).
    { intros (Hlen & HS & _). destruct Hf as [?|[?|?]]; [lia|lia|contradiction]. }
    assert (Hit := iteration_rejects t_recv t_accept line data fs None
                     (parsed_fields_filtered _ Hf)).
    rewrite Hit by (intros (d & [=] & _)).
    split; [|reflexivity]. split; [|contradiction].
    intros [row Hrow]. cbn [fst] in Hrow. exfalso. exact (Hrej row Hrow).
  - destruct (candidate_parses line Hf) as [d Hd].
    assert (Hfields : parsed_fields line = Ok (Some d)).
    { rewrite (parsed_fields_candidate _ Hf), Hd. reflexivity. }
    assert (Hpass : (10 ≤ length line ≤ 40)%nat ∧ line !! 0%nat = Some (chr "S")).
    { unfold filtered_out in Hf. split; [lia|].
      destruct (decide (line !! 0%nat = Some (chr "S"))); [assumption|tauto]. }
    assert (Hiff : has_required d ↔ four_tokens line).
    { rewrite (has_required_tokens _ _ Hd). unfold four_tokens. tauto. }
    destruct (decide (has_required d)) as [Hreq|Hreq].
    + destruct Hreq as ([b Hb] & [s Hs] & [u Hu] & [r Hr]).
      rewrite (iteration_accepts t_recv t_accept line data fs d b s u r
                 Hfields Hb Hs Hu Hr).
      assert (Hfour : four_tokens line).
      { apply Hiff. repeat split; eauto. }
      split; [|contradiction]. split; [intros _; exact Hfour|].
      intros _. eexists. reflexivity.
    + assert (Hno : ¬ four_tokens line) by tauto.
      rewrite (iteration_rejects t_recv t_accept line data fs (Some d) Hfields)
        by (intros (d' & [= <-] & H); exact (Hreq H)).
      split; [|reflexivity]. split; [|contradiction].
      intros [row Hrow]. cbn [fst] in Hrow. exfalso. exact (Hrej row Hrow).
Qed.

(** ** The data file *)


(** X10. The reader thread, from the load at its start to its last
    line, touches no other file than the data file and changes no row of
    it that is ended by its newline: when the last row of the file has
    its newline, the file afterwards begins with all that it held. *)
Theorem reader_thread_only_appends `{R : PyRuntime}
    (lines : list (datetime * datetime * pystr)) (fs : filesystem) :
  only_appends data_file fs (run lines fs).2 ∧
  (open_row data_file fs = None →
   ∀ current, files fs !! data_file = Some current →
   ∃ extra, files (run lines fs).2 !! data_file = Some (current ++ extra)).
Proof.
  assert (H : only_appends data_file fs (run lines fs).2).
  { unfold run. io_unfold.
    destruct (read_data_from_file_returns data_file fs) as [data ->].
    apply loop_only_appends. }
  split; [exact H|]. intros Hclosed current Hfile.
  exact (only_appends_keeps _ _ _ _ Hclosed Hfile H).
Qed.

(** X11. Appends compose: on a store whose last row is ended by its
    newline, after two writes in a row the load returns what the store
    held, then the measurements of the first write, then those of the
    second. The header is written once, by the write that creates the
    file. *)
Theorem appends_compose `{R : PyRuntime}
    (fs : filesystem) (ms1 ms2 : list measurement) (old : list pytuple) :
  crlf_text_mode = false →
  read_denied fs = false → write_denied fs = false →
  (length ms1 + length ms2 + 1 < free_rows fs)%nat →
  Forall wf_measurement ms1 → Forall wf_measurement ms2 →
  store_holds fs old →
  open_row data_file fs = None →
  ∃ fs', (write_data_to_file data_file (file_row <$> ms1);;
          write_data_to_file data_file (file_row <$> ms2);;
          read_data_from_file data_file) fs
         = (Ok (old ++ (reloaded <$> ms1) ++ (reloaded <$> ms2)), fs').
Proof.
  intros Hcrlf Hread Hwrite Hfree Hms1 Hms2 Hstore Hclosed.
  destruct (write_extends_store ms1 fs old Hcrlf Hwrite ltac:(lia) Hms1 Hstore Hclosed)
    as (fs1 & Hw1 & Hstore1 & Hclosed1 & Hr1 & Hwd1 & Hfree1).
  destruct (write_extends_store ms2 fs1 _ Hcrlf Hwd1 ltac:(lia) Hms2 Hstore1 Hclosed1)
    as (fs2 & Hw2 & Hstore2 & _ & Hr2 & _ & _).
  exists fs2. io_unfold. rewrite Hw1, Hw2.
  rewrite (read_store fs2 _ ltac:(congruence) Hstore2), <- app_assoc. reflexivity.
Qed.

Lemma appends_compose_witness :
  ∃ fs', (@write_data_to_file model_runtime data_file (file_row <$> [M0]);;
          @write_data_to_file model_runtime data_file (file_row <$> [M1]);;
          @read_data_from_file model_runtime data_file) EMPTY_DISK
         = (Ok ([] ++ (reloaded <$> [M0]) ++ (reloaded <$> [M1])), fs').
Proof.
  apply (@appends_compose model_runtime EMPTY_DISK [M0] [M1] []).
  - reflexivity.
  - reflexivity.
  - reflexivity.
  - vm_compute. lia.
  - constructor; [|constructor].
    repeat split; try (vm_compute; reflexivity); vm_compute; lia.
  - constructor; [|constructor].
    repeat split; try (vm_compute; reflexivity); vm_compute; lia.
  - left. split; reflexivity.
  - reflexivity.
Defined.

(** X12. A data file that is there without any row gets no header: the
    first row appended to it stands where the header would, and a load
    skips it. The measurements after the first come back. *)
Theorem empty_file_swallows_first_row `{R : PyRuntime}
    (fs : filesystem) (m : measurement) (ms : list measurement) :
  crlf_text_mode = false →
  read_denied fs = false → write_denied fs = false →
  files fs !! data_file = Some [] →
  (length ms < free_rows fs)%nat →
  Forall wf_measurement (m :: ms) →
  ∃ fs', (write_data_to_file data_file (file_row <$> m :: ms);;
          read_data_from_file data_file) fs
         = (Ok (reloaded <$> ms), fs').
Proof.
  intros Hcrlf Hread Hwrite Hfile Hfree Hms.
  destruct (write_file (m :: ms) fs Hcrlf Hwrite (Forall_impl _ _ _ Hms wf_printable)
              (open_row_empty _ _ Hfile) ltac:(rewrite Hfile; cbn [length]; lia))
    as (fs' & Hw & Hf & _ & Hr & _ & _).
  rewrite Hfile in Hf. rewrite fmap_cons in Hf. cbn [app] in Hf.
  exists fs'. io_unfold. rewrite Hw.
  rewrite (read_rows _ _ _ _ Hf) by congruence.
  apply Forall_cons in Hms as [_ Hms]. rewrite (decode_cells ms Hms). reflexivity.
Qed.

Lemma empty_file_swallows_first_row_witness :
  ∃ fs', (@write_data_to_file model_runtime data_file (file_row <$> [M0; M1]);;
          @read_data_from_file model_runtime data_file) EMPTY_FILE_DISK
         = (Ok (reloaded <$> [M1]), fs').
Proof.
  apply (@empty_file_swallows_first_row model_runtime EMPTY_FILE_DISK M0 [M1]).
  - reflexivity.
  - reflexivity.
  - reflexivity.
  - vm_compute. reflexivity.
  - vm_compute. lia.
  - constructor; [|constructor; [|constructor]];
      repeat split; try (vm_compute; reflexivity); vm_compute; lia.
Defined.

(** X13. [delete_data] does nothing when the file is absent; it removes
    the file and nothing else when it is there, after which a load
    returns the empty list; and when the removal is refused the
    [OSError] reaches the caller with the file in place: unlike the load
    and the write, the removal is not guarded. *)
Theorem delete_data_outcomes `{R : PyRuntime} (fs : filesystem) :
  (files fs !! data_file = None → MainWindow.delete_data fs = (Ok tt, fs)) ∧
  (is_Some (files fs !! data_file) → write_denied fs = true →
   MainWindow.delete_data fs = (Raise OSError, fs)) ∧
  (is_Some (files fs !! data_file) → write_denied fs = false →
   ∃ fs', MainWindow.delete_data fs = (Ok tt, fs') ∧
          files fs' !! data_file = None ∧
          (∀ p, p ≠ data_file → files fs' !! p = files fs !! p) ∧
          read_denied fs' = read_denied fs ∧ write_denied fs' = write_denied fs ∧
          free_rows fs' = free_rows fs ∧
          read_data_from_file data_file fs' = (Ok [], fs')).
Proof.
  rewrite delete_data_steps. split; [|split].
  - intros ->. reflexivity.
  - intros [rows ->] ->. reflexivity.
  - intros [rows ->] ->. eexists. split; [reflexivity|].
    cbn [files read_denied write_denied free_rows].
    split; [apply lookup_delete_eq|].
    split; [intros p Hp; apply lookup_delete_ne; congruence|].
    repeat split. apply read_absent. apply lookup_delete_eq.
Qed.

(** X14. Deleting the data makes the store fresh whatever the file held,
    rows that do not decode included: the measurements appended after
    [delete_data] are all that a load returns. *)
Theorem delete_then_append_reloads `{R : PyRuntime}
    (fs : filesystem) (ms : list measurement) :
  crlf_text_mode = false →
  read_denied fs = false → write_denied fs = false →
  (length ms < free_rows fs)%nat →
  Forall wf_measurement ms →
  ∃ fs', (MainWindow.delete_data;;
          write_data_to_file data_file (file_row <$> ms);;
          read_data_from_file data_file) fs
         = (Ok (reloaded <$> ms), fs').
Proof.
  intros Hcrlf Hread Hwrite Hfree Hms.
  assert (Hdel : ∃ fs0, MainWindow.delete_data fs = (Ok tt, fs0) ∧
                        files fs0 !! data_file = None ∧ read_denied fs0 = false ∧
                        write_denied fs0 = false ∧ free_rows fs0 = free_rows fs).
  { rewrite delete_data_steps, Hwrite.
    destruct (files fs !! data_file) as [rows|] eqn:E.
    - eexists. split; [reflexivity|]. cbn [files read_denied write_denied free_rows].
      repeat split; try assumption. apply lookup_delete_eq.
    - exists fs. repeat split; assumption. }
  destruct Hdel as (fs0 & Hdel & Hnone & Hr0 & Hw0 & Hf0).
  destruct (write_extends_store ms fs0 [] Hcrlf Hw0 ltac:(lia) Hms
              (or_introl (conj Hnone eq_refl)) (open_row_absent _ _ Hnone))
    as (fs1 & Hw1 & Hstore1 & _ & Hr1 & _ & _).
  exists fs1. io_unfold. rewrite Hdel, Hw1.
  apply (read_store fs1 _ ltac:(congruence) Hstore1).
Qed.

Lemma delete_then_append_reloads_witness :
  fst (@read_data_from_file model_runtime data_file CORRUPT_DISK) = Ok [] ∧
  ∃ fs', (MainWindow.delete_data;;
          @write_data_to_file model_runtime data_file (file_row <$> [M1]);;
          @read_data_from_file model_runtime data_file) CORRUPT_DISK
         = (Ok (reloaded <$> [M1]), fs').
Proof.
  split; [vm_compute; reflexivity|].
  apply (@delete_then_append_reloads model_runtime CORRUPT_DISK [M1]).
  - reflexivity.
  - reflexivity.
  - reflexivity.
  - vm_compute. lia.
  - constructor; [|constructor].
    repeat split; try (vm_compute; reflexivity); vm_compute; lia.
Defined.

(** X15. A load is all or nothing and reads only: it returns the empty
    list, or one tuple for every row after the first, in the order of the
    file, each the decoding of its row; every tuple it returns is a
    datetime followed by four floats. The first row is never looked
    at. *)
Theorem load_all_or_nothing `{R : PyRuntime} (file_path : string) (fs : filesystem) :
  ∃ l, read_data_from_file file_path fs = (Ok l, fs) ∧
       (l = [] ∨
        ∃ header rows,
          files fs !! file_path = Some (header :: rows) ∧ read_denied fs = false ∧
          Forall2 (λ row t, decode_row row = Ok t) rows l) ∧
       Forall (λ t, ∃ d x1 x2 x3 x4,
                 t = [PDatetime d; PFloat x1; PFloat x2; PFloat x3; PFloat x4]) l.
Proof.
  assert (Hcases : ∃ l, read_data_from_file file_path fs = (Ok l, fs) ∧
       (l = [] ∨
        ∃ header rows,
          files fs !! file_path = Some (header :: rows) ∧ read_denied fs = false ∧
          Forall2 (λ row t, decode_row row = Ok t) rows l)).
  { destruct (files fs !! file_path) as [[|header rows]|] eqn:E.
    - exists []. split; [apply read_empty, E|left; reflexivity].
    - destruct (read_denied fs) eqn:Hr.
      + exists []. split; [apply read_refused, Hr|left; reflexivity].
      + rewrite (read_rows _ _ _ _ E Hr).
        destruct (comprehension decode_row rows) as [l|e] eqn:Ec.
        * exists l. split; [reflexivity|]. right. exists header, rows.
          split; [reflexivity|]. split; [reflexivity|].
          apply comprehension_Forall2, Ec.
        * exists []. split; [reflexivity|left; reflexivity].
    - exists []. split; [apply read_absent, E|left; reflexivity]. }
  destruct Hcases as (l & Hl & Hshape). exists l. split; [exact Hl|].
  split; [exact Hshape|].
  destruct Hshape as [->|(header & rows & _ & _ & Hrows)]; [constructor|].
  clear Hl. induction Hrows as [|row t rows l Hrow _ IH]; [constructor|].
  constructor; [exact (decode_row_shape _ _ Hrow)|exact IH].
Qed.

(** ** The reader thread *)

(** X16. The loop emits one [message_received] for every line, in the
    order of the lines and with the time of its reception, and one
    [data_updated] for every tuple it appends: the list at the n-th of
    these emissions holds the n first appended tuples after what the
    list held at the start. *)
Theorem loop_signals `{R : PyRuntime}
    (lines : list (datetime * datetime * pystr))
    (data : list pytuple) (fs : filesystem) :
  ∃ added emitted fs',
    loop lines data fs = (Ok (data ++ added, emitted), fs') ∧
    messages emitted = (λ l, strftime l.1.1 ++ str " :: " ++ l.2) <$> lines ∧
    snapshots emitted = (λ n, data ++ take n added) <$> seq 1 (length added).
Proof.
  revert data fs. induction lines as [|[[t_recv t_accept] line] lines IH];
    intros data fs.
  - exists [], [], fs. rewrite app_nil_r. repeat split.
  - cbn [loop]. io_unfold.
    destruct (iteration_outcome t_recv t_accept line data fs)
      as [Hit|(m & _ & _ & Hit)]; rewrite Hit.
    + destruct (IH data fs) as (added & emitted & fs' & Hloop & Hmsg & Hsnap).
      rewrite Hloop. exists added, ([received t_recv line] ++ emitted), fs'.
      split; [reflexivity|]. cbn [app messages snapshots omap list_omap received].
      cbn [fmap list_fmap fst snd]. split; [|exact Hsnap].
      f_equal. exact Hmsg.
    + destruct (IH (data ++ [in_memory m]) (write_data_to_file data_file [file_row m] fs).2)
        as (added & emitted & fs' & Hloop & Hmsg & Hsnap).
      rewrite Hloop.
      exists (in_memory m :: added),
             ([received t_recv line; data_updated (data ++ [in_memory m])] ++ emitted),
             fs'.
      rewrite <- app_assoc. split; [reflexivity|].
      cbn [app messages snapshots omap list_omap received].
      split.
      * cbn [fmap list_fmap fst snd]. f_equal. exact Hmsg.
      * fold (snapshots emitted). rewrite Hsnap. apply snapshots_shift.
Qed.

(** X17. Every tuple the loop appends is a datetime, two floats and two
    integers, stamped with the clock reading taken at its acceptance, in
    the order of the lines; and the file is kept in step: the loop leaves
    the file system as the writes of these measurements, one row each in
    the same order, leave it. *)
Theorem loop_appends_typed_rows `{R : PyRuntime}
    (lines : list (datetime * datetime * pystr))
    (data : list pytuple) (fs : filesystem) :
  ∃ ms emitted,
    loop lines data fs
    = (Ok (data ++ (in_memory <$> ms), emitted),
       foldl (λ fs m, (write_data_to_file data_file [file_row m] fs).2) fs ms) ∧
    (m_time <$> ms) `sublist_of` ((λ l, l.1.2) <$> lines).
Proof.
  revert data fs. induction lines as [|[[t_recv t_accept] line] lines IH];
    intros data fs.
  - exists [], []. cbn. rewrite app_nil_r. split; [reflexivity|constructor].
  - cbn [loop]. io_unfold.
    destruct (iteration_outcome t_recv t_accept line data fs)
      as [Hit|(m & Hm & _ & Hit)]; rewrite Hit.
    + destruct (IH data fs) as (ms & emitted & Hloop & Hsub).
      rewrite Hloop. exists ms, ([received t_recv line] ++ emitted).
      split; [reflexivity|]. cbn [fmap list_fmap fst snd].
      apply sublist_cons. exact Hsub.
    + destruct (IH (data ++ [in_memory m]) (write_data_to_file data_file [file_row m] fs).2)
        as (ms & emitted & Hloop & Hsub).
      rewrite Hloop.
      exists (m :: ms),
             ([received t_recv line; data_updated (data ++ [in_memory m])] ++ emitted).
      cbn [fmap list_fmap foldl fst snd]. rewrite <- app_assoc.
      split; [reflexivity|]. rewrite Hm. apply sublist_skip. exact Hsub.
Qed.

(** ** The window *)

(** X18. The rows of the plot are always the end of the list, as many
    as the list has up to the bound; and when one more tuple arrives the
    plot takes it at its end, letting go of its oldest row once the bound
    is reached. *)
Theorem plot_window_slides (data view : list pytuple) (row : pytuple) :
  MainWindow.update_plot data = Some view →
  (∃ older, data = older ++ view) ∧
  length view = (length data `min` MainWindow.PLOT_POINTS)%nat ∧
  MainWindow.update_plot (data ++ [row])
  = Some ((if decide (length data < MainWindow.PLOT_POINTS)%nat
           then view else drop 1 view) ++ [row]).
Proof.
  apply (update_plot_slides MainWindow.PLOT_POINTS).
  unfold MainWindow.PLOT_POINTS. lia.
Qed.

Lemma plot_window_slides_witness :
  MainWindow.update_plot ([in_memory M0] ++ [in_memory M1])
  = Some ([in_memory M0] ++ [in_memory M1]).
Proof.
  destruct (plot_window_slides [in_memory M0] [in_memory M0] (in_memory M1) eq_refl)
    as (_ & _ & H).
  rewrite decide_True in H by (apply Nat.ltb_lt; vm_compute; reflexivity).
  exact H.
Defined.

(** X19. From its creation on, through any clicks on its buttons while
    they are enabled, any choices of a port and any end of a reader on
    its own, the window has exactly one of Start and Stop enabled, never
    more than its current reader thread running, and none running while
    Start is enabled. *)
Theorem one_reader_at_a_time
    (ports : list pystr) (events : list MainWindow.event) (w : MainWindow.window) :
  MainWindow.play (MainWindow.__init__ ports) events = Some w →
  controls_ok w.
Proof. apply play_controls_ok, init_controls_ok. Qed.

Lemma one_reader_at_a_time_witness :
  ∃ w, MainWindow.play (MainWindow.__init__ [str "COM3"])
         [MainWindow.clicked_stop; MainWindow.clicked_start] = Some w ∧
       length (MainWindow.dropped w) = 1%nat ∧
       controls_ok w.
Proof.
  eexists. split; [reflexivity|]. split; [reflexivity|].
  apply (one_reader_at_a_time [str "COM3"]
           [MainWindow.clicked_stop; MainWindow.clicked_start]).
  reflexivity.
Defined.

(** ** What stays wrong *)

(** X20. The program never repairs the data file: once a row after the
    first that is ended by its newline does not decode, the reader
    thread may append what it will, every later load returns the empty
    list. *)
Theorem corrupt_store_stays_corrupt `{R : PyRuntime}
    (fs : filesystem) (header : csvrow) (rows : list csvrow) (e : exn)
    (lines : list (datetime * datetime * pystr)) (data : list pytuple) :
  settled data_file fs = header :: rows →
  comprehension decode_row rows = Raise e →
  read_data_from_file data_file (loop lines data fs).2
  = (Ok [], (loop lines data fs).2).
Proof.
  intros Hsettled Hrows.
  apply (read_after_appends fs _ header rows e Hsettled Hrows).
  apply loop_only_appends.
Qed.

Lemma corrupt_store_stays_corrupt_witness :
  @read_data_from_file model_runtime data_file
    (@loop model_runtime [(T0, T0, EXAMPLE_FRAME)] [] CORRUPT_DISK).2
  = (Ok [], (@loop model_runtime [(T0, T0, EXAMPLE_FRAME)] [] CORRUPT_DISK).2).
Proof.
  apply (@corrupt_store_stays_corrupt model_runtime CORRUPT_DISK HEADER_CELLS
           [@cells_of model_runtime M0; TRUNCATED_ROW] IndexError).
  - vm_compute. reflexivity.
  - vm_compute. reflexivity.
Defined.

(** The newline matters: a last row that does not decode and has no
    newline behind it is continued by the next row, and can come out
    decodable. Here the last row is one empty cell; before the turn of
    the loop the load returns the empty list because of it, and after
    the turn it returns the measurement of the frame. *)
Lemma unterminated_row_repaired :
  files QUOTED_EMPTY_DISK !! data_file = Some [HEADER_CELLS; [[]]] ∧
  @comprehension _ _ (@decode_row model_runtime) [[[]]] = Raise ValueError ∧
  fst (@read_data_from_file model_runtime data_file QUOTED_EMPTY_DISK) = Ok [] ∧
  fst (@read_data_from_file model_runtime data_file
         (@loop model_runtime [(T0, T0, EXAMPLE_FRAME)] [] QUOTED_EMPTY_DISK).2)
  = Ok [[PDatetime T1; PFloat F_4_106; PFloat F_6_835; PFloat F_841; PFloat F_NEG_58]].
Proof. repeat split; vm_compute; reflexivity. Qed.

(** A device without room can leave the beginning of a row behind: the
    write returns normally, the file ends in a row of one cell without
    newline, and the load returns the empty list. *)
Lemma cut_row_left_behind :
  @write_data_to_file model_runtime data_file [file_row M0] CUTTING_DISK
  = (Ok tt, (@write_data_to_file model_runtime data_file [file_row M0] CUTTING_DISK).2) ∧
  files (@write_data_to_file model_runtime data_file [file_row M0] CUTTING_DISK).2
    !! data_file
  = Some [HEADER_CELLS; [strftime T1]] ∧
  open_row data_file
    (@write_data_to_file model_runtime data_file [file_row M0] CUTTING_DISK).2
  = Some [strftime T1] ∧
  fst ((@write_data_to_file model_runtime data_file [file_row M0];;
        @read_data_from_file model_runtime data_file) CUTTING_DISK)
  = Ok [].
Proof. repeat split; vm_compute; reflexivity. Qed.

(** X21. Where text mode turns a written newline into CR LF, a store
    that the program creates never loads: the header is followed by an
    empty row, and after any rows written with it and any run of the
    reader thread a load returns the empty list. *)
Theorem crlf_store_never_loads `{R : PyRuntime}
    (fs : filesystem) (rows : list pytuple)
    (lines : list (datetime * datetime * pystr)) (data : list pytuple) :
  crlf_text_mode = true → write_denied fs = false →
  files fs !! data_file = None → (0 < free_rows fs)%nat →
  ∃ fs', (write_data_to_file data_file rows;;
          loop lines data;;
          read_data_from_file data_file) fs
         = (Ok [], fs').
Proof.
  intros Hcrlf Hw Hnone Hfree.
  destruct (crlf_write_file fs rows Hcrlf Hw Hnone Hfree) as (fs1 & more & Hw1 & Hs).
  destruct (loop_extends lines data fs1) as (added & emitted & fs2 & Hloop & _).
  pose proof (loop_only_appends lines data fs1) as Happ.
  rewrite Hloop in Happ. cbn [snd] in Happ.
  exists fs2. io_unfold. rewrite Hw1, Hloop.
  apply (read_after_appends fs1 fs2 HEADER_CELLS ([] :: more) IndexError Hs);
    [reflexivity|exact Happ].
Qed.

Lemma crlf_store_never_loads_witness :
  ∃ fs', (@write_data_to_file crlf_runtime data_file [file_row M0];;
          @loop crlf_runtime [(T0, T0, EXAMPLE_FRAME)] [];;
          @read_data_from_file crlf_runtime data_file) EMPTY_DISK
         = (Ok [], fs').
Proof.
  apply (@crlf_store_never_loads crlf_runtime EMPTY_DISK);
    [reflexivity|reflexivity|reflexivity|vm_compute; lia].
Defined.
